(** * Focus-server: comment threads, pagination windows and visibility
    conditions of the REST controllers

    A shallow embedding of the request handlers of the blog backend
    (comments, posts, notes, analyze and aggregate controllers, the shared
    query helpers and the pager DTO) over an explicit model of the document
    store they talk to, and of the uploads service and the helpers of
    the adapter over their own state, followed by the properties the
    specification states about them and by further properties of the
    code. *)

From Stdlib Require Import ZArith Lia Ascii.
From stdpp Require Import base option list gmap strings fin_maps pretty
  sorting.
From Equations Require Import Equations.

Open Scope Z_scope.

(* [set_solver] clears hypotheses by name and warns when one is gone. *)
Set Warnings "-clear-no-such-hyp".

(** ** Identifiers, enumerations and exceptions *)

(** Mongo [ObjectId]s.  The store hands them out from a counter, so an id
    is a number here; [oid_string] is the rendering used where the code
    interpolates or stringifies an id. *)
Abbreviation ObjectId := N.

Definition oid_string (i : ObjectId) : string := pretty i.

(** [CommentState] of [@libs/db/models/comment.model]: Unread = 0,
    Read = 1, Junk = 2. *)
Inductive CommentState := Unread | Read | Junk.

Definition CommentState_code (s : CommentState) : Z :=
  match s with Unread => 0 | Read => 1 | Junk => 2 end.

(** [CommentRefTypes]: the collection a comment's [ref] points into. *)
Inductive CommentRefTypes := Post | Note.

#[global] Instance CommentState_eq_dec : EqDecision CommentState.
Proof. solve_decision. Defined.

#[global] Instance CommentRefTypes_eq_dec : EqDecision CommentRefTypes.
Proof. solve_decision. Defined.

(** The exceptions a handler can leave with.  [TypeError] is the runtime
    failure of dereferencing [null]; [ValidationError] is what the
    document layer raises for a document that lacks a required path. *)
Inductive Exception :=
| CannotFindException
| ForbiddenException (message : string)
| BadRequestException
| ValidationError
| TypeError.

(** The error kinds of the specification's taxonomy. *)
Inductive ErrorKind := NotFound | Forbidden | BadInput | Fatal.

Definition error_kind (e : Exception) : ErrorKind :=
  match e with
  | CannotFindException => NotFound
  | ForbiddenException _ => Forbidden
  | BadRequestException => BadInput
  | ValidationError => BadInput
  | TypeError => Fatal
  end.

(** ** Documents *)

(** A calendar date as [new Date(year, monthIndex, day)] builds it; the
    time of day and the time zone play no role in what follows. *)
Record Date := mkDate { d_year : Z; d_month : Z; d_day : Z }.

Definition date_leb (a b : Date) : bool :=
  (d_year a <? d_year b)
  || ((d_year a =? d_year b)
      && ((d_month a <? d_month b)
          || ((d_month a =? d_month b) && (d_day a <=? d_day b)))).

(** A stored comment, with the persisted layout
    [{_id, ref, refType, parent?, children, commentsIndex, key, state,
      author, text, mail, url, ip}]. *)
Record Comment := mkComment {
  _id : ObjectId;
  ref : ObjectId;
  refType : CommentRefTypes;
  parent : option ObjectId;
  children : list ObjectId;
  commentsIndex : Z;
  key : string;
  state : CommentState;
  author : option string;
  text : option string;
  mail : option string;
  url : option string;
  ip : option string
}.

(** [Partial<Comment>]: the type the handlers give to the object they
    pass to [createNew].  Every path is optional; [Some v] is an own
    property with value [v].  A request body is such an object as well:
    it is the parsed JSON of the request, and the [CommentDto]
    annotation on the parameter removes nothing at run time. *)
Record PartialComment := mkPartial {
  o_parent : option ObjectId;
  o_ref : option ObjectId;
  o_refType : option CommentRefTypes;
  o_children : option (list ObjectId);
  o_commentsIndex : option Z;
  o_key : option string;
  o_state : option CommentState;
  o_author : option string;
  o_text : option string;
  o_mail : option string;
  o_url : option string;
  o_ip : option string
}.

Definition empty_partial : PartialComment :=
  mkPartial None None None None None None None None None None None None.

(** One field of an object spread: a later own property replaces an
    earlier one. *)
Definition over {A} (later earlier : option A) : option A :=
  match later with Some v => Some v | None => earlier end.

(** [{ ...a, ...b }] *)
Definition spread (a b : PartialComment) : PartialComment :=
  {| o_parent := over (o_parent b) (o_parent a);
     o_ref := over (o_ref b) (o_ref a);
     o_refType := over (o_refType b) (o_refType a);
     o_children := over (o_children b) (o_children a);
     o_commentsIndex := over (o_commentsIndex b) (o_commentsIndex a);
     o_key := over (o_key b) (o_key a);
     o_state := over (o_state b) (o_state a);
     o_author := over (o_author b) (o_author a);
     o_text := over (o_text b) (o_text a);
     o_mail := over (o_mail b) (o_mail a);
     o_url := over (o_url b) (o_url a);
     o_ip := over (o_ip b) (o_ip a) |}.

(** A content item (post or note), reduced to the paths the handlers
    below read or filter on. *)
Record Article := mkArticle {
  a_id : ObjectId;
  hide : bool;
  password : option string;
  allowComment : bool;
  created : Date
}.

(** [IpRecord], the value of the [@IpLocation()] parameter.  The sources
    only show its [ip] property. *)
Record IpRecord := mkIp { ip_of : string }.

Definition ipLocation_fields (l : IpRecord) : PartialComment :=
  {| o_parent := None; o_ref := None; o_refType := None; o_children := None;
     o_commentsIndex := None; o_key := None; o_state := None;
     o_author := None; o_text := None; o_mail := None; o_url := None;
     o_ip := Some (ip_of l) |}.

(** ** The document store and its side channels *)

Inductive ReplyMailType := Owner | Guest.

(** What a handler hands to the mailer and to the admin gateway.  Both
    are fire-and-forget calls; the log keeps them in call order. *)
Inductive Effect :=
| SendEmail (comment : ObjectId) (type : ReplyMailType)
| Broadcast_COMMENT_CREATE (comment : ObjectId)
| Broadcast_POST_DELETE (post : ObjectId).

(** Collections are sequences of documents in natural (insertion) order;
    [nextId] is the counter new [_id]s are drawn from. *)
Record Store := mkStore {
  comments : list Comment;
  posts : list Article;
  notes : list Article;
  nextId : ObjectId;
  outbox : list Effect
}.

Definition with_comments (cs : list Comment) (s : Store) : Store :=
  {| comments := cs; posts := posts s; notes := notes s;
     nextId := nextId s; outbox := outbox s |}.

Definition with_posts (ps : list Article) (s : Store) : Store :=
  {| comments := comments s; posts := ps; notes := notes s;
     nextId := nextId s; outbox := outbox s |}.

(** ** Asynchronous handlers *)

(** An atomic store operation: it runs against the store in one piece
    and ends with a value or an exception.  There are no transactions, so
    what was written before an exception stays written. *)
Definition Atomic (X : Type) : Type := Store -> (Exception + X) * Store.

(** An [async] function body: it returns, throws, or awaits an atomic
    operation and goes on with its result.  Every [Await] is a point
    where other requests may run. *)
Inductive Async (A : Type) : Type :=
| Return (a : A)
| Throw (e : Exception)
| Await {X : Type} (op : Atomic X) (k : X -> Async A).

Arguments Return {A} a.
Arguments Throw {A} e.
Arguments Await {A X} op k.

(** Awaiting another [async] function. *)
Fixpoint abind {A B} (p : Async A) (f : A -> Async B) : Async B :=
  match p with
  | Return a => f a
  | Throw e => Throw e
  | Await op k => Await op (fun x => abind (k x) f)
  end.

Definition atomic {X} (op : Atomic X) : Async X := Await op Return.

Notation "x <- 'await' p ;; k" := (abind p (fun x => k))
  (at level 100, p at next level, right associativity).
Notation "'await' p ;; k" := (abind p (fun _ => k))
  (at level 100, p at next level, right associativity).

(** [try { await p } catch { throw e }] *)
Fixpoint catch_rethrow {A} (p : Async A) (e : Exception) : Async A :=
  match p with
  | Return a => Return a
  | Throw _ => Throw e
  | Await op k =>
      Await (fun s => match op s with
                      | (inl _, s') => (inl e, s')
                      | r => r
                      end)
            (fun x => catch_rethrow (k x) e)
  end.

(** One request running alone, from call to completion. *)
Fixpoint run {A} (p : Async A) (s : Store) : (Exception + A) * Store :=
  match p with
  | Return a => (inr a, s)
  | Throw e => (inl e, s)
  | Await op k =>
      match op s with
      | (inl e, s') => (inl e, s')
      | (inr x, s') => run (k x) s'
      end
  end.

(** One turn of a request: the awaited operation takes effect and the
    body resumes up to its next [Await]; a finished body stays as it is. *)
Definition step {A} (p : Async A) (s : Store) : Async A * Store :=
  match p with
  | Await op k =>
      match op s with
      | (inl e, s') => (Throw e, s')
      | (inr x, s') => (k x, s')
      end
  | _ => (p, s)
  end.

(** Requests in flight and the store they share. *)
Definition Pool (A : Type) : Type := list (Async A) * Store.

(** The scheduler lets request [i] take one turn. *)
Definition turn {A} (i : nat) (w : Pool A) : Pool A :=
  match w.1 !! i with
  | Some p => let '(p', s') := step p w.2 in (<[i := p']> w.1, s')
  | None => w
  end.

(** The pool after a whole schedule, given as the sequence of requests
    that take a turn. *)
Definition interleave {A} (schedule : list nat) (w : Pool A) : Pool A :=
  foldl (fun w i => turn i w) w schedule.

(** A synchronous call that leaves a trace in the outbox.  It is not
    awaited in the source; giving it a turn of its own only adds
    interleavings. *)
Definition emit (e : Effect) : Async unit :=
  atomic (fun s =>
    (inr tt,
     {| comments := comments s; posts := posts s; notes := notes s;
        nextId := nextId s; outbox := outbox s ++ [e] |})).

Definition read {X} (f : Store -> X) : Async X :=
  atomic (fun s => (inr (f s), s)).

(** ** Persistence gateway *)

(** The handlers reach the store through the base service and through
    the document layer's own methods ([populate], [updateOne],
    [deleteOne], [deleteMany]).  Each call is one operation against the
    store. *)

(** The first document of a collection with a given [_id]. *)
Definition find_comment (id : ObjectId) (cs : list Comment) : option Comment :=
  List.find (fun c => bool_decide (_id c = id)) cs.

Definition find_article (id : ObjectId) (l : list Article) : option Article :=
  List.find (fun a => bool_decide (a_id a = id)) l.

(** Modelled from the spec: [findById(id)] of the base service, which is
    not among the sources: the document with that [_id], or absence;
    never an error. *)
Definition findById (id : ObjectId) : Async (option Comment) :=
  read (fun s => find_comment id (comments s)).

(** The collection a [refType] names. *)
Definition collection_of (t : CommentRefTypes) (s : Store) : list Article :=
  match t with Post => posts s | Note => notes s end.

(** [.populate('ref')]: a query of its own for the referenced article,
    [null] when it is gone. *)
Definition populate_ref (c : Comment) : Async (option Article) :=
  read (fun s => find_article (ref c) (collection_of (refType c) s)).

(** Schema defaults of a new comment: no children, index 0, Unread. *)
Definition new_comment (id : ObjectId) (r : ObjectId) (t : CommentRefTypes)
    (k : string) (m : PartialComment) : Comment :=
  {| _id := id; ref := r; refType := t; parent := o_parent m;
     children := default [] (o_children m);
     commentsIndex := default 0 (o_commentsIndex m);
     key := k;
     state := default Unread (o_state m);
     author := o_author m; text := o_text m; mail := o_mail m;
     url := o_url m; ip := o_ip m |}.

(** Modelled from the spec: [createNew(model)] of the base service,
    which is not among the sources: it inserts a document with a
    generated [_id] and returns it.  A model without [ref], [refType] or
    [key] is refused by the document layer. *)
Definition createNew (m : PartialComment) : Async Comment :=
  match o_ref m, o_refType m, o_key m with
  | Some r, Some t, Some k =>
      atomic (fun s =>
        let c := new_comment (nextId s) r t k m in
        (inr c,
         {| comments := comments s ++ [c]; posts := posts s; notes := notes s;
            nextId := N.succ (nextId s); outbox := outbox s |}))
  | _, _, _ => Throw ValidationError
  end.

(** An update document over a comment: [$push] on [children], [$inc] on
    [commentsIndex], and a plain [state] (which the document layer sends
    as [$set]). *)
Record CommentUpdate := mkUpdate {
  push_children : option ObjectId;
  inc_commentsIndex : option Z;
  set_state : option CommentState
}.

Definition apply_update (u : CommentUpdate) (c : Comment) : Comment :=
  {| _id := _id c; ref := ref c; refType := refType c; parent := parent c;
     children :=
       match push_children u with
       | Some x => children c ++ [x]
       | None => children c
       end;
     commentsIndex :=
       match inc_commentsIndex u with
       | Some d => commentsIndex c + d
       | None => commentsIndex c
       end;
     key := key c;
     state := default (state c) (set_state u);
     author := author c; text := text c; mail := mail c; url := url c;
     ip := ip c |}.

(** Apply [f] to the first element satisfying [p]. *)
Fixpoint update_first {A} (p : A -> bool) (f : A -> A) (l : list A) : list A :=
  match l with
  | [] => []
  | x :: l' => if p x then f x :: l' else x :: update_first p f l'
  end.

(** The result of a write: how many documents matched. *)
Record UpdateResult := mkResult { n_matched : Z }.

Definition count_if {A} (p : A -> bool) (l : list A) : Z :=
  Z.of_nat (length (List.filter p l)).

(** [doc.updateOne(update)]: one atomic write against the stored
    document with [doc]'s [_id]; no match is not an error. *)
Definition updateOne (doc : Comment) (u : CommentUpdate) : Async UpdateResult :=
  atomic (fun s =>
    let p := fun c => bool_decide (_id c = _id doc) in
    (inr (mkResult (count_if p (take 1 (List.filter p (comments s))))),
     with_comments (update_first p (apply_update u) (comments s)) s)).

(** ** Query objects *)

(** The values a query compares a path with. *)
Inductive Value :=
| VUndefined
| VBool (b : bool)
| VNum (z : Z)
| VStr (s : string)
| VId (i : ObjectId)
| VIds (l : list ObjectId)
| VDate (d : Date).

#[global] Instance Date_eq_dec : EqDecision Date.
Proof. solve_decision. Defined.

#[global] Instance Value_eq_dec : EqDecision Value.
Proof. solve_decision. Defined.

#[global] Instance Article_eq_dec : EqDecision Article.
Proof. solve_decision. Defined.

(** What a query object holds under one key: a value to equal, a
    [{$gte, $lte}] range, or, under [$or], a list of alternatives. *)
Inductive QCond :=
| QEq (v : Value)
| QRange (gte lte : Date)
| QOr (alts : list (gmap string Value)).

(** A query is a JavaScript object: a finite map from keys to
    conditions.  [{ ...a, ...b }] is [b ∪ a] (the later spread wins). *)
Abbreviation Query := (gmap string QCond).

Definition spread_query (a b : Query) : Query := b ∪ a.

(** A document as the query engine sees it: its paths and their values;
    an unset optional path is absent. *)
Abbreviation Doc := (gmap string Value).

Definition opt_path (k : string) (v : option Value) : list (string * Value) :=
  match v with Some x => [(k, x)] | None => [] end.

Definition comment_doc (c : Comment) : Doc :=
  list_to_map
    ([("_id", VId (_id c)); ("ref", VId (ref c));
      ("refType", VStr (match refType c with Post => "Post" | Note => "Note" end));
      ("children", VIds (children c));
      ("commentsIndex", VNum (commentsIndex c));
      ("key", VStr (key c));
      ("state", VNum (CommentState_code (state c)))]
     ++ opt_path "parent" (VId <$> parent c)
     ++ opt_path "author" (VStr <$> author c)
     ++ opt_path "text" (VStr <$> text c)
     ++ opt_path "mail" (VStr <$> mail c)
     ++ opt_path "url" (VStr <$> url c)
     ++ opt_path "ip" (VStr <$> ip c)).

Definition article_doc (a : Article) : Doc :=
  list_to_map
    ([("_id", VId (a_id a)); ("hide", VBool (hide a));
      ("allowComment", VBool (allowComment a));
      ("created", VDate (created a))]
     ++ opt_path "password" (VStr <$> password a)).

(** [{path: v}]: equality with the stored value; an [undefined] operand
    reaches the server as [null] and matches a path that is unset; an id
    compared with an array path matches when the array holds it. *)
Definition value_matches (q : Value) (stored : option Value) : bool :=
  match q, stored with
  | VUndefined, None => true
  | VUndefined, Some VUndefined => true
  | VId i, Some (VIds l) => bool_decide (i ∈ l)
  | _, Some w => bool_decide (q = w)
  | _, None => false
  end.

Definition alt_matches (d : Doc) (alt : gmap string Value) : bool :=
  bool_decide (map_Forall (fun k v => value_matches v (d !! k) = true) alt).

Definition cond_matches (d : Doc) (k : string) (c : QCond) : bool :=
  match c with
  | QEq v => value_matches v (d !! k)
  | QRange lo hi =>
      match d !! k with
      | Some (VDate x) => date_leb lo x && date_leb x hi
      | _ => false
      end
  | QOr alts => existsb (alt_matches d) alts
  end.

(** A document matches a query when every key's condition holds. *)
Definition matches (q : Query) (d : Doc) : bool :=
  bool_decide (map_Forall (fun k c => cond_matches d k c = true) q).

(** ** Gateway writes selected by a query *)

Record DeleteResult := mkDeleted { deletedCount : Z }.

(** Remove the first element satisfying [p]. *)
Fixpoint delete_first {A} (p : A -> bool) (l : list A) : list A :=
  match l with
  | [] => []
  | x :: l' => if p x then l' else x :: delete_first p l'
  end.

(** [postModel.deleteOne(q)] *)
Definition post_deleteOne (q : Query) : Async DeleteResult :=
  atomic (fun s =>
    let p := fun a => matches q (article_doc a) in
    (inr (mkDeleted (count_if p (take 1 (List.filter p (posts s))))),
     with_posts (delete_first p (posts s)) s)).

(** [commentModel.deleteMany(q)].  The filter is applied as written: a
    key that names no path of a comment is compared like any other, and
    so matches no document. *)
Definition comment_deleteMany (q : Query) : Async DeleteResult :=
  atomic (fun s =>
    let p := fun c => matches q (comment_doc c) in
    (inr (mkDeleted (count_if p (comments s))),
     with_comments (List.filter (fun c => negb (p c)) (comments s)) s)).

(** Modelled from the spec: [updateAsync(q, patch)] of the base service,
    which is not among the sources: a partial update of the first
    document matching [q]; it reports the match count and does not throw
    when nothing matches. *)
Definition updateAsync (q : Query) (u : CommentUpdate) : Async UpdateResult :=
  atomic (fun s =>
    let p := fun c => matches q (comment_doc c) in
    (inr (mkResult (count_if p (take 1 (List.filter p (comments s))))),
     with_comments (update_first p (apply_update u) (comments s)) s)).

(** Modelled from the spec: [findOne(q)] of the base service, which is
    not among the sources: the first document matching [q], or absence;
    never an error. *)
Definition findOne (q : Query) : Async (option Comment) :=
  read (fun s => List.find (fun c => matches q (comment_doc c)) (comments s)).

(** Modelled from the spec: [countDocument(q)] of the base service, which
    is not among the sources: the number of documents matching [q]. *)
Definition countDocument (q : Query) : Async Z :=
  read (fun s => count_if (fun c => matches q (comment_doc c)) (comments s)).

(** [.populate('parent')]: a query of its own for the parent comment,
    [null] when the comment has none or it is gone. *)
Definition populate_parent (c : Comment) : Async (option Comment) :=
  read (fun s =>
    match parent c with
    | Some pid => find_comment pid (comments s)
    | None => None
    end).

(** ** Shared query helpers ([utils/index.ts]) *)

(** [addConditionToSeeHideContent(isMaster)] *)
Definition addConditionToSeeHideContent (isMaster : bool) : Query :=
  if isMaster
  then {[ "$or" := QOr [ {[ "hide" := VBool false ]};
                          {[ "hide" := VBool true ]} ] ]}
  else {[ "hide" := QEq (VBool false); "password" := QEq VUndefined ]}.

(** The year [new Date(year, monthIndex, day)] takes for its first
    argument: 0 to 99 stand for 1900 to 1999. *)
Definition Date_year (year : Z) : Z :=
  if (0 <=? year) && (year <=? 99) then 1900 + year else year.

(** [yearCondition(year)]: nothing for a falsy [year] ([undefined] or
    [0]), otherwise a [created] range from [new Date(year, 1, 1)] to
    [new Date(year + 1, 1, 1)].  Both bounds are midnights; with dates
    kept by the day, the upper one takes in the whole of that first of
    February, of which the source admits the first instant only. *)
Definition yearCondition (year : option Z) : Query :=
  match year with
  | None => ∅
  | Some y =>
      if y =? 0 then ∅
      else {[ "created" := QRange (mkDate (Date_year y) 1 1)
                                  (mkDate (Date_year (y + 1)) 1 1) ]}
  end.

(** ** Numbers of a query string *)

(** The result of arithmetic on DTO numbers.  A DTO number is an
    integer-valued double or [undefined] ([None]); [Finite z] is the
    double whose value is the integer [z], and [Infinity negative] one of
    the two infinities.  The sign of a zero is not kept. *)
Inductive Number := Finite (z : Z) | NaN | Infinity (negative : bool).

Definition ToNumber (v : option Z) : Number :=
  match v with Some z => Finite z | None => NaN end.

(** An integer rounded to 53 significant bits, to nearest and on a tie to
    the even significand: what a double keeps of the exact result of an
    operation.  Integers up to 2^53 in magnitude are kept as they are. *)
Definition round53 (z : Z) : Z :=
  let a := Z.abs z in
  let e := Z.log2 a - 52 in
  if e <=? 0 then z
  else
    let q := a / 2 ^ e in
    let r := a mod 2 ^ e in
    let half := 2 ^ (e - 1) in
    let q' := if r <? half then q
              else if half <? r then q + 1
              else if Z.even q then q
              else q + 1 in
    Z.sgn z * (q' * 2 ^ e).

(** The double an exact integer result becomes: rounded, and an infinity
    once the rounded magnitude reaches 2^1024. *)
Definition nearest_double (z : Z) : Number :=
  let m := round53 z in
  if 2 ^ 1024 <=? Z.abs m then Infinity (m <? 0) else Finite m.

(** [a - b] *)
Definition js_sub (a b : Number) : Number :=
  match a, b with
  | Finite x, Finite y => nearest_double (x - y)
  | Infinity s, Finite _ => Infinity s
  | Finite _, Infinity s => Infinity (negb s)
  | Infinity s, Infinity t => if Bool.eqb s t then NaN else Infinity s
  | _, _ => NaN
  end.

(** [a * b] *)
Definition js_mul (a b : Number) : Number :=
  match a, b with
  | Finite x, Finite y => nearest_double (x * y)
  | Infinity s, Finite y | Finite y, Infinity s =>
      if y =? 0 then NaN else Infinity (xorb s (y <? 0))
  | Infinity s, Infinity t => Infinity (xorb s t)
  | _, _ => NaN
  end.

(** [~~x]: [ToInt32], the value modulo 2^32 read as a signed 32-bit
    integer, with [NaN] and the infinities going to 0. *)
Definition ToInt32 (x : Number) : Z :=
  match x with
  | NaN | Infinity _ => 0
  | Finite z => (z + 2 ^ 31) mod 2 ^ 32 - 2 ^ 31
  end.

(** ** Pager DTOs and their validators *)

(** [PagerDto] ([base/dto/pager.dto]) after transformation. *)
Record PagerDto := mkPagerDto {
  pd_page : option Z;
  pd_size : option Z;
  pd_select : option string
}.

(** [Pager] ([comments/dto/pager.dto]) after [parseInt]. *)
Record Pager := mkPager {
  page : option Z;
  size : option Z;
  pager_state : option Z
}.

(** The query DTO of the post and note listings. *)
Record ListQuery := mkListQuery {
  lq_size : option Z;
  lq_page : option Z;
  lq_select : option string;
  lq_year : option Z;
  lq_sortBy : option string;
  lq_sortOrder : option Z
}.

(** A constraint violation reported by the validator: the property and
    the decorator that failed. *)
Inductive Violation :=
| ViolatesMin (property : string) (bound : Z)
| ViolatesMax (property : string) (bound : Z)
| ViolatesIsEnum (property : string).

(** [@IsOptional()] skips the other decorators of an absent property. *)
Definition check_optional (v : option Z) (checks : Z -> list Violation)
    : list Violation :=
  match v with None => [] | Some z => checks z end.

Definition Min (property : string) (bound z : Z) : list Violation :=
  if z <? bound then [ViolatesMin property bound] else [].

Definition Max (property : string) (bound z : Z) : list Violation :=
  if bound <? z then [ViolatesMax property bound] else [].

Definition IsEnum (property : string) (allowed : list Z) (z : Z)
    : list Violation :=
  if bool_decide (z ∈ allowed) then [] else [ViolatesIsEnum property].

(** The decorators of class [Pager], property by property:
    [page]: IsOptional, Min(1); [size]: IsOptional, Max(50), Min(1);
    [state]: IsEnum([0, 1, 2]) (an absent [state] is not an allowed
    value). *)
Definition validate_Pager (q : Pager) : list Violation :=
  check_optional (page q) (Min "page" 1)
  ++ check_optional (size q) (fun z => Max "size" 50 z ++ Min "size" 1 z)
  ++ match pager_state q with
     | Some z => IsEnum "state" [0; 1; 2] z
     | None => [ViolatesIsEnum "state"]
     end.

(** A request reaches its handler only when the DTO has no violation;
    otherwise the validation pipe answers with the violations. *)
Definition through_validation {Q A} (validate : Q -> list Violation)
    (handler : Q -> A) (q : Q) : list Violation + A :=
  match validate q with
  | [] => inr (handler q)
  | v :: vs => inl (v :: vs)
  end.

(** ** Listing handlers: the query they pass to the gateway *)

(** The options object of [findWithPaginator]. *)
Record PageRequest := mkPageRequest {
  limit : Number;
  skip : Number;
  select : option string;
  sort : list (string * Z);
  populate : option string
}.

(** A call [service.findWithPaginator(condition, options)]. *)
Record FindWithPaginator := mkFind {
  condition : Query;
  options : PageRequest
}.

(** [sortBy ? { [sortBy]: sortOrder || -1 } : { created: -1 }] *)
Definition sort_option (sortBy : option string) (sortOrder : option Z)
    : list (string * Z) :=
  match sortBy with
  | Some f =>
      if bool_decide (f = "") then [("created", -1)]
      else [(f, match sortOrder with
                | Some o => if o =? 0 then -1 else o
                | None => -1
                end)]
  | None => [("created", -1)]
  end.

(** ** Services *)

(** The collaborators of the comments service whose code is not among
    the sources: whether [ValidAuthorName] accepts an author name (it
    throws otherwise) and the verdict of the spam check. *)
Record Collaborators := mkCollaborators {
  accepts_author : option string -> bool;
  checkSpam : Comment -> bool
}.

Module CommentsService.
Section WithCollaborators.

Context (svc : Collaborators).

(** [ValidAuthorName(author)]: returns, or throws on a rejected name. *)
Definition ValidAuthorName (author : option string) : Async unit :=
  atomic (fun s =>
    if accepts_author svc author then (inr tt, s)
    else (inl BadRequestException, s)).

(** Modelled from the spec: [allowComment(id, refType)], the
    allow-comment predicate of the target; absence of the target is
    reported by [createComment], not here. *)
Definition allowComment (id : ObjectId) (type : CommentRefTypes)
    : Async bool :=
  read (fun s =>
    match find_article id (collection_of type s) with
    | Some a => allowComment a
    | None => true
    end).

(** Modelled from the spec: [createComment(id, refType, doc)], which
    is not among the sources.  It fails with [CannotFindException]
    when the target is absent; the new comment is the root of a thread:
    its [key] is its own generated id and it has no [parent].  The
    allow-comment gate is the controller's: it calls [allowComment]
    itself before this method and exempts the master, which a refusal
    in here would undo. *)
Definition createComment (id : ObjectId) (type : CommentRefTypes)
    (doc : PartialComment) : Async Comment :=
  target <- await read (fun s => find_article id (collection_of type s)) ;;
  match target with
  | None => Throw CannotFindException
  | Some _ =>
      atomic (fun s =>
        let c :=
          {| _id := nextId s; ref := id; refType := type; parent := None;
             children := default [] (o_children doc);
             commentsIndex := default 0 (o_commentsIndex doc);
             key := oid_string (nextId s);
             state := default Unread (o_state doc);
             author := o_author doc; text := o_text doc;
             mail := o_mail doc; url := o_url doc; ip := o_ip doc |} in
        (inr c,
         {| comments := comments s ++ [c]; posts := posts s;
            notes := notes s; nextId := N.succ (nextId s);
            outbox := outbox s |}))
  end.

End WithCollaborators.
End CommentsService.

Module PostsService.

(** [deletePost(id)]: deletes the post, then the comments matching
    [{ pid: id }]; returns the result of the first delete. *)
Definition deletePost (id : ObjectId) : Async DeleteResult :=
  r <- await post_deleteOne {[ "_id" := QEq (VId id) ]} ;;
  await comment_deleteMany {[ "pid" := QEq (VId id) ]} ;;
  Return r.

End PostsService.

(** ** Controllers *)

(** [Master], as the comments controller imports it from
    [guest.decorator], is the parameter-decorator factory: a function,
    hence a truthy value wherever it is used as a condition. *)
Definition Master_truthy : bool := true.

(** The authenticated user of the master-only routes. *)
Record User := mkUser { name : string; user_mail : string; user_url : string }.

Record ReplyResponse := mkReply { message : string }.

(** [{ parent, ref, refType }], the leading properties of a reply's
    model. *)
Definition reply_head (parent : Comment) (target : Article) : PartialComment :=
  {| o_parent := Some (_id parent);
     o_ref := Some (a_id target);
     o_refType := Some (refType parent);
     o_children := None; o_commentsIndex := None; o_key := None;
     o_state := None; o_author := None; o_text := None; o_mail := None;
     o_url := None; o_ip := None |}.

(** [{ key }] *)
Definition key_field (key : string) : PartialComment :=
  {| o_parent := None; o_ref := None; o_refType := None; o_children := None;
     o_commentsIndex := None; o_key := Some key; o_state := None;
     o_author := None; o_text := None; o_mail := None; o_url := None;
     o_ip := None |}.

Module CommentsController.
Section WithCollaborators.

Context (svc : Collaborators).

(** [getRecentlyComments]: the argument of [commentService.getComments],
    with the defaults [size = 10], [page = 1], [state = 0]. *)
Definition getRecentlyComments (query : Pager) : Pager :=
  {| size := Some (default 10 (size query));
     page := Some (default 1 (page query));
     pager_state := Some (default 0 (pager_state query)) |}.

(** [getCommentsByRefId], with the destructuring defaults [page = 1]
    and [size = 10]. *)
Definition getCommentsByRefId (id : ObjectId) (query : PagerDto)
    : FindWithPaginator :=
  let page := default 1 (pd_page query) in
  let size := default 10 (pd_size query) in
  mkFind
    {[ "parent" := QEq VUndefined; "ref" := QEq (VId id);
       "$or" := QOr [ {[ "state" := VNum 0 ]}; {[ "state" := VNum 1 ]} ] ]}
    {| limit := Finite size;
       skip := js_mul (js_sub (Finite page) (Finite 1)) (Finite size);
       select := pd_select query;
       sort := [("created", -1)];
       populate := None |}.

(** [comment]: POST /comments/:id.  The result is the document as
    [createComment] hands it over, which is its content when the handler
    returns; the handler answers with the object itself, on which the
    promise below goes on working. *)
Definition comment (id : ObjectId) (body : PartialComment)
    (author : option string) (isMaster : bool) (ipLocation : IpRecord)
    (ref : option CommentRefTypes) : Async Comment :=
  await (if negb isMaster
         then CommentsService.ValidAuthorName svc author
         else Return tt) ;;
  allowed <- await CommentsService.allowComment id (default Post ref) ;;
  if negb allowed && negb Master_truthy
  then Throw (ForbiddenException "主人禁止了评论")
  else
    let model := spread body (ipLocation_fields ipLocation) in
    comment <- await
      CommentsService.createComment id (default Post ref) model ;;
    Return comment.

(** The promise [comment] starts and does not await: a comment the
    spam check flags is saved as Junk; otherwise a guest's comment is
    mailed to the owner and broadcast. *)
Definition comment_detached (isMaster : bool) (comment : Comment)
    : Async unit :=
  if checkSpam svc comment
  then await updateOne comment (mkUpdate None None (Some Junk)) ;; Return tt
  else if negb isMaster
  then await emit (SendEmail (_id comment) Owner) ;;
       emit (Broadcast_COMMENT_CREATE (_id comment))
  else Return tt.

(** [replyByCid]: POST /comments/reply/:id *)
Definition replyByCid (id : ObjectId) (body : PartialComment)
    (author : option string) (isMaster : bool) (ipLocation : IpRecord)
    : Async ReplyResponse :=
  await (if negb isMaster
         then CommentsService.ValidAuthorName svc author
         else Return tt) ;;
  found <- await findById id ;;
  match found with
  | None => Throw CannotFindException
  | Some parent =>
      populated <- await populate_ref parent ;;
      let commentIndex := commentsIndex parent in
      let key := key parent +:+ "#" +:+ pretty commentIndex in
      match populated with
      | None => Throw TypeError
      | Some target =>
          let model :=
            spread
              (spread (spread (reply_head parent target) body)
                      (ipLocation_fields ipLocation))
              (key_field key) in
          comment <- await createNew model ;;
          await updateOne parent
            {| push_children := Some (_id comment);
               inc_commentsIndex := Some 1;
               set_state :=
                 Some (if bool_decide (state comment = Read)
                          && negb (bool_decide (state parent = Read))
                       then Read else state parent) |} ;;
          await (if isMaster
                 then emit (SendEmail (_id comment) Guest)
                 else await emit (SendEmail (_id comment) Owner) ;;
                      emit (Broadcast_COMMENT_CREATE (_id comment))) ;;
          Return (mkReply "回复成功!")
      end
  end.

(** The model the master-only routes build from the logged-in user:
    [{ author: name, ...body, mail, url, state: CommentState.Read }]. *)
Definition master_model (user : User) (body : PartialComment)
    : PartialComment :=
  spread
    (spread
       {| o_parent := None; o_ref := None; o_refType := None;
          o_children := None; o_commentsIndex := None; o_key := None;
          o_state := None; o_author := Some (name user); o_text := None;
          o_mail := None; o_url := None; o_ip := None |}
       body)
    {| o_parent := None; o_ref := None; o_refType := None;
       o_children := None; o_commentsIndex := None; o_key := None;
       o_state := Some Read; o_author := None; o_text := None;
       o_mail := Some (user_mail user); o_url := Some (user_url user);
       o_ip := None |}.

(** [commentByMaster] *)
Definition commentByMaster (user : User) (id : ObjectId)
    (body : PartialComment) (ipLocation : IpRecord)
    (ref : option CommentRefTypes) : Async Comment :=
  comment id (master_model user body) None true ipLocation ref.

(** [replyByMaster] *)
Definition replyByMaster (user : User) (id : ObjectId)
    (body : PartialComment) (ipLocation : IpRecord) : Async ReplyResponse :=
  replyByCid id (master_model user body) None true ipLocation.

(** [modifyCommentState]: PATCH /comments/:id *)
Definition modifyCommentState (id : ObjectId) (state : CommentState)
    : Async UpdateResult :=
  catch_rethrow
    (updateAsync {[ "_id" := QEq (VId id) ]} (mkUpdate None None (Some state)))
    CannotFindException.

(** A comment with its [parent] path populated. *)
Record WithParent := mkWithParent {
  the_comment : Comment;
  parent_doc : option Comment
}.

(** [getComments]: GET /comments/:id *)
Definition getComments (id : ObjectId) : Async WithParent :=
  found <- await findOne {[ "_id" := QEq (VId id) ]} ;;
  match found with
  | None => Throw CannotFindException
  | Some data =>
      p <- await populate_parent data ;;
      Return (mkWithParent data p)
  end.

End WithCollaborators.
End CommentsController.

(** The comments controller of the older source tree
    ([src/shared/comments/comments.controller.ts]). *)
Module LegacyCommentsController.
Section WithCollaborators.

Context (svc : Collaborators).

(** [getCommentsByRefId] *)
Definition getCommentsByRefId (id : ObjectId) (query : PagerDto)
    : FindWithPaginator :=
  let page := default 1 (pd_page query) in
  let size := default 10 (pd_size query) in
  mkFind
    {[ "parent" := QEq VUndefined; "ref" := QEq (VId id) ]}
    {| limit := Finite size;
       skip := js_mul (js_sub (Finite page) (Finite 1)) (Finite size);
       select := pd_select query;
       sort := [("created", -1)];
       populate := None |}.

(** [comment]: any failure of [createComment] is answered with
    [CannotFindException]. *)
Definition comment (id : ObjectId) (body : PartialComment)
    (author : option string) (isMaster : bool) (ipLocation : IpRecord)
    (ref : option CommentRefTypes) : Async Comment :=
  await (if negb isMaster
         then CommentsService.ValidAuthorName svc author
         else Return tt) ;;
  let model := spread body (ipLocation_fields ipLocation) in
  catch_rethrow
    (comment <- await
       CommentsService.createComment id (default Post ref) model ;;
     Return comment)
    CannotFindException.

(** [replyByCid] *)
Definition replyByCid (id : ObjectId) (body : PartialComment)
    (author : option string) (isMaster : bool) (ipLocation : IpRecord)
    : Async ReplyResponse :=
  await (if negb isMaster
         then CommentsService.ValidAuthorName svc author
         else Return tt) ;;
  found <- await findById id ;;
  match found with
  | None => Throw CannotFindException
  | Some parent =>
      populated <- await populate_ref parent ;;
      let commentIndex := commentsIndex parent in
      let key := key parent +:+ "#" +:+ pretty (commentIndex + 1) in
      match populated with
      | None => Throw TypeError
      | Some target =>
          let model :=
            spread
              (spread (spread (reply_head parent target) body)
                      (ipLocation_fields ipLocation))
              (key_field key) in
          res <- await createNew model ;;
          await updateOne parent
            {| push_children := Some (_id res);
               inc_commentsIndex := Some 1;
               set_state := None |} ;;
          Return (mkReply "回复成功!")
      end
  end.

(** [modifyCommentState]: PUT /comments/:id *)
Definition modifyCommentState (id : ObjectId) (state : CommentState)
    : Async UpdateResult :=
  catch_rethrow
    (updateAsync {[ "_id" := QEq (VId id) ]} (mkUpdate None None (Some state)))
    CannotFindException.

(** The answer of [getCommentsInfo]. *)
Record CommentsInfo := mkInfo { passed : Z; gomi : Z; needChecked : Z }.

(** [getCommentsInfo]: GET /comments/info, the number of comments per
    moderation state. *)
Definition getCommentsInfo : Async CommentsInfo :=
  passed <- await countDocument {[ "state" := QEq (VNum 1) ]} ;;
  gomi <- await countDocument {[ "state" := QEq (VNum 2) ]} ;;
  needChecked <- await countDocument {[ "state" := QEq (VNum 0) ]} ;;
  Return (mkInfo passed gomi needChecked).

End WithCollaborators.
End LegacyCommentsController.

Module PostsController.

(** [getAll]: GET /posts *)
Definition getAll (isMaster : bool) (query : ListQuery) : FindWithPaginator :=
  let condition :=
    spread_query (addConditionToSeeHideContent isMaster)
                 (yearCondition (lq_year query)) in
  mkFind condition
    {| limit := ToNumber (lq_size query);
       skip := js_mul (js_sub (ToNumber (lq_page query)) (Finite 1))
                      (ToNumber (lq_size query));
       select := lq_select query;
       sort := sort_option (lq_sortBy query) (lq_sortOrder query);
       populate := Some "category" |}.

(** [deletePost]: DELETE /posts/:id *)
Definition deletePost (id : ObjectId) : Async string :=
  await PostsService.deletePost id ;;
  await emit (Broadcast_POST_DELETE id) ;;
  Return "OK".

End PostsController.

Module NotesController.

(** [getNotes]: GET /notes *)
Definition getNotes (isMaster : bool) (query : ListQuery) : FindWithPaginator :=
  let condition :=
    spread_query (addConditionToSeeHideContent isMaster)
                 (yearCondition (lq_year query)) in
  mkFind condition
    {| limit := ToNumber (lq_size query);
       skip := js_mul (js_sub (ToNumber (lq_page query)) (Finite 1))
                      (ToNumber (lq_size query));
       select := lq_select query;
       sort := sort_option (lq_sortBy query) (lq_sortOrder query);
       populate := None |}.

(** Modelled from the spec: [findOne(q)] of the base service on the note
    collection, which is not among the sources: the first document
    matching [q], or absence; never an error. *)
Definition findOne (q : Query) : Async (option Article) :=
  read (fun s => List.find (fun a => matches q (article_doc a)) (notes s)).

(** The strict comparison of two dates. *)
Definition date_ltb (a b : Date) : bool := negb (date_leb b a).

(** The [created] condition of the neighbour queries:
    [{ $gt: d }] or [{ $lt: d }]. *)
Inductive CreatedBound := created_gt (d : Date) | created_lt (d : Date).

(** A note under [{ ...condition, created: bound }]: the later
    [created] key replaces one of the condition. *)
Definition bounded_matches (condition : Query) (bound : CreatedBound)
    (a : Article) : bool :=
  matches (delete "created" condition) (article_doc a)
  && match bound with
     | created_gt d => date_ltb d (created a)
     | created_lt d => date_ltb (created a) d
     end.

(** The first document in the order [.sort({ created: 1 })] (ascending)
    or [.sort({ created: -1 })]; among documents of the same date the one
    stored first. *)
Definition first_by_created (ascending : bool) (l : list Article)
    : option Article :=
  foldl (fun best a =>
           match best with
           | None => Some a
           | Some b =>
               if (if ascending then date_ltb (created a) (created b)
                   else date_ltb (created b) (created a))
               then Some a else Some b
           end) None l.

(** Modelled from the spec:
    [findOne({ ...condition, created: bound }).sort({ created })], the
    base service's [findOne] with the document layer's [sort]: the first
    matching document in that order, or absence. *)
Definition findOne_sorted (condition : Query) (bound : CreatedBound)
    (ascending : bool) : Async (option Article) :=
  read (fun s =>
    first_by_created ascending
      (List.filter (bounded_matches condition bound) (notes s))).

(** A document read without [+password]: the path is not selected. *)
Definition without_password (a : Article) : Article :=
  {| a_id := a_id a; hide := hide a; password := None;
     allowComment := allowComment a; created := created a |}.

(** The answer of [getOneNote]. *)
Record OneNote := mkOneNote {
  data : Article;
  next : option Article;
  prev : option Article
}.

Section WithNoteService.

(** [noteService.checkPasswordToAccess(note, password)], whose code is not
    among the sources. *)
Context (checkPasswordToAccess : Article -> option string -> bool).

(** [getOneNote]: GET /notes/:id.  The unawaited call to
    [shouldAddReadCount], a method of the note service that is not among
    the sources, plays no part in the answer and is left out. *)
Definition getOneNote (id : ObjectId) (isMaster : bool)
    (password : option string) : Async OneNote :=
  let condition := addConditionToSeeHideContent isMaster in
  current <- await
    findOne (spread_query {[ "_id" := QEq (VId id) ]} condition) ;;
  match current with
  | None => Throw CannotFindException
  | Some current =>
      if negb (checkPasswordToAccess current password) && negb isMaster
      then Throw (ForbiddenException "不要偷看人家的小心思啦~")
      else
        prev <- await
          findOne_sorted condition (created_gt (created current)) true ;;
        next <- await
          findOne_sorted condition (created_lt (created current)) false ;;
        Return {| data := current;
                  next := without_password <$> next;
                  prev := without_password <$> prev |}
  end.

End WithNoteService.

(** [a] is not older than [b]: the order of [sort({ created: -1 })]
    and of the comparator [(a, b) => b.created - a.created]. *)
Definition not_older (a b : Article) : Prop :=
  date_leb (created b) (created a) = true.

#[global] Instance not_older_dec : RelDecision not_older.
Proof. intros a b. unfold not_older. apply _. Defined.




(** The answers of [likeNote]: ['OK'], or status 422. *)
Inductive LikeAnswer := Like_OK | Like_422.

(** [likeNote]: GET /notes/like/:id, as a function of the note
    service's verdict ([accepted]: the like was recorded) and of the
    [liked] entry of the caller's session; it yields the answer and the
    session entry afterwards.  Reading [liked.includes] of an absent entry
    would be a [TypeError]. *)
Definition likeNote (accepted : bool) (liked : option (list ObjectId))
    (id : ObjectId) : Exception + LikeAnswer * option (list ObjectId) :=
  let isLiked := negb accepted in
  if negb (bool_decide (is_Some liked)) && negb isLiked
  then inr (Like_OK, Some [id])
  else
    if isLiked then inr (Like_422, liked)
    else
      match liked with
      | None => inl TypeError
      | Some l =>
          if bool_decide (id ∈ l) then inr (Like_422, liked)
          else inr (Like_OK, Some (l ++ [id]))
      end.

End NotesController.

Module AnalyzeController.

(** The window [getAnalyze], [getAnalyzeToday] and [getAnalyzeWeek]
    pass to [getRangeAnalyzeData], with the defaults [page = 1] and
    [size = 50]: [{ limit: ~~size, skip: (~~page - 1) * ~~size }].  The
    two factors are 32-bit integers, so the difference is exact and the
    product, below 2^63 in magnitude, is rounded but never infinite. *)
Definition window (query : PagerDto) : Z * Z :=
  let page := Finite (default 1 (pd_page query)) in
  let size := Finite (default 50 (pd_size query)) in
  (ToInt32 size, round53 ((ToInt32 page - 1) * ToInt32 size)).

End AnalyzeController.

(** ** Helpers on numbers and strings ([utils/index.ts], [utils/ip.ts]) *)

Module Utils.



(** [a || b] on values that are a string or [undefined]: the empty
    string is falsy. *)
Definition truthy (v : option string) : bool :=
  match v with
  | Some s => negb (bool_decide (s = ""))
  | None => false
  end.

Definition js_or (a b : option string) : option string :=
  if truthy a then a else b.

(** [s.split(c)] for a separator of one character: the pieces between
    the separators, at least one. *)
Fixpoint split (c : ascii) (s : string) : list string :=
  match s with
  | EmptyString => [EmptyString]
  | String a s' =>
      if bool_decide (a = c) then EmptyString :: split c s'
      else match split c s' with
           | piece :: pieces => String a piece :: pieces
           | [] => [String a EmptyString]
           end
  end.

(** What [getIp] reads of a request: the [x-forwarded-for] header,
    [request.ip], and the remote addresses of the raw connection and
    socket. *)
Record FastifyRequest := mkRequest {
  x_forwarded_for : option string;
  request_ip : option string;
  connection_remoteAddress : option string;
  socket_remoteAddress : option string
}.

(** [getIp(request)] *)
Definition getIp (request : FastifyRequest) : option string :=
  let ip :=
    js_or (js_or (js_or (js_or (x_forwarded_for request) (request_ip request))
                        (connection_remoteAddress request))
                 (socket_remoteAddress request))
          None in
  match ip with
  | Some s =>
      if truthy ip && bool_decide (0 < length (split ","%char s))%nat
      then split ","%char s !! 0%nat
      else ip
  | None => ip
  end.

(** [s.repeat(n)] *)
Fixpoint repeat_string (s : string) (n : nat) : string :=
  match n with
  | O => EmptyString
  | S n' => s +:+ repeat_string s n'
  end.

(** [process.env.SECRET || 'dasfasdxzxczfs'] of the fastify adapter. *)
Definition SECRET (env : option string) : string :=
  default "dasfasdxzxczfs" (js_or env (Some "dasfasdxzxczfs")).

(** The [salt] option of the session plugin:
    [SECRET.repeat(16).slice(0, 16) || 'mq9hDxBVDbspDR6n']. *)
Definition session_salt (env : option string) : string :=
  default "mq9hDxBVDbspDR6n"
    (js_or (Some (String.substring 0 16 (repeat_string (SECRET env) 16)))
           (Some "mq9hDxBVDbspDR6n")).

End Utils.

(** ** The chart data of the analyze controller ([getFragment]) *)

Module Analyze.

(** The counts of one hour, as [getIpAndPvAggregate('day', true)] keys
    them by the two-digit hour, and of one day, as
    [getIpAndPvAggregate('all')] lists them. *)
Record HourStat := mkHourStat { hour_ip : Z; hour_pv : Z }.

Record DayStat := mkDayStat { date : string; day_ip : Z; day_pv : Z }.

(** A point of a chart: [{ hour | day | date, key, value }]; [axis] is
    the name of the first property. *)
Record Point := mkPoint {
  axis : string;
  label : string;
  point_key : string;
  value : Z
}.

Record Fragment := mkFragment {
  today : list Point;
  weeks : list Point;
  months : list Point
}.

(** [s.padStart(n, c)] *)
Definition padStart (n : nat) (c : ascii) (s : string) : string :=
  Utils.repeat_string (String c EmptyString) (n - String.length s) +:+ s.

(** [l.join(sep)] *)
Fixpoint join (sep : string) (l : list string) : string :=
  match l with
  | [] => EmptyString
  | [s] => s
  | s :: l' => s +:+ sep +:+ join sep l'
  end.

(** [a.slice(from, to)] on an array, for indices within it or beyond
    its end. *)
Definition slice {A} (from to : nat) (a : list A) : list A :=
  take (to - from) (drop from a).

(** The names of the days of the week, from Sunday. *)
Definition day_names : list string :=
  ["日"; "一"; "二"; "三"; "四"; "五"; "六"].

Section WithClock.

(** [dayjs(date).get('day')], the day of the week of a date string. *)
Context (day_of_week : string -> Z).

(** The two points of an hour. *)
Definition hour_points (day : gmap string HourStat) (nowHour : Z) (i : nat)
    : list Point :=
  let hour := if bool_decide (Z.of_nat i = nowHour) then "现在"
              else pretty i +:+ "时" in
  let stat := day !! padStart 2 "0" (pretty i) in
  [ mkPoint "hour" hour "ip" (default 0 (hour_ip <$> stat));
    mkPoint "hour" hour "pv" (default 0 (hour_pv <$> stat)) ].

Definition week_points (item : DayStat) : list Point :=
  let d := day_of_week (date item) in
  let name :=
    if bool_decide (0 <= d)
    then default "undefined" (day_names !! Z.to_nat d)
    else "undefined" in
  let date := "周" +:+ name in
  [ mkPoint "day" date "ip" (day_ip item);
    mkPoint "day" date "pv" (day_pv item) ].

Definition month_points (item : DayStat) : list Point :=
  let date := join "-" (slice 1 3 (Utils.split "-" (date item))) in
  [ mkPoint "date" date "ip" (day_ip item);
    mkPoint "date" date "pv" (day_pv item) ].

(** [getFragment], as a function of what the service and the clock
    return: the hourly counts of the day, the daily counts (latest
    first) and the current hour. *)
Definition getFragment (day : gmap string HourStat) (all : list DayStat)
    (nowHour : Z) : Fragment :=
  let dayData := hour_points day nowHour <$> seq 0 24 in
  let weekData := reverse (week_points <$> slice 0 7 all) in
  let monthData := reverse (month_points <$> slice 0 30 all) in
  {| today := concat dayData;
     weeks := concat weekData;
     months := concat monthData |}.

End WithClock.

End Analyze.

(** ** The timeline of the aggregate controller ([getTimeline]) *)

Module AggregateController.

(** [TimelineType]; a query without [type], or with another value, takes
    the [default] branch. *)
Inductive TimelineType := TimelinePost | TimelineNote.

(** The direction of [sort({ created: sort })]: 1 or -1. *)
Inductive Sort := Ascending | Descending.

Record Category := mkCategory { category_slug : string }.

(** A post and a note as the two queries read them: the paths the
    conditions filter on, and the paths the handler picks or selects.
    [post_category] is the populated [category], [null] when the category
    is gone. *)
Record PostItem := mkPostItem {
  post : Article;
  post_title : string;
  post_slug : string;
  post_category : option Category;
  post_summary : option string;
  post_text : string
}.

Record NoteItem := mkNoteItem {
  note : Article;
  nid : Z;
  note_title : string;
  weather : option string;
  mood : option string
}.

Record PostEntry := mkPostEntry {
  entry_id : ObjectId;
  entry_title : string;
  entry_slug : string;
  entry_category : Category;
  entry_summary : string;
  entry_url : string
}.

Record NoteEntry := mkNoteEntry {
  note_entry_id : ObjectId;
  note_entry_nid : Z;
  note_entry_title : string;
  note_entry_weather : option string;
  note_entry_mood : option string
}.

Record TimelineData := mkTimelineData {
  data_notes : list NoteEntry;
  data_posts : list PostEntry
}.

(** The two collections the handler reads. *)
Record World := mkWorld {
  postModel : list PostItem;
  noteModel : list NoteItem
}.

(** The order of [sort({ created: sort })] on items that carry their
    filter paths under [doc]. *)
Definition by_created {A} (doc : A -> Article) (sort : Sort) (x y : A)
    : Prop :=
  match sort with
  | Ascending => date_leb (created (doc x)) (created (doc y)) = true
  | Descending => date_leb (created (doc y)) (created (doc x)) = true
  end.

#[global] Instance by_created_dec {A} (doc : A -> Article) (sort : Sort) :
  RelDecision (by_created doc sort).
Proof. intros x y. unfold by_created. destruct sort; apply _. Defined.

(** [find(q).sort({ created: sort })] *)
Definition find_sorted {A} (doc : A -> Article) (q : Query) (sort : Sort)
    (l : list A) : list A :=
  merge_sort (by_created doc sort)
    (List.filter (fun x => matches q (article_doc (doc x))) l).

(** [item.summary ?? (item.text.length > 150
       ? item.text.slice(0, 150) + '...' : item.text)] *)
Definition summary_of (item : PostItem) : string :=
  match post_summary item with
  | Some summary => summary
  | None =>
      if (150 <? String.length (post_text item))%nat
      then String.substring 0 150 (post_text item) +:+ "..."
      else post_text item
  end.

Section WithEncoder.

(** [encodeURI] *)
Context (encodeURI : string -> string).

(** The callback of [data.map] in [getPosts]; reading [slug] of a
    [null] category is a [TypeError]. *)
Definition post_entry (item : PostItem) : Exception + PostEntry :=
  match post_category item with
  | None => inl TypeError
  | Some category =>
      inr {| entry_id := a_id (post item);
             entry_title := post_title item;
             entry_slug := post_slug item;
             entry_category := category;
             entry_summary := summary_of item;
             entry_url :=
               encodeURI ("/posts/" +:+ category_slug category +:+ "/"
                          +:+ post_slug item) |}
  end.

(** [l.map(f)] for a callback that may throw: the first exception ends
    the loop. *)
Fixpoint map_throwing {A B} (f : A -> Exception + B) (l : list A)
    : Exception + list B :=
  match l with
  | [] => inr []
  | x :: l' =>
      match f x with
      | inl e => inl e
      | inr y =>
          match map_throwing f l' with
          | inl e => inl e
          | inr ys => inr (y :: ys)
          end
      end
  end.

Definition getPosts (year : option Z) (sort : Sort) (w : World)
    : Exception + list PostEntry :=
  map_throwing post_entry
    (find_sorted post
       (spread_query {[ "hide" := QEq (VBool false) ]} (yearCondition year))
       sort (postModel w)).

Definition getNotes (year : option Z) (sort : Sort) (w : World)
    : list NoteEntry :=
  (fun item => mkNoteEntry (a_id (note item)) (nid item) (note_title item)
                           (weather item) (mood item))
    <$> find_sorted note
          (spread_query {[ "hide" := QEq (VBool false);
                           "password" := QEq VUndefined ]}
                        (yearCondition year))
          sort (noteModel w).

(** [getTimeline]: GET /aggregate/timeline.  The answer is [{ data }],
    or nothing at all ([None]) where the handler leaves through a bare
    [return]. *)
Definition getTimeline (sort : option Sort) (type : option TimelineType)
    (year : option Z) (w : World) : Exception + option TimelineData :=
  let sort := default Ascending sort in
  match type with
  | Some TimelinePost =>
      match getPosts year sort w with
      | inl e => inl e
      | inr _ => inr None
      end
  | Some TimelineNote =>
      let _ := getNotes year sort w in inr None
  | None =>
      let notes := getNotes year sort w in
      match getPosts year sort w with
      | inl e => inl e
      | inr posts => inr (Some (mkTimelineData notes posts))
      end
  end.

End WithEncoder.

End AggregateController.

(** ** The uploads service ([uploads/uploads.service.ts]) *)

Module UploadsService.

(** The exceptions of this service; [TypeError] is the failure of
    destructuring [undefined]. *)
Inductive Error :=
| BadRequestException (message : string)
| CannotFindException
| NotFoundException (message : string)
| TypeError.

(** [FileType] is a numeric enumeration. *)
Abbreviation FileType := Z.

Abbreviation Buffer := (list Byte.byte).

Record Dimensions := mkDimensions { width : Z; height : Z }.

(** One entry of [req.body.file]. *)
Record FileInfo := mkFileInfo {
  data : Buffer;
  filename : string;
  limit : bool
}.

(** What [ValidImage] reads of a request; [body_file] is [req.body.file],
    absent or an array. *)
Record UploadRequest := mkUpload {
  isMultipart : bool;
  body_file : option (list FileInfo)
}.

(** A document of the file collection. *)
Record File := mkFile {
  file_id : ObjectId;
  name : string;
  file_filename : string;
  dimensions : Dimensions;
  mime : string;
  type : FileType
}.

(** A path below the upload root: the directory of a file type and a
    file name. *)
Abbreviation Path := (string * string)%type.

(** The file collection, the disk below the upload root, and the
    counter new [_id]s are drawn from. *)
Record World := mkWorld {
  files : list File;
  disk : gmap Path Buffer;
  nextFileId : ObjectId
}.

Record Saved := mkSaved {
  ext : string;
  saved_mime : string;
  hashFilename : string;
  saved_filename : string
}.

(** [ValidImage(req)] *)
Definition ValidImage (req : UploadRequest) : Error + FileInfo :=
  if negb (isMultipart req)
  then inl (BadRequestException "仅供上传文件!")
  else
    match body_file req with
    | None => inl (BadRequestException "字段必须为 file")
    | Some file =>
        match file !! 0%nat with
        | None => inl (BadRequestException "文件丢失了")
        | Some fileInfo =>
            if limit fileInfo
            then inl (BadRequestException "文件不符合, 大小不得超过 6M")
            else inr fileInfo
        end
    end.

Section WithLibraries.

(** The libraries the service calls: the MD5 digest in hexadecimal,
    [fromBuffer] of [file-type] ([undefined] for data it does not
    recognise), [imageSize] (which throws on data it cannot measure), and
    [plural(getFileType(type))], the directory of a file type.  [IMAGE]
    is [FileType.IMAGE]. *)
Context (md5 : string -> string).
Context (fromBuffer : Buffer -> option (string * string)).
Context (imageSize : Buffer -> option Dimensions).
Context (type_dir : FileType -> string).
Context (IMAGE : FileType).

(** [getType2Path(type)] below the root, joined with a file name. *)
Definition path_of (type : FileType) (name : string) : Path :=
  (type_dir type, name).

(** [model.updateOne({ name }, doc, { upsert: true })]: the first
    document with that name takes the paths of [doc]; without one, a new
    document is inserted. *)
Definition upsert_by_name (hash fname : string) (dims : Dimensions)
    (mime : string) (type : FileType) (w : World) : World :=
  let is_it := fun f => bool_decide (name f = hash) in
  match List.find is_it (files w) with
  | Some _ =>
      {| files :=
           update_first is_it
             (fun f => mkFile (file_id f) hash fname dims mime type)
             (files w);
         disk := disk w; nextFileId := nextFileId w |}
  | None =>
      {| files :=
           files w ++ [mkFile (nextFileId w) hash fname dims mime type];
         disk := disk w; nextFileId := N.succ (nextFileId w) |}
  end.

(** [saveImage(fileInfo, type = FileType.IMAGE)] *)
Definition saveImage (fileInfo : FileInfo) (type : option FileType)
    (w : World) : (Error + Saved) * World :=
  let type := default IMAGE type in
  match fromBuffer (data fileInfo) with
  | None => (inl TypeError, w)
  | Some (ext, mime) =>
      if negb (String.prefix "image" mime)
      then (inl (BadRequestException "仅能存储图片格式"), w)
      else
        let hashFilename := md5 (filename fileInfo) in
        match imageSize (data fileInfo) with
        | None => (inl TypeError, w)
        | Some dimensions =>
            let w1 :=
              upsert_by_name hashFilename (filename fileInfo) dimensions
                             mime type w in
            let path := path_of type hashFilename in
            let w2 :=
              if bool_decide (is_Some (disk w1 !! path)) then w1
              else {| files := files w1;
                      disk := <[path := data fileInfo]> (disk w1);
                      nextFileId := nextFileId w1 |} in
            (inr (mkSaved ext mime hashFilename (filename fileInfo)), w2)
        end
  end.

(** [checkFileExist(_name, type)] *)
Definition checkFileExist (_name : string) (type : FileType) (w : World)
    : (Error + Buffer * string) * World :=
  match List.find (fun f => bool_decide (name f = _name)
                            && bool_decide (UploadsService.type f = type))
                  (files w) with
  | None => (inl CannotFindException, w)
  | Some doc =>
      match disk w !! path_of type (name doc) with
      | Some buffer => (inr (buffer, mime doc), w)
      | None =>
          (inl (NotFoundException "文件已丢失"),
           {| files :=
                delete_first (fun f => bool_decide (file_id f = file_id doc))
                             (files w);
              disk := disk w; nextFileId := nextFileId w |})
      end
  end.

(** [deleteFile(id)] *)
Definition deleteFile (id : ObjectId) (w : World) : (Error + string) * World :=
  match List.find (fun f => bool_decide (file_id f = id)) (files w) with
  | None => (inl CannotFindException, w)
  | Some doc =>
      (inr "OK",
       {| files :=
            delete_first (fun f => bool_decide (file_id f = id)) (files w);
          disk := delete (path_of (type doc) (name doc)) (disk w);
          nextFileId := nextFileId w |})
  end.

(** [uploadImage] of the uploads controller: [ValidImage], then
    [saveImage] with the type of the query, [FileType.IMAGE] by
    default. *)
Definition uploadImage (req : UploadRequest) (type : option FileType)
    (w : World) : (Error + Saved) * World :=
  match ValidImage req with
  | inl e => (inl e, w)
  | inr fileInfo => saveImage fileInfo (Some (default IMAGE type)) w
  end.

End WithLibraries.

End UploadsService.

(** ** Vocabulary of the statements *)

(** The child a reply stores: the model's own properties over the
    schema defaults, under a generated [_id] and the given key. *)
Definition reply_child (parent : Comment) (target : Article)
    (body : PartialComment) (ipLocation : IpRecord) (fresh : ObjectId)
    (key : string) : Comment :=
  {| _id := fresh;
     ref := default (a_id target) (o_ref body);
     refType := default (refType parent) (o_refType body);
     parent := Some (default (_id parent) (o_parent body));
     children := default [] (o_children body);
     commentsIndex := default 0 (o_commentsIndex body);
     key := key;
     state := default Unread (o_state body);
     author := o_author body; text := o_text body; mail := o_mail body;
     url := o_url body; ip := Some (ip_of ipLocation) |}.

(** The update a reply sends to its parent. *)
Definition reply_update (parent child : Comment) : CommentUpdate :=
  {| push_children := Some (_id child);
     inc_commentsIndex := Some 1;
     set_state :=
       Some (if bool_decide (state child = Read)
                && negb (bool_decide (state parent = Read))
             then Read else state parent) |}.

Definition reply_mails (isMaster : bool) (child : ObjectId) : list Effect :=
  if isMaster then [SendEmail child Guest]
  else [SendEmail child Owner; Broadcast_COMMENT_CREATE child].

(** A payload with its [ref] and [refType] properties left out: two
    payloads differ only in those when this makes them equal. *)
Definition without_ref (b : PartialComment) : PartialComment :=
  {| o_parent := o_parent b; o_ref := None; o_refType := None;
     o_children := o_children b; o_commentsIndex := o_commentsIndex b;
     o_key := o_key b; o_state := o_state b; o_author := o_author b;
     o_text := o_text b; o_mail := o_mail b; o_url := o_url b;
     o_ip := o_ip b |}.

(** The comment a handler run stored last. *)
Definition stored_last {A} (r : (Exception + A) * Store) : option Comment :=
  last (comments r.2).

(** The author check lets the request through: it is skipped for the
    master and accepts the name otherwise. *)
Definition passes_author_check (svc : Collaborators) (isMaster : bool)
    (author : option string) : Prop :=
  isMaster = true \/ accepts_author svc author = true.

(** *** Requests to the same parent, running together *)

(** How far a reply has got with respect to its parent: it has not
    stored its child yet, it has stored child [c], or it has also sent
    the parent update for [c]. *)
Inductive Phase := Reading | Stored (c : ObjectId) | Linked (c : ObjectId).

(** The three writes a reply performs, as store transformers. *)
Definition inserted (c : Comment) (s : Store) : Store :=
  {| comments := comments s ++ [c]; posts := posts s; notes := notes s;
     nextId := N.succ (nextId s); outbox := outbox s |}.

Definition parent_updated (pid : ObjectId) (u : CommentUpdate) (s : Store)
    : Store :=
  with_comments
    (update_first (fun d => bool_decide (_id d = pid)) (apply_update u)
                  (comments s)) s.

Definition emitted (e : Effect) (s : Store) : Store :=
  {| comments := comments s; posts := posts s; notes := notes s;
     nextId := nextId s; outbox := outbox s ++ [e] |}.

(** The parent [pid] is in the store, still attached to target [r0] of
    kind [t0], and that target exists. *)
Definition parent_in_place (pid r0 : ObjectId) (t0 : CommentRefTypes)
    (s : Store) : Prop :=
  exists P' tgt,
    find_comment pid (comments s) = Some P'
    /\ ref P' = r0 /\ refType P' = t0
    /\ find_article r0 (collection_of t0 s) = Some tgt.

(** [replies_in p n ph]: the body [p], in phase [ph], is a reply to
    [pid] that completes in exactly [n] more turns, whatever the other
    requests do to the store in between as long as the parent stays in
    place: each turn is a read, the insertion of the child under a
    generated id, the single parent update (push of that child's id and
    increment by one), or a mail or broadcast after it, in that order. *)
Fixpoint replies_in {A} (pid r0 : ObjectId) (t0 : CommentRefTypes)
    (p : Async A) (n : nat) (ph : Phase) {struct p} : Prop :=
  match p with
  | Return _ => n = 0%nat /\ exists c, ph = Linked c
  | Throw _ => False
  | Await op k =>
      match n with
      | O => False
      | S n' =>
          forall s, parent_in_place pid r0 t0 s ->
            match ph with
            | Reading =>
                (exists x, op s = (inr x, s)
                           /\ replies_in pid r0 t0 (k x) n' Reading)
                \/ (exists x c, op s = (inr x, inserted c s)
                                /\ _id c = nextId s
                                /\ replies_in pid r0 t0 (k x) n'
                                     (Stored (nextId s)))
            | Stored c =>
                exists x u, op s = (inr x, parent_updated pid u s)
                            /\ push_children u = Some c
                            /\ inc_commentsIndex u = Some 1
                            /\ replies_in pid r0 t0 (k x) n' (Linked c)
            | Linked c =>
                exists x e, op s = (inr x, emitted e s)
                            /\ replies_in pid r0 t0 (k x) n' (Linked c)
            end
      end
  end.

(** What a phase has contributed so far. *)
Definition linked_ids (ph : Phase) : list ObjectId :=
  match ph with Linked c => [c] | _ => [] end.

Definition made_ids (ph : Phase) : list ObjectId :=
  match ph with Reading => [] | Stored c | Linked c => [c] end.

(** The state of the store while two replies to [pid] are in phases
    [ph1] and [ph2], relative to the parent's index [n0] and children
    [ch0] and to the id counter [nid0] at the start: the parent is in
    place; its index has grown by one per update sent and its children by
    the ids pushed; the counter has grown by one per child stored; the
    stored children's ids were drawn from the counter, are distinct, and
    name documents of the collection. *)
Definition replies_invariant (pid r0 : ObjectId) (t0 : CommentRefTypes)
    (n0 : Z) (ch0 : list ObjectId) (nid0 : ObjectId)
    (s : Store) (ph1 ph2 : Phase) : Prop :=
  exists P' tgt,
    find_comment pid (comments s) = Some P'
    /\ ref P' = r0 /\ refType P' = t0
    /\ find_article r0 (collection_of t0 s) = Some tgt
    /\ commentsIndex P'
       = n0 + Z.of_nat (length (linked_ids ph1 ++ linked_ids ph2))
    /\ children P' ≡ₚ ch0 ++ linked_ids ph1 ++ linked_ids ph2
    /\ nextId s
       = (nid0 + N.of_nat (length (made_ids ph1 ++ made_ids ph2)))%N
    /\ (forall c, c ∈ made_ids ph1 ++ made_ids ph2 ->
                  (nid0 <= c < nextId s)%N
                  /\ exists d, d ∈ comments s /\ _id d = c)
    /\ NoDup (made_ids ph1 ++ made_ids ph2).

(** The number of turns a reply of the comments controller takes. *)
Definition reply_turns (isMaster : bool) : nat :=
  if isMaster then 5%nat else 7%nat.

Definition legacy_reply_turns (isMaster : bool) : nat :=
  if isMaster then 4%nat else 5%nat.

(** How many turns a schedule gives to request [i]. *)
Definition turns_of (i : nat) (schedule : list nat) : nat :=
  count_occ Nat.eq_dec schedule i.

(** Every id a comment lists as a child was drawn from the counter. *)
Definition children_below_counter (s : Store) : Prop :=
  forall c, c ∈ comments s ->
    Forall (fun i => (i < nextId s)%N) (children c).

(** *** Invariants of the comment collection *)

(** The [_id]s of the comments are pairwise distinct and were all drawn
    from the counter. *)
Definition ids_unique (s : Store) : Prop :=
  NoDup (_id <$> comments s)
  /\ Forall (fun c => (_id c < nextId s)%N) (comments s).

(** Every operation a body awaits keeps [I], whatever it is resumed
    with. *)
Fixpoint keeps {A} (I : Store -> Prop) (p : Async A) : Prop :=
  match p with
  | Await op k => (forall s, I s -> I (op s).2) /\ forall x, keeps I (k x)
  | _ => True
  end.

(** A comment's index counts its children. *)
Definition index_counts_children (s : Store) : Prop :=
  Forall (fun c => commentsIndex c = Z.of_nat (length (children c)))
         (comments s).

(** A payload that brings no [children] and no [commentsIndex] of its
    own, as every payload the DTOs describe. *)
Definition plain_body (b : PartialComment) : Prop :=
  o_children b = None /\ o_commentsIndex b = None.

(** An update that pushes one child and increments by one, or touches
    neither. *)
Definition balanced (u : CommentUpdate) : Prop :=
  (push_children u = None /\ inc_commentsIndex u = None)
  \/ (is_Some (push_children u) /\ inc_commentsIndex u = Some 1).

(** The requests of the comment and post routes that write. *)
Inductive Request :=
| ReqComment (id : ObjectId) (body : PartialComment) (author : option string)
    (isMaster : bool) (ipLocation : IpRecord) (ref : option CommentRefTypes)
| ReqReply (id : ObjectId) (body : PartialComment) (author : option string)
    (isMaster : bool) (ipLocation : IpRecord)
| ReqLegacyComment (id : ObjectId) (body : PartialComment)
    (author : option string) (isMaster : bool) (ipLocation : IpRecord)
    (ref : option CommentRefTypes)
| ReqLegacyReply (id : ObjectId) (body : PartialComment)
    (author : option string) (isMaster : bool) (ipLocation : IpRecord)
| ReqCommentByMaster (user : User) (id : ObjectId) (body : PartialComment)
    (ipLocation : IpRecord) (ref : option CommentRefTypes)
| ReqReplyByMaster (user : User) (id : ObjectId) (body : PartialComment)
    (ipLocation : IpRecord)
| ReqModerate (id : ObjectId) (state : CommentState)
| ReqDeletePost (id : ObjectId).

(** A body that forgets its result. *)
Definition discard {A} (p : Async A) : Async unit :=
  await p ;; Return tt.

(** The handler that serves a request, followed for [comment] by the
    promise it leaves behind. *)
Definition serve (svc : Collaborators) (r : Request) : Async unit :=
  match r with
  | ReqComment id body author isMaster ip ref =>
      c <- await CommentsController.comment svc id body author isMaster ip ref ;;
      CommentsController.comment_detached svc isMaster c
  | ReqReply id body author isMaster ip =>
      discard (CommentsController.replyByCid svc id body author isMaster ip)
  | ReqLegacyComment id body author isMaster ip ref =>
      discard (LegacyCommentsController.comment svc id body author isMaster
                 ip ref)
  | ReqLegacyReply id body author isMaster ip =>
      discard (LegacyCommentsController.replyByCid svc id body author
                 isMaster ip)
  | ReqCommentByMaster user id body ip ref =>
      c <- await CommentsController.commentByMaster svc user id body ip ref ;;
      CommentsController.comment_detached svc true c
  | ReqReplyByMaster user id body ip =>
      discard (CommentsController.replyByMaster svc user id body ip)
  | ReqModerate id state =>
      discard (CommentsController.modifyCommentState id state)
  | ReqDeletePost id => discard (PostsController.deletePost id)
  end.

Definition request_body (r : Request) : option PartialComment :=
  match r with
  | ReqComment _ body _ _ _ _ | ReqReply _ body _ _ _
  | ReqLegacyComment _ body _ _ _ _ | ReqLegacyReply _ body _ _ _
  | ReqCommentByMaster _ _ body _ _ | ReqReplyByMaster _ _ body _ =>
      Some body
  | ReqModerate _ _ | ReqDeletePost _ => None
  end.

Definition plain_request (r : Request) : Prop :=
  match request_body r with Some b => plain_body b | None => True end.

(** The counter of [getCommentsInfo] that stands for a state. *)
Definition state_counter (st : CommentState)
    (i : LegacyCommentsController.CommentsInfo) : Z :=
  match st with
  | Unread => LegacyCommentsController.needChecked i
  | Read => LegacyCommentsController.passed i
  | Junk => LegacyCommentsController.gomi i
  end.

(** The number of stored comments in a state. *)
Definition in_state (st : CommentState) (cs : list Comment) : Z :=
  count_if (fun c => bool_decide (state c = st)) cs.

(** Requests served one after the other, each from call to completion. *)
Definition run_each {A} (ps : list (Async A)) (s : Store) : Store :=
  foldl (fun s p => (run p s).2) s ps.

(** Every stored [_id] was drawn from the counter. *)
Definition ids_below_counter (s : Store) : Prop :=
  Forall (fun c => (_id c < nextId s)%N) (comments s).

(** What distinguishes one reply request from another. *)
Record ReplyArgs := mkReplyArgs {
  ra_body : PartialComment;
  ra_author : option string;
  ra_isMaster : bool;
  ra_ip : IpRecord
}.

Definition reply_with (svc : Collaborators) (id : ObjectId) (a : ReplyArgs)
    : Async ReplyResponse :=
  CommentsController.replyByCid svc id (ra_body a) (ra_author a)
    (ra_isMaster a) (ra_ip a).

(** The key the [i]-th of a row of replies to [P] is stored under. *)
Definition sibling_key (P : Comment) (i : nat) : string :=
  key P +:+ "#" +:+ pretty (commentsIndex P + Z.of_nat i).

(** A comment as [comment.save()] leaves it after [state = Junk]. *)
Definition junked (c : Comment) : Comment :=
  apply_update (mkUpdate None None (Some Junk)) c.

(** The root comment [createComment] stores for a target. *)
Definition root_comment (fresh id : ObjectId) (type : CommentRefTypes)
    (doc : PartialComment) : Comment :=
  {| _id := fresh; ref := id; refType := type; parent := None;
     children := default [] (o_children doc);
     commentsIndex := default 0 (o_commentsIndex doc);
     key := oid_string fresh;
     state := default Unread (o_state doc);
     author := o_author doc; text := o_text doc;
     mail := o_mail doc; url := o_url doc; ip := o_ip doc |}.

(** The turns a reply spends before its first write: the author check
    of a guest, the parent lookup and the lookup of the parent's target. *)
Definition lookup_turns (isMaster : bool) : nat :=
  if isMaster then 2%nat else 3%nat.

(** The first reply looks its parent up, the second then runs from start
    to end, and only then does the first go on. *)
Definition overtaking_schedule (m1 m2 : bool) : list nat :=
  repeat 0%nat (lookup_turns m1) ++ repeat 1%nat (reply_turns m2)
  ++ repeat 0%nat (reply_turns m1 - lookup_turns m1).

(** The text before the first occurrence of a character. *)
Fixpoint before (c : ascii) (s : string) : string :=
  match s with
  | EmptyString => EmptyString
  | String a s' => if bool_decide (a = c) then EmptyString
                   else String a (before c s')
  end.

(** The first truthy value of a sequence. *)
Definition first_truthy (l : list (option string)) : option string :=
  mjoin (List.find Utils.truthy l).

Fixpoint occurs (c : ascii) (s : string) : bool :=
  match s with
  | EmptyString => false
  | String a s' => bool_decide (a = c) || occurs c s'
  end.

(** What [addConditionToSeeHideContent] lets a caller see: everything
    for the master; for a guest what is neither hidden nor protected by a
    password. *)
Definition visible_to (isMaster : bool) (a : Article) : bool :=
  isMaster || negb (hide a) && bool_decide (password a = None).

(** The notes [getOneNote] looks for a neighbour among: those the
    caller may see, created after ([newer]) or before the current one. *)
Definition later_visible (isMaster newer : bool) (current a : Article)
    : bool :=
  visible_to isMaster a
  && (if newer then NotesController.date_ltb (created current) (created a)
      else NotesController.date_ltb (created a) (created current)).

(** The data [fromBuffer] recognises as an image that [imageSize] can
    measure. *)
Definition image_of (fromBuffer : UploadsService.Buffer -> option (string * string))
    (imageSize : UploadsService.Buffer -> option UploadsService.Dimensions)
    (fi : UploadsService.FileInfo) (ext mime : string)
    (dims : UploadsService.Dimensions) : Prop :=
  fromBuffer (UploadsService.data fi) = Some (ext, mime)
  /\ String.prefix "image" mime = true
  /\ imageSize (UploadsService.data fi) = Some dims.

(** A date that lies in the listing of [year] at any time of its day:
    every date when no year is asked for; otherwise, for a year of three
    digits or more, a day from the first of February of that year to the
    end of January of the next. *)
Definition well_within_year (year : option Z) (d : Date) : Prop :=
  match year with
  | None => True
  | Some y =>
      y = 0
      \/ (100 <= y
          /\ ((d_year d = y /\ 1 <= d_month d /\ 1 <= d_day d)
              \/ (d_year d = y + 1 /\ d_month d = 0)))
  end.

(** ** Sample data *)

Module Sample.

(** The author check rejects the owner's name; nothing is spam. *)
Definition svc : Collaborators :=
  mkCollaborators (fun a => negb (bool_decide (a = Some "Innei")))
                  (fun _ => false).

(** A post that does not allow comments. *)
Definition closed_post : Article :=
  mkArticle 1%N false None false (mkDate 2020 5 1).

(** A root comment on that post, written before it was closed. *)
Definition root : Comment :=
  mkComment 2%N 1%N Post None [] 0 "2" Unread
            (Some "A") (Some "hi") None None None.

Definition store : Store := mkStore [root] [closed_post] [] 3%N [].

Definition body_B : PartialComment :=
  mkPartial None None None None None None None
            (Some "B") (Some "yo") None None None.

(** The same body with a [ref] and a [refType] of the client's. *)
Definition body_B_retargeted : PartialComment :=
  mkPartial None (Some 9%N) (Some Note) None None None None
            (Some "B") (Some "yo") None None None.

Definition body_owner_name : PartialComment :=
  mkPartial None None None None None None None
            (Some "Innei") (Some "yo") None None None.

Definition ip : IpRecord := mkIp "203.0.113.7".

(** Five notes: two open ones, one behind a password, one hidden, and a
    later open one. *)
Definition secret_note : Article :=
  mkArticle 11%N false (Some "sesame") true (mkDate 2020 3 1).

Definition diary : Store :=
  mkStore [] []
    [mkArticle 10%N false None true (mkDate 2020 2 1);
     secret_note;
     mkArticle 12%N false None true (mkDate 2020 4 1);
     mkArticle 13%N true None true (mkDate 2020 5 1);
     mkArticle 14%N false None true (mkDate 2020 6 1)]
    15%N [].

End Sample.

(** * Properties *)

(** ** Documents under a query *)

Lemma comment_doc_lookup_pid (c : Comment) : comment_doc c !! "pid" = None.
Proof.
  destruct c as [? ? ? [?|] ? ? ? ? [?|] [?|] [?|] [?|] [?|]];
    vm_compute; reflexivity.
Qed.

Lemma comment_doc_lookup_id (c : Comment) :
  comment_doc c !! "_id" = Some (VId (_id c)).
Proof.
  destruct c as [? ? ? [?|] ? ? ? ? [?|] [?|] [?|] [?|] [?|]]; reflexivity.
Qed.

Lemma article_doc_lookup_id (a : Article) :
  article_doc a !! "_id" = Some (VId (a_id a)).
Proof. destruct a as [? ? [?|] ? ?]; reflexivity. Qed.

Lemma article_doc_lookup_hide (a : Article) :
  article_doc a !! "hide" = Some (VBool (hide a)).
Proof. destruct a as [? ? [?|] ? ?]; reflexivity. Qed.

Lemma article_doc_lookup_password (a : Article) :
  article_doc a !! "password" = VStr <$> password a.
Proof. destruct a as [? ? [?|] ? ?]; reflexivity. Qed.

Lemma matches_singleton (k : string) (c : QCond) (d : Doc) :
  matches {[ k := c ]} d = cond_matches d k c.
Proof.
  unfold matches. destruct (cond_matches d k c) eqn:E.
  - apply bool_decide_eq_true. by apply map_Forall_singleton.
  - apply bool_decide_eq_false. rewrite map_Forall_singleton. congruence.
Qed.

Lemma matches_lookup (q : Query) (d : Doc) (k : string) (c : QCond) :
  matches q d = true -> q !! k = Some c -> cond_matches d k c = true.
Proof.
  unfold matches. rewrite bool_decide_eq_true. intros H Hk.
  exact (map_Forall_lookup_1 _ _ _ _ H Hk).
Qed.

(** [{ pid: id }] selects no comment: a comment has no [pid] path. *)
Lemma pid_query_matches_no_comment (id : ObjectId) (c : Comment) :
  matches {[ "pid" := QEq (VId id) ]} (comment_doc c) = false.
Proof.
  rewrite matches_singleton. simpl. by rewrite comment_doc_lookup_pid.
Qed.

(** [{ _id: id }] selects exactly the documents with that [_id]. *)
Lemma id_query_matches_comment (id : ObjectId) (c : Comment) :
  matches {[ "_id" := QEq (VId id) ]} (comment_doc c)
  = bool_decide (_id c = id).
Proof.
  rewrite matches_singleton. simpl. rewrite comment_doc_lookup_id. simpl.
  apply bool_decide_ext. split; [intros [=]; done | intros ->; done].
Qed.

Lemma id_query_matches_article (id : ObjectId) (a : Article) :
  matches {[ "_id" := QEq (VId id) ]} (article_doc a)
  = bool_decide (a_id a = id).
Proof.
  rewrite matches_singleton. simpl. rewrite article_doc_lookup_id. simpl.
  apply bool_decide_ext. split; [intros [=]; done | intros ->; done].
Qed.

(** ** Lists of documents *)

Lemma update_first_ext {A} (p q : A -> bool) (f : A -> A) (l : list A) :
  (forall x, p x = q x) -> update_first p f l = update_first q f l.
Proof.
  intros E. induction l as [|x l IH]; simpl; [done|].
  rewrite E, IH. done.
Qed.

Lemma delete_first_ext {A} (p q : A -> bool) (l : list A) :
  (forall x, p x = q x) -> delete_first p l = delete_first q l.
Proof.
  intros E. induction l as [|x l IH]; simpl; [done|].
  rewrite E, IH. done.
Qed.

Lemma filter_none {A} (p : A -> bool) (l : list A) :
  (forall x, p x = false) -> List.filter (fun x => negb (p x)) l = l.
Proof.
  intros E. induction l as [|x l IH]; simpl; [done|].
  rewrite E. simpl. by rewrite IH.
Qed.

(** Updating the first document with a given [_id] by a function that
    keeps the [_id]: looking that id up afterwards finds the updated
    document, and other ids are looked up as before. *)
Lemma find_comment_update_first (id : ObjectId) (f : Comment -> Comment)
    (cs : list Comment) :
  (forall c, _id (f c) = _id c) ->
  find_comment id (update_first (fun c => bool_decide (_id c = id)) f cs)
  = f <$> find_comment id cs.
Proof.
  intros Hf. unfold find_comment.
  induction cs as [|c cs IH]; simpl; [done|].
  destruct (bool_decide (_id c = id)) eqn:E; simpl.
  - rewrite Hf, E. done.
  - rewrite E. apply IH.
Qed.

Lemma find_comment_app (id : ObjectId) (cs cs' : list Comment) :
  find_comment id (cs ++ cs')
  = match find_comment id cs with
    | Some c => Some c
    | None => find_comment id cs'
    end.
Proof.
  unfold find_comment. induction cs as [|c cs IH]; simpl; [done|].
  destruct (bool_decide (_id c = id)); [done | apply IH].
Qed.

Lemma find_comment_Some (id : ObjectId) (cs : list Comment) (c : Comment) :
  find_comment id cs = Some c -> _id c = id /\ c ∈ cs.
Proof.
  unfold find_comment. intros H. apply find_some in H as [Hin Hid].
  apply bool_decide_eq_true in Hid. split; [done|].
  by apply list_elem_of_In.
Qed.

Lemma find_article_delete_first (id : ObjectId) (l : list Article) :
  NoDup (a_id <$> l) ->
  find_article id (delete_first (fun a => bool_decide (a_id a = id)) l) = None.
Proof.
  unfold find_article. induction l as [|a l IH]; simpl; [done|].
  intros Hnd. apply NoDup_cons in Hnd as [Hnotin Hnd].
  destruct (bool_decide (a_id a = id)) eqn:E.
  - apply bool_decide_eq_true in E. subst id.
    destruct (List.find _ l) as [b|] eqn:F; [|done].
    apply find_some in F as [Hin Hb]. apply bool_decide_eq_true in Hb.
    exfalso. apply Hnotin. rewrite <- Hb.
    apply list_elem_of_fmap_2. by apply list_elem_of_In.
  - simpl. rewrite E. by apply IH.
Qed.

Lemma apply_update_id (u : CommentUpdate) (c : Comment) :
  _id (apply_update u c) = _id c.
Proof. reflexivity. Qed.

(** ** Pagination windows *)

(** An integer of at most 53 bits, and 2^53 itself, is a double. *)
Lemma round53_exact (z : Z) :
  - 2 ^ 53 <= z <= 2 ^ 53 -> round53 z = z.
Proof.
  intros Hz.
  destruct (decide (Z.abs z = 2 ^ 53)) as [Habs|Hne].
  - assert (z = 2 ^ 53 \/ z = - 2 ^ 53) as [->| ->] by lia; reflexivity.
  - unfold round53.
    destruct (Z.leb_spec (Z.log2 (Z.abs z) - 52) 0) as [_|Hlog]; [done|].
    exfalso.
    destruct (decide (Z.abs z = 0)) as [E|Hpos].
    + rewrite E in Hlog. simpl in Hlog. lia.
    + assert (Hlt : Z.log2 (Z.abs z) < 53).
      { apply Z.log2_lt_pow2; lia. }
      lia.
Qed.

Lemma nearest_double_exact (z : Z) :
  - 2 ^ 53 <= z <= 2 ^ 53 -> nearest_double z = Finite z.
Proof.
  intros Hz. unfold nearest_double. rewrite round53_exact by done.
  destruct (Z.leb_spec (2 ^ 1024) (Z.abs z)) as [Hbig|_]; [|done].
  exfalso. assert (2 ^ 53 < 2 ^ 1024) by (apply Z.pow_lt_mono_r; lia). lia.
Qed.

(** [(page - 1) * size] on doubles is the exact product as long as that
    product is a double. *)
Lemma window_product_exact (p z : Z) :
  1 <= p -> 1 <= z -> (p - 1) * z <= 2 ^ 53 ->
  js_mul (js_sub (Finite p) (Finite 1)) (Finite z) = Finite ((p - 1) * z).
Proof.
  intros Hp Hz Hprod. unfold js_sub.
  rewrite nearest_double_exact by nia.
  unfold js_mul. apply nearest_double_exact. nia.
Qed.

(** With both numbers present the listing handlers compute the window
    without clamping, and without rounding while the product is a
    double. *)
Lemma list_window (isMaster : bool) (q : ListQuery) (p z : Z) :
  1 <= p -> 1 <= z -> (p - 1) * z <= 2 ^ 53 ->
  lq_page q = Some p -> lq_size q = Some z ->
  skip (options (PostsController.getAll isMaster q)) = Finite ((p - 1) * z)
  /\ limit (options (PostsController.getAll isMaster q)) = Finite z
  /\ skip (options (NotesController.getNotes isMaster q)) = Finite ((p - 1) * z)
  /\ limit (options (NotesController.getNotes isMaster q)) = Finite z.
Proof.
  intros H1 H2 H3 Hp Hz.
  unfold PostsController.getAll, NotesController.getNotes.
  cbn [options skip limit]. rewrite Hp, Hz. cbn [ToNumber].
  rewrite window_product_exact by done. done.
Qed.

(** C7 (counterexample). The handlers multiply doubles: on page
    183820392953902 with size 49 the product, 2^53 + 157, is no double,
    and the query is given the even neighbour below it as [skip], in the
    comment listings of both controllers and in the post and note
    listings. *)
Lemma listing_skip_is_rounded :
  let p := 183820392953902 in
  let z := 49 in
  let pager := mkPagerDto (Some p) (Some z) None in
  let q := mkListQuery (Some z) (Some p) None None None None in
  (p - 1) * z = 9007199254741149
  /\ skip (options (CommentsController.getCommentsByRefId 7%N pager))
     = Finite 9007199254741148
  /\ skip (options (LegacyCommentsController.getCommentsByRefId 7%N pager))
     = Finite 9007199254741148
  /\ skip (options (PostsController.getAll false q))
     = Finite 9007199254741148
  /\ skip (options (NotesController.getNotes false q))
     = Finite 9007199254741148
  /\ skip (options (CommentsController.getCommentsByRefId 7%N pager))
     <> Finite ((p - 1) * z).
Proof.
  intros p z pager q. repeat split; try reflexivity.
  vm_compute. intros [=].
Qed.

(** C7 (as amended). For every listing call with [page >= 1] and [size]
    in [1, 50] whose product [(page - 1) * size] is at most 2^53, hence a
    double, the query handed to the persistence gateway has
    [skip = (page - 1) * size] and [limit = size]: the comments listing of
    both controllers ([getCommentsByRefId]), the post listing ([getAll])
    and the note listing ([getNotes]). *)
Theorem listing_window_skip_limit
    (id : ObjectId) (isMaster : bool) (q : ListQuery) (select : option string)
    (p z : Z) :
  1 <= p -> 1 <= z <= 50 -> (p - 1) * z <= 2 ^ 53 ->
  lq_page q = Some p -> lq_size q = Some z ->
  let pager := mkPagerDto (Some p) (Some z) select in
  let window (call : FindWithPaginator) :=
    (skip (options call), limit (options call)) in
  window (CommentsController.getCommentsByRefId id pager)
    = (Finite ((p - 1) * z), Finite z)
  /\ window (LegacyCommentsController.getCommentsByRefId id pager)
    = (Finite ((p - 1) * z), Finite z)
  /\ window (PostsController.getAll isMaster q)
    = (Finite ((p - 1) * z), Finite z)
  /\ window (NotesController.getNotes isMaster q)
    = (Finite ((p - 1) * z), Finite z).
Proof.
  intros Hpage Hsize Hprod Hp Hz pager window.
  destruct (list_window isMaster q p z Hpage ltac:(lia) Hprod Hp Hz)
    as (E1 & E2 & E3 & E4).
  unfold window. rewrite E1, E2, E3, E4.
  unfold CommentsController.getCommentsByRefId,
    LegacyCommentsController.getCommentsByRefId, pager.
  cbn -[js_mul js_sub Z.mul Z.sub].
  rewrite (window_product_exact p z Hpage ltac:(lia) Hprod). done.
Qed.

Lemma listing_window_skip_limit_witness :
  let q := mkListQuery (Some 50) (Some 3) None None None None in
  (skip (options (PostsController.getAll false q)),
   limit (options (PostsController.getAll false q)))
  = (Finite 100, Finite 50).
Proof.
  intros q.
  pose proof (listing_window_skip_limit 7%N false q None 3 50
                ltac:(lia) ltac:(lia) ltac:(lia) eq_refl eq_refl) as H.
  cbv zeta in H. exact (proj1 (proj2 (proj2 H))).
Defined.

(** [~~] leaves a signed 32-bit integer as it is. *)
Lemma ToInt32_small (z : Z) :
  - 2 ^ 31 <= z < 2 ^ 31 -> ToInt32 (Finite z) = z.
Proof.
  intros H. unfold ToInt32.
  rewrite Z.mod_small by lia. lia.
Qed.

(** The analyze handlers compute the same window as long as [page] is a
    signed 32-bit integer. *)
Lemma analyze_window_skip_limit (select : option string) (p z : Z) :
  1 <= p < 2 ^ 31 -> 1 <= z <= 50 ->
  AnalyzeController.window (mkPagerDto (Some p) (Some z) select)
  = (z, (p - 1) * z).
Proof.
  intros Hp Hz. unfold AnalyzeController.window. simpl default.
  rewrite !ToInt32_small by lia. by rewrite round53_exact by nia.
Qed.

Lemma analyze_window_skip_limit_witness :
  AnalyzeController.window (mkPagerDto (Some 3) (Some 50) None) = (50, 100).
Proof.
  exact (analyze_window_skip_limit None 3 50 ltac:(lia) ltac:(lia)).
Defined.

(** Past that range [~~page] wraps around. *)
Lemma analyze_window_wraps :
  AnalyzeController.window (mkPagerDto (Some (2 ^ 31)) (Some 10) None)
  = (10, (- 2 ^ 31 - 1) * 10).
Proof. reflexivity. Qed.

(** ** Out-of-range sizes *)

Lemma validate_Pager_size (q : Pager) (z : Z) :
  size q = Some z ->
  (z < 1 -> ViolatesMin "size" 1 ∈ validate_Pager q)
  /\ (50 < z -> ViolatesMax "size" 50 ∈ validate_Pager q).
Proof.
  intros Hz. unfold validate_Pager. rewrite Hz. simpl.
  unfold Min, Max. split; intros Hlt.
  - apply elem_of_app. right. apply elem_of_app. left.
    destruct (z <? 1) eqn:E; [|lia]. set_solver.
  - apply elem_of_app. right. apply elem_of_app. left.
    destruct (50 <? z) eqn:E; [|lia]. set_solver.
Qed.

(** C3 (counterexample). A request with [size = 0] is not served with
    size 1: validation answers with the [Min(1)] violation, and the
    handler itself would pass 0 on; likewise [size = 1000] is answered
    with the [Max(50)] violation and would be passed on as 1000. *)
Lemma out_of_range_size_is_not_clamped :
  through_validation validate_Pager CommentsController.getRecentlyComments
      (mkPager None (Some 0) (Some 0))
    = inl [ViolatesMin "size" 1]
  /\ size (CommentsController.getRecentlyComments
             (mkPager None (Some 0) (Some 0))) = Some 0
  /\ through_validation validate_Pager CommentsController.getRecentlyComments
       (mkPager None (Some 1000) (Some 0))
     = inl [ViolatesMax "size" 50]
  /\ size (CommentsController.getRecentlyComments
             (mkPager None (Some 1000) (Some 0))) = Some 1000.
Proof. repeat split; reflexivity. Qed.

(** C3 (as amended). For every listing request whose [size] lies outside
    [1, 50], the [Pager] validators report a violation on [size]
    ([Min(1)] below the range, [Max(50)] above it), so the request is
    answered with the violations and never reaches the handler; no
    handler clamps: the size a handler receives is the size it passes on
    (the analyze handlers pass on [~~size]). *)
Theorem out_of_range_size_is_rejected (q : Pager) (z : Z) :
  size q = Some z -> z < 1 \/ 50 < z ->
  (exists violations,
      through_validation validate_Pager
        CommentsController.getRecentlyComments q = inl violations
      /\ (ViolatesMin "size" 1 ∈ violations
          \/ ViolatesMax "size" 50 ∈ violations))
  /\ size (CommentsController.getRecentlyComments q) = Some z
  /\ (forall id select,
        limit (options (CommentsController.getCommentsByRefId id
                          (mkPagerDto (page q) (Some z) select))) = Finite z)
  /\ (forall select,
        (AnalyzeController.window (mkPagerDto (page q) (Some z) select)).1
        = ToInt32 (Finite z)).
Proof.
  intros Hz Hout. split; [|split; [|split]].
  - destruct (validate_Pager_size q z Hz) as [Hlo Hhi].
    unfold through_validation.
    destruct (validate_Pager q) as [|v vs] eqn:E.
    + destruct Hout as [H|H]; [apply Hlo in H | apply Hhi in H]; set_solver.
    + exists (v :: vs). split; [done|].
      destruct Hout as [H|H]; [left; by apply Hlo | right; by apply Hhi].
  - simpl. by rewrite Hz.
  - done.
  - done.
Qed.

Lemma out_of_range_size_is_rejected_witness :
  exists violations,
    through_validation validate_Pager CommentsController.getRecentlyComments
      (mkPager (Some 1) (Some 51) (Some 1)) = inl violations
    /\ (ViolatesMin "size" 1 ∈ violations
        \/ ViolatesMax "size" 50 ∈ violations).
Proof.
  refine (proj1 (out_of_range_size_is_rejected
                   (mkPager (Some 1) (Some 51) (Some 1)) 51 _ _));
    [reflexivity | right; lia].
Defined.

(** ** Visibility conditions *)

Lemma guest_condition_lookup (year : option Z) :
  let q := spread_query (addConditionToSeeHideContent false)
                        (yearCondition year) in
  q !! "hide" = Some (QEq (VBool false))
  /\ q !! "password" = Some (QEq VUndefined).
Proof.
  unfold spread_query, yearCondition.
  destruct year as [y|]; [destruct (y =? 0)|]; split; reflexivity.
Qed.

Lemma guest_condition_restricts (year : option Z) (a : Article) :
  matches (spread_query (addConditionToSeeHideContent false)
                        (yearCondition year)) (article_doc a) = true ->
  hide a = false /\ password a = None.
Proof.
  intros Hm. destruct (guest_condition_lookup year) as [Hh Hp].
  pose proof (matches_lookup _ _ _ _ Hm Hh) as H1.
  pose proof (matches_lookup _ _ _ _ Hm Hp) as H2.
  simpl in H1, H2.
  rewrite article_doc_lookup_hide in H1.
  rewrite article_doc_lookup_password in H2. simpl in H1.
  apply bool_decide_eq_true in H1. split; [congruence|].
  destruct (password a); [discriminate | done].
Qed.

(** C10. [addConditionToSeeHideContent(false)] is
    [{ hide: false, password: undefined }]; for the master it is a
    condition that every item meets, hidden or not; so the condition of a
    guest's post or note listing is only met by items that are not hidden
    and carry no password. *)
Theorem guest_listing_sees_no_hidden_content (q : ListQuery) (a : Article) :
  addConditionToSeeHideContent false
    = {[ "hide" := QEq (VBool false); "password" := QEq VUndefined ]}
  /\ matches (addConditionToSeeHideContent true) (article_doc a) = true
  /\ (matches (condition (PostsController.getAll false q)) (article_doc a)
        = true -> hide a = false /\ password a = None)
  /\ (matches (condition (NotesController.getNotes false q)) (article_doc a)
        = true -> hide a = false /\ password a = None).
Proof.
  split; [reflexivity|]. split; [|split].
  - unfold addConditionToSeeHideContent. rewrite matches_singleton. simpl.
    unfold alt_matches.
    rewrite orb_true_iff. destruct (hide a) eqn:E; [right | left].
    + rewrite orb_false_r. apply bool_decide_eq_true.
      apply map_Forall_singleton. rewrite article_doc_lookup_hide, E. done.
    + apply bool_decide_eq_true.
      apply map_Forall_singleton. rewrite article_doc_lookup_hide, E. done.
  - apply guest_condition_restricts.
  - apply guest_condition_restricts.
Qed.

Lemma guest_listing_sees_no_hidden_content_witness :
  let a := mkArticle 1%N false None true (mkDate 2020 5 1) in
  hide a = false /\ password a = None.
Proof.
  intros a.
  apply (proj1 (proj2 (proj2 (guest_listing_sees_no_hidden_content
           (mkListQuery (Some 10) (Some 1) None (Some 2020) None None) a)))).
  vm_compute. reflexivity.
Defined.

(** ** Deleting a post *)

(** C9. [deletePost(id)] removes the post document and leaves every
    comment document as it was: the cleanup's query [{ pid: id }] matches
    no comment, since a comment keeps its target under [ref] and has no
    [pid] path; comments on the deleted post survive. *)
Theorem deletePost_leaves_comments (s : Store) (id : ObjectId) :
  exists r s',
    run (PostsService.deletePost id) s = (inr r, s')
    /\ posts s' = delete_first (fun a => bool_decide (a_id a = id)) (posts s)
    /\ (NoDup (a_id <$> posts s) -> find_article id (posts s') = None)
    /\ comments s' = comments s
    /\ notes s' = notes s
    /\ (forall c, matches {[ "pid" := QEq (VId id) ]} (comment_doc c) = false)
    /\ (forall c, c ∈ comments s -> ref c = id -> c ∈ comments s').
Proof.
  eexists _, _. split; [reflexivity|]. simpl.
  assert (E : delete_first
                (fun a => matches {[ "_id" := QEq (VId id) ]} (article_doc a))
                (posts s)
              = delete_first (fun a => bool_decide (a_id a = id)) (posts s)).
  { apply delete_first_ext. intros a. apply id_query_matches_article. }
  assert (F : List.filter
                (fun c => negb (matches {[ "pid" := QEq (VId id) ]}
                                        (comment_doc c))) (comments s)
              = comments s).
  { apply (filter_none (fun c => matches _ (comment_doc c))).
    apply pid_query_matches_no_comment. }
  rewrite E, F. repeat split; try done.
  - intros Hnd. by apply find_article_delete_first.
  - apply pid_query_matches_no_comment.
Qed.

Lemma deletePost_leaves_comments_witness :
  exists r s',
    run (PostsService.deletePost 1%N) Sample.store = (inr r, s')
    /\ find_article 1%N (posts s') = None
    /\ comments s' = [Sample.root].
Proof.
  destruct (deletePost_leaves_comments Sample.store 1%N)
    as (r & s' & Hrun & _ & Hgone & Hcs & _).
  exists r, s'. split; [exact Hrun|]. split; [|exact Hcs].
  apply Hgone. simpl. apply NoDup_singleton.
Defined.

(** ** Moderation *)

Lemma modifyCommentState_run (s : Store) (id : ObjectId) (st : CommentState) :
  exists r,
    run (CommentsController.modifyCommentState id st) s
    = (inr r,
       with_comments
         (update_first (fun c => bool_decide (_id c = id))
                       (apply_update (mkUpdate None None (Some st)))
                       (comments s)) s).
Proof.
  eexists. simpl. f_equal. f_equal.
  apply update_first_ext. intros c. apply id_query_matches_comment.
Qed.

Lemma modifyCommentState_sets_state (s : Store) (id : ObjectId)
    (c : Comment) (st : CommentState) :
  find_comment id (comments s) = Some c ->
  exists r s',
    run (CommentsController.modifyCommentState id st) s = (inr r, s')
    /\ find_comment id (comments s')
       = Some (apply_update (mkUpdate None None (Some st)) c).
Proof.
  intros Hc. destruct (modifyCommentState_run s id st) as [r Hr].
  eexists r, _. split; [exact Hr|]. simpl.
  rewrite find_comment_update_first by apply apply_update_id.
  by rewrite Hc.
Qed.

(** C8. For an existing comment, [moderate] to any state succeeds
    whatever the current state is, and leaves the comment in the
    requested state; in particular Junk followed by Read both succeed and
    end in Read.  No transition among Unread, Read and Junk is refused. *)
Theorem moderate_any_transition (s : Store) (id : ObjectId) (c : Comment)
    (st1 st2 : CommentState) :
  find_comment id (comments s) = Some c ->
  exists r1 s1 c1 r2 s2 c2,
    run (CommentsController.modifyCommentState id st1) s = (inr r1, s1)
    /\ find_comment id (comments s1) = Some c1 /\ state c1 = st1
    /\ run (CommentsController.modifyCommentState id st2) s1 = (inr r2, s2)
    /\ find_comment id (comments s2) = Some c2 /\ state c2 = st2.
Proof.
  intros Hc.
  destruct (modifyCommentState_sets_state s id c st1 Hc)
    as (r1 & s1 & Hr1 & Hc1).
  destruct (modifyCommentState_sets_state s1 id _ st2 Hc1)
    as (r2 & s2 & Hr2 & Hc2).
  eexists r1, s1, _, r2, s2, _. repeat split; eauto.
Qed.

Lemma moderate_any_transition_witness :
  exists r1 s1 c1 r2 s2 c2,
    run (CommentsController.modifyCommentState 2%N Junk) Sample.store
      = (inr r1, s1)
    /\ find_comment 2%N (comments s1) = Some c1 /\ state c1 = Junk
    /\ run (CommentsController.modifyCommentState 2%N Read) s1 = (inr r2, s2)
    /\ find_comment 2%N (comments s2) = Some c2 /\ state c2 = Read.
Proof.
  exact (moderate_any_transition Sample.store 2%N Sample.root Junk Read
           eq_refl).
Defined.

(** ** Replies *)

Lemma update_first_app {A} (p : A -> bool) (f : A -> A) (l l' : list A) (x : A) :
  List.find p l = Some x ->
  update_first p f (l ++ l') = update_first p f l ++ l'.
Proof.
  induction l as [|y l IH]; simpl; [done|].
  destruct (p y); [done|]. intros H. by rewrite IH.
Qed.

Lemma find_article_Some (id : ObjectId) (l : list Article) (a : Article) :
  find_article id l = Some a -> a_id a = id.
Proof.
  unfold find_article. intros H. apply find_some in H as [_ H].
  by apply bool_decide_eq_true in H.
Qed.

Section Replies.

Context (svc : Collaborators).

Lemma over_None_r {A} (l : option A) : over l None = l.
Proof. by destruct l. Qed.

Lemma over_Some_r {A} (l : option A) (a : A) :
  over l (Some a) = Some (default a l).
Proof. by destruct l. Qed.

(** The model of a reply, property by property: the body's own
    [parent], [ref] and [refType] replace the ones derived from the
    parent comment; [ip] and [key] replace the body's. *)
Lemma reply_model (P : Comment) (t : Article) (body : PartialComment)
    (ipLocation : IpRecord) (k : string) :
  spread
    (spread (spread (reply_head P t) body) (ipLocation_fields ipLocation))
    (key_field k)
  = {| o_parent := Some (default (_id P) (o_parent body));
       o_ref := Some (default (a_id t) (o_ref body));
       o_refType := Some (default (refType P) (o_refType body));
       o_children := o_children body;
       o_commentsIndex := o_commentsIndex body;
       o_key := Some k;
       o_state := o_state body; o_author := o_author body;
       o_text := o_text body; o_mail := o_mail body; o_url := o_url body;
       o_ip := Some (ip_of ipLocation) |}.
Proof.
  unfold spread. simpl. rewrite !over_None_r, !over_Some_r. reflexivity.
Qed.

(** What a reply that finds its parent and the parent's target does,
    in one equation. *)
Lemma replyByCid_run (s : Store) (id : ObjectId) (body : PartialComment)
    (author : option string) (isMaster : bool) (ipLocation : IpRecord)
    (P : Comment) (t : Article) :
  passes_author_check svc isMaster author ->
  find_comment id (comments s) = Some P ->
  find_article (ref P) (collection_of (refType P) s) = Some t ->
  let child :=
    reply_child P t body ipLocation (nextId s)
      (key P +:+ "#" +:+ pretty (commentsIndex P)) in
  run (CommentsController.replyByCid svc id body author isMaster ipLocation) s
  = (inr (mkReply "回复成功!"),
     {| comments :=
          update_first (fun c => bool_decide (_id c = id))
            (apply_update (reply_update P child)) (comments s) ++ [child];
        posts := posts s; notes := notes s;
        nextId := N.succ (nextId s);
        outbox := outbox s ++ reply_mails isMaster (nextId s) |}).
Proof.
  intros Hauth HP Ht child.
  destruct (find_comment_Some _ _ _ HP) as [Hid _].
  assert (Hupd : forall f,
    update_first (fun c => bool_decide (_id c = _id P)) f
                 (comments s ++ [child])
    = update_first (fun c => bool_decide (_id c = id)) f (comments s)
      ++ [child]).
  { intros f. rewrite Hid. eapply update_first_app. exact HP. }
  unfold CommentsController.replyByCid, CommentsService.ValidAuthorName.
  destruct isMaster; simpl.
  - rewrite HP. simpl. rewrite Ht. simpl. rewrite reply_model. simpl.
    unfold with_comments. simpl. rewrite (Hupd _). reflexivity.
  - destruct Hauth as [?|Hacc]; [discriminate|]. rewrite Hacc. simpl.
    rewrite HP. simpl. rewrite Ht. simpl. rewrite reply_model. simpl.
    unfold with_comments. simpl. rewrite (Hupd _).
    rewrite <- !app_assoc. reflexivity.
Qed.

(** The same for the older controller: the key suffix is the index
    plus one, and the parent's state is left alone. *)
Lemma legacy_replyByCid_run (s : Store) (id : ObjectId)
    (body : PartialComment) (author : option string) (isMaster : bool)
    (ipLocation : IpRecord) (P : Comment) (t : Article) :
  passes_author_check svc isMaster author ->
  find_comment id (comments s) = Some P ->
  find_article (ref P) (collection_of (refType P) s) = Some t ->
  let child :=
    reply_child P t body ipLocation (nextId s)
      (key P +:+ "#" +:+ pretty (commentsIndex P + 1)) in
  run (LegacyCommentsController.replyByCid svc id body author isMaster
         ipLocation) s
  = (inr (mkReply "回复成功!"),
     {| comments :=
          update_first (fun c => bool_decide (_id c = id))
            (apply_update (mkUpdate (Some (nextId s)) (Some 1) None))
            (comments s) ++ [child];
        posts := posts s; notes := notes s;
        nextId := N.succ (nextId s);
        outbox := outbox s |}).
Proof.
  intros Hauth HP Ht child.
  destruct (find_comment_Some _ _ _ HP) as [Hid _].
  assert (Hupd : forall f,
    update_first (fun c => bool_decide (_id c = _id P)) f
                 (comments s ++ [child])
    = update_first (fun c => bool_decide (_id c = id)) f (comments s)
      ++ [child]).
  { intros f. rewrite Hid. eapply update_first_app. exact HP. }
  unfold LegacyCommentsController.replyByCid,
    CommentsService.ValidAuthorName.
  destruct isMaster; simpl.
  - rewrite HP. simpl. rewrite Ht. simpl. rewrite reply_model. simpl.
    unfold with_comments. simpl. rewrite (Hupd _). reflexivity.
  - destruct Hauth as [?|Hacc]; [discriminate|]. rewrite Hacc. simpl.
    rewrite HP. simpl. rewrite Ht. simpl. rewrite reply_model. simpl.
    unfold with_comments. simpl. rewrite (Hupd _). reflexivity.
Qed.

(** The three ways a reply ends early, each leaving the store as it
    was. *)
Lemma replyByCid_rejected_author (s : Store) (id : ObjectId)
    (body : PartialComment) (author : option string)
    (ipLocation : IpRecord) :
  accepts_author svc author = false ->
  run (CommentsController.replyByCid svc id body author false ipLocation) s
    = (inl BadRequestException, s)
  /\ run (LegacyCommentsController.replyByCid svc id body author false
            ipLocation) s
    = (inl BadRequestException, s).
Proof.
  intros H.
  unfold CommentsController.replyByCid, LegacyCommentsController.replyByCid,
    CommentsService.ValidAuthorName.
  simpl. rewrite H. done.
Qed.

Lemma replyByCid_missing_parent (s : Store) (id : ObjectId)
    (body : PartialComment) (author : option string) (isMaster : bool)
    (ipLocation : IpRecord) :
  passes_author_check svc isMaster author ->
  find_comment id (comments s) = None ->
  run (CommentsController.replyByCid svc id body author isMaster
         ipLocation) s
    = (inl CannotFindException, s)
  /\ run (LegacyCommentsController.replyByCid svc id body author isMaster
            ipLocation) s
    = (inl CannotFindException, s).
Proof.
  intros Hauth H.
  unfold CommentsController.replyByCid, LegacyCommentsController.replyByCid,
    CommentsService.ValidAuthorName.
  destruct isMaster; simpl.
  - rewrite H. done.
  - destruct Hauth as [?|Hacc]; [discriminate|]. rewrite Hacc. simpl.
    rewrite H. done.
Qed.

Lemma replyByCid_missing_target (s : Store) (id : ObjectId)
    (body : PartialComment) (author : option string) (isMaster : bool)
    (ipLocation : IpRecord) (P : Comment) :
  passes_author_check svc isMaster author ->
  find_comment id (comments s) = Some P ->
  find_article (ref P) (collection_of (refType P) s) = None ->
  run (CommentsController.replyByCid svc id body author isMaster
         ipLocation) s
    = (inl TypeError, s)
  /\ run (LegacyCommentsController.replyByCid svc id body author isMaster
            ipLocation) s
    = (inl TypeError, s).
Proof.
  intros Hauth HP Ht.
  unfold CommentsController.replyByCid, LegacyCommentsController.replyByCid,
    CommentsService.ValidAuthorName.
  destruct isMaster; simpl.
  - rewrite HP. simpl. rewrite Ht. done.
  - destruct Hauth as [?|Hacc]; [discriminate|]. rewrite Hacc. simpl.
    rewrite HP. simpl. rewrite Ht. done.
Qed.

Lemma passes_author_check_dec (isMaster : bool) (author : option string) :
  passes_author_check svc isMaster author
  \/ (isMaster = false /\ accepts_author svc author = false).
Proof.
  unfold passes_author_check.
  destruct isMaster; [by left; left|].
  destruct (accepts_author svc author); [by left; right | by right].
Qed.

(** A reply that succeeded passed the author check and found both its
    parent's target. *)
Lemma replyByCid_success_inv (s s' : Store) (id : ObjectId)
    (body : PartialComment) (author : option string) (isMaster : bool)
    (ipLocation : IpRecord) (P : Comment) (r : ReplyResponse) :
  find_comment id (comments s) = Some P ->
  run (CommentsController.replyByCid svc id body author isMaster
         ipLocation) s = (inr r, s')
  \/ run (LegacyCommentsController.replyByCid svc id body author isMaster
            ipLocation) s = (inr r, s') ->
  passes_author_check svc isMaster author
  /\ exists t, find_article (ref P) (collection_of (refType P) s) = Some t.
Proof.
  intros HP Hrun.
  destruct (passes_author_check_dec isMaster author) as [Hauth|[-> Hrej]].
  - split; [done|].
    destruct (find_article (ref P) (collection_of (refType P) s))
      as [t|] eqn:Ht; [by exists t|].
    destruct (replyByCid_missing_target s id body author isMaster
                ipLocation P Hauth HP Ht) as [E1 E2].
    rewrite E1, E2 in Hrun. destruct Hrun; discriminate.
  - destruct (replyByCid_rejected_author s id body author ipLocation Hrej)
      as [E1 E2].
    rewrite E1, E2 in Hrun. destruct Hrun; discriminate.
Qed.

End Replies.

Lemma last_snoc_Some {A} (l : list A) (x : A) : last (l ++ [x]) = Some x.
Proof. apply last_snoc. Qed.

Lemma count_occ_snoc_fresh (l : list ObjectId) (x : ObjectId) :
  x ∉ l -> count_occ N.eq_dec (l ++ [x]) x = 1%nat.
Proof.
  intros H. rewrite count_occ_app.
  rewrite (proj1 (count_occ_not_In N.eq_dec l x)).
  - simpl. by destruct (N.eq_dec x x).
  - intros Hin. apply H. by apply list_elem_of_In.
Qed.

(** The statement of C1, for a reply of the comments controller: a
    successful reply to a parent [P] with [commentsIndex = n] stores a
    child whose key is [P.key + "#" + n]; afterwards [P.commentsIndex] is
    [n + 1] and [P.children] is the old list followed by the child's id,
    which occurs in it exactly once (the generated id is new to the
    list). *)
Lemma reply_key_index_children (svc : Collaborators) (s s' : Store)
    (id : ObjectId) (body : PartialComment) (author : option string)
    (isMaster : bool) (ipLocation : IpRecord) (P : Comment)
    (r : ReplyResponse) :
  find_comment id (comments s) = Some P ->
  nextId s ∉ children P ->
  run (CommentsController.replyByCid svc id body author isMaster ipLocation) s
    = (inr r, s') ->
  exists child P',
    last (comments s') = Some child
    /\ key child = key P +:+ "#" +:+ pretty (commentsIndex P)
    /\ find_comment id (comments s') = Some P'
    /\ commentsIndex P' = commentsIndex P + 1
    /\ children P' = children P ++ [_id child]
    /\ count_occ N.eq_dec (children P') (_id child) = 1%nat.
Proof.
  intros HP Hfresh Hrun.
  destruct (replyByCid_success_inv svc s s' id body author isMaster
              ipLocation P r HP (or_introl Hrun)) as [Hauth [t Ht]].
  rewrite (replyByCid_run svc s id body author isMaster ipLocation P t
             Hauth HP Ht) in Hrun.
  injection Hrun as _ <-. simpl.
  eexists _, _. split; [apply last_snoc_Some|]. split; [reflexivity|].
  split.
  { rewrite find_comment_app.
    rewrite find_comment_update_first by apply apply_update_id.
    rewrite HP. reflexivity. }
  simpl. split; [done|]. split; [done|].
  by apply count_occ_snoc_fresh.
Qed.

Lemma reply_key_index_children_witness :
  exists child P',
    last (comments (run (CommentsController.replyByCid Sample.svc 2%N
                           Sample.body_B (Some "B") false Sample.ip)
                        Sample.store).2) = Some child
    /\ key child = "2#0"
    /\ commentsIndex P' = 1
    /\ children P' = [_id child].
Proof.
  destruct (reply_key_index_children Sample.svc Sample.store _ 2%N
              Sample.body_B (Some "B") false Sample.ip Sample.root _
              eq_refl ltac:(set_solver) eq_refl)
    as (child & P' & H1 & H2 & _ & H4 & H5 & _).
  exists child, P'. repeat split; assumption.
Defined.

(** The older controller numbers the child one higher: the key is
    [P.key + "#" + (n + 1)]; the parent's index and children change in
    the same way. *)
Lemma legacy_reply_key_index_children (svc : Collaborators) (s s' : Store)
    (id : ObjectId) (body : PartialComment) (author : option string)
    (isMaster : bool) (ipLocation : IpRecord) (P : Comment)
    (r : ReplyResponse) :
  find_comment id (comments s) = Some P ->
  nextId s ∉ children P ->
  run (LegacyCommentsController.replyByCid svc id body author isMaster
         ipLocation) s = (inr r, s') ->
  exists child P',
    last (comments s') = Some child
    /\ key child = key P +:+ "#" +:+ pretty (commentsIndex P + 1)
    /\ find_comment id (comments s') = Some P'
    /\ commentsIndex P' = commentsIndex P + 1
    /\ children P' = children P ++ [_id child]
    /\ count_occ N.eq_dec (children P') (_id child) = 1%nat.
Proof.
  intros HP Hfresh Hrun.
  destruct (replyByCid_success_inv svc s s' id body author isMaster
              ipLocation P r HP (or_intror Hrun)) as [Hauth [t Ht]].
  rewrite (legacy_replyByCid_run svc s id body author isMaster ipLocation P t
             Hauth HP Ht) in Hrun.
  injection Hrun as _ <-. simpl.
  eexists _, _. split; [apply last_snoc_Some|]. split; [reflexivity|].
  split.
  { rewrite find_comment_app.
    rewrite find_comment_update_first by apply apply_update_id.
    rewrite HP. reflexivity. }
  simpl. split; [done|]. split; [done|].
  by apply count_occ_snoc_fresh.
Qed.

Lemma legacy_reply_key_index_children_witness :
  exists child,
    last (comments (run (LegacyCommentsController.replyByCid Sample.svc 2%N
                           Sample.body_B (Some "B") false Sample.ip)
                        Sample.store).2) = Some child
    /\ key child = "2#1".
Proof.
  destruct (legacy_reply_key_index_children Sample.svc Sample.store _ 2%N
              Sample.body_B (Some "B") false Sample.ip Sample.root _
              eq_refl ltac:(set_solver) eq_refl)
    as (child & P' & H1 & H2 & _).
  exists child. split; assumption.
Defined.

(** C1 (the failing run). In the older comments controller a reply to a
    parent whose [commentsIndex] is 0 stores a child with key
    [P.key + "#1"], not [P.key + "#0"]. *)
Theorem legacy_reply_key_is_off_by_one :
  let s' := (run (LegacyCommentsController.replyByCid Sample.svc 2%N
                    Sample.body_B (Some "B") false Sample.ip)
                 Sample.store).2 in
  commentsIndex Sample.root = 0
  /\ (key <$> last (comments s')) = Some "2#1"
  /\ (key <$> last (comments s'))
     <> Some (key Sample.root +:+ "#" +:+ pretty (commentsIndex Sample.root))
  /\ (key <$> last (comments
        (run (CommentsController.replyByCid Sample.svc 2%N
                Sample.body_B (Some "B") false Sample.ip) Sample.store).2))
     = Some "2#0".
Proof. vm_compute. repeat split; congruence. Qed.

(** Where a reply's [ref] and [refType] come from, for either
    controller: the payload's own property if it has one, the parent's
    otherwise. *)
Lemma reply_ref_source (svc : Collaborators) (s s' : Store)
    (id : ObjectId) (body : PartialComment) (author : option string)
    (isMaster : bool) (ipLocation : IpRecord) (P : Comment)
    (r : ReplyResponse) :
  find_comment id (comments s) = Some P ->
  run (CommentsController.replyByCid svc id body author isMaster ipLocation) s
    = (inr r, s')
  \/ run (LegacyCommentsController.replyByCid svc id body author isMaster
            ipLocation) s = (inr r, s') ->
  exists child,
    last (comments s') = Some child
    /\ ref child = default (ref P) (o_ref body)
    /\ refType child = default (refType P) (o_refType body).
Proof.
  intros HP Hrun.
  destruct (replyByCid_success_inv svc s s' id body author isMaster
              ipLocation P r HP Hrun) as [Hauth [t Ht]].
  pose proof (find_article_Some _ _ _ Ht) as Hid.
  destruct Hrun as [Hrun|Hrun].
  - rewrite (replyByCid_run svc s id body author isMaster ipLocation P t
               Hauth HP Ht) in Hrun.
    injection Hrun as _ <-. simpl.
    eexists. split; [apply last_snoc_Some|]. simpl. by rewrite Hid.
  - rewrite (legacy_replyByCid_run svc s id body author isMaster ipLocation
               P t Hauth HP Ht) in Hrun.
    injection Hrun as _ <-. simpl.
    eexists. split; [apply last_snoc_Some|]. simpl. by rewrite Hid.
Qed.

(** C6 (counterexample). Two replies to the same parent whose payloads
    differ only in [ref] and [refType] store different targets: the one
    without them is filed under the parent's post, the other under the
    note the client named. *)
Lemma reply_ref_follows_payload :
  let reply b :=
    stored_last
      (run (CommentsController.replyByCid Sample.svc 2%N b (Some "B") false
              Sample.ip) Sample.store) in
  without_ref Sample.body_B = without_ref Sample.body_B_retargeted
  /\ (ref Sample.root, refType Sample.root) = (1%N, Post)
  /\ ((fun c => (ref c, refType c)) <$> reply Sample.body_B)
     = Some (1%N, Post)
  /\ ((fun c => (ref c, refType c)) <$> reply Sample.body_B_retargeted)
     = Some (9%N, Note).
Proof. vm_compute. repeat split; reflexivity. Qed.

(** C6 (as amended). For every reply created by [replyTo] from a payload
    that carries no [ref] and no [refType] property, the stored
    comment's [ref] and [refType] are the parent's; so any two such
    payloads store the same [ref] and [refType].  Both controllers. *)
Theorem reply_ref_from_parent (svc : Collaborators) (s s' : Store)
    (id : ObjectId) (body : PartialComment) (author : option string)
    (isMaster : bool) (ipLocation : IpRecord) (P : Comment)
    (r : ReplyResponse) :
  find_comment id (comments s) = Some P ->
  o_ref body = None -> o_refType body = None ->
  run (CommentsController.replyByCid svc id body author isMaster ipLocation) s
    = (inr r, s')
  \/ run (LegacyCommentsController.replyByCid svc id body author isMaster
            ipLocation) s = (inr r, s') ->
  exists child,
    last (comments s') = Some child
    /\ ref child = ref P /\ refType child = refType P.
Proof.
  intros HP Hr Ht Hrun.
  destruct (reply_ref_source svc s s' id body author isMaster ipLocation P r
              HP Hrun) as (child & Hlast & E1 & E2).
  exists child. rewrite Hr in E1. rewrite Ht in E2. done.
Qed.

Lemma reply_ref_from_parent_witness :
  exists child,
    stored_last
      (run (CommentsController.replyByCid Sample.svc 2%N Sample.body_B
              (Some "B") false Sample.ip) Sample.store) = Some child
    /\ ref child = 1%N /\ refType child = Post.
Proof.
  exact (reply_ref_from_parent Sample.svc Sample.store _ 2%N Sample.body_B
           (Some "B") false Sample.ip Sample.root _
           eq_refl eq_refl eq_refl (or_introl eq_refl)).
Defined.

(** C5. For every id that matches no comment, [replyTo], the reply of a
    request that has passed the validation of its author (the caller is
    the master, or the name is accepted), fails with NotFound
    ([CannotFindException]) and leaves the store, hence the comment
    collection, as it was: the lookup comes before any write.  Both
    controllers. *)
Theorem reply_to_missing_parent (svc : Collaborators) (s : Store)
    (id : ObjectId) (body : PartialComment) (author : option string)
    (isMaster : bool) (ipLocation : IpRecord) :
  passes_author_check svc isMaster author ->
  find_comment id (comments s) = None ->
  let failed (answer : (Exception + ReplyResponse) * Store) :=
    answer.1 = inl CannotFindException
    /\ answer.2 = s
    /\ comments answer.2 = comments s in
  error_kind CannotFindException = NotFound
  /\ failed (run (CommentsController.replyByCid svc id body author isMaster
                    ipLocation) s)
  /\ failed (run (LegacyCommentsController.replyByCid svc id body author
                    isMaster ipLocation) s).
Proof.
  intros Hauth Hnone failed.
  destruct (replyByCid_missing_parent svc s id body author isMaster
              ipLocation Hauth Hnone) as [E1 E2].
  unfold failed. by rewrite E1, E2.
Qed.

Lemma reply_to_missing_parent_witness :
  let answer :=
    run (CommentsController.replyByCid Sample.svc 99%N Sample.body_B
           (Some "B") false Sample.ip) Sample.store in
  answer.1 = inl CannotFindException
  /\ comments answer.2 = comments Sample.store.
Proof.
  intros answer.
  destruct (reply_to_missing_parent Sample.svc Sample.store 99%N
              Sample.body_B (Some "B") false Sample.ip
              (or_intror eq_refl) eq_refl)
    as (_ & (E1 & _ & Hc) & _).
  split; [exact E1 | exact Hc].
Defined.

(** ** Comments on a target that forbids them *)

(** The guard of [comment] never throws: whatever the target's
    allow-comment flag is, a guest with an accepted name gets the comment
    created. *)
Lemma comment_guard_never_fires (svc : Collaborators) (s : Store)
    (id : ObjectId) (body : PartialComment) (author : option string)
    (isMaster : bool) (ipLocation : IpRecord) (refKind : option CommentRefTypes)
    (a : Article) :
  passes_author_check svc isMaster author ->
  find_article id (collection_of (default Post refKind) s) = Some a ->
  exists c,
    run (CommentsController.comment svc id body author isMaster ipLocation
           refKind) s
    = (inr c,
       {| comments := comments s ++ [c]; posts := posts s; notes := notes s;
          nextId := N.succ (nextId s); outbox := outbox s |})
    /\ ref c = id /\ parent c = None /\ _id c = nextId s.
Proof.
  intros Hauth Ha.
  unfold CommentsController.comment, CommentsService.ValidAuthorName,
    CommentsService.allowComment, CommentsService.createComment.
  destruct isMaster; simpl.
  - rewrite Ha. simpl. rewrite andb_false_r. simpl. rewrite Ha. simpl.
    eexists. split; [reflexivity|]. done.
  - destruct Hauth as [?|Hacc]; [discriminate|]. rewrite Hacc. simpl.
    rewrite Ha. simpl. rewrite andb_false_r. simpl. rewrite Ha. simpl.
    eexists. split; [reflexivity|]. done.
Qed.

Lemma comment_guard_never_fires_witness :
  exists c,
    run (CommentsController.comment Sample.svc 1%N Sample.body_B (Some "B")
           false Sample.ip None) Sample.store
    = (inr c,
       {| comments := comments Sample.store ++ [c];
          posts := posts Sample.store; notes := notes Sample.store;
          nextId := N.succ (nextId Sample.store);
          outbox := outbox Sample.store |}).
Proof.
  destruct (comment_guard_never_fires Sample.svc Sample.store 1%N
              Sample.body_B (Some "B") false Sample.ip None
              Sample.closed_post (or_intror eq_refl) eq_refl)
    as (c & Hrun & _).
  exists c. exact Hrun.
Defined.

(** C2 (the failing run). A guest comments on a post whose allow-comment
    flag is false: the handler does not throw [ForbiddenException]; it
    returns the new comment, and the collection has grown by it. *)
Theorem comment_on_closed_post_is_created :
  let out := run (CommentsController.comment Sample.svc 1%N Sample.body_B
                    (Some "B") false Sample.ip None) Sample.store in
  find_article 1%N (posts Sample.store) = Some Sample.closed_post
  /\ allowComment Sample.closed_post = false
  /\ (exists c, out.1 = inr c /\ comments out.2 = comments Sample.store ++ [c])
  /\ length (comments out.2) = S (length (comments Sample.store)).
Proof.
  split; [reflexivity|]. split; [reflexivity|]. split; [|reflexivity].
  eexists. split; reflexivity.
Qed.

Lemma elem_of_update_first_id (id : ObjectId) (f : Comment -> Comment)
    (cs : list Comment) (d : Comment) :
  (forall c, _id (f c) = _id c) ->
  d ∈ cs ->
  exists d', d' ∈ update_first (fun c => bool_decide (_id c = id)) f cs
             /\ _id d' = _id d.
Proof.
  intros Hf. induction cs as [|c cs IH]; [set_solver|].
  intros Hd. simpl. apply elem_of_cons in Hd as [->|Hd].
  - destruct (bool_decide (_id c = id)).
    + exists (f c). split; [set_solver | apply Hf].
    + exists c. split; [set_solver | done].
  - destruct (bool_decide (_id c = id)).
    + exists d. split; [set_solver | done].
    + destruct (IH Hd) as (d' & Hd' & Hid'). exists d'.
      split; [set_solver | done].
Qed.

(** ** Two replies to the same parent *)

Section SameParent.

Context (svc : Collaborators).
Context (pid r0 : ObjectId) (t0 : CommentRefTypes).

Lemma parent_in_place_found (s : Store) :
  parent_in_place pid r0 t0 s ->
  exists P', find_comment pid (comments s) = Some P'
             /\ _id P' = pid /\ ref P' = r0 /\ refType P' = t0.
Proof.
  intros (P' & tgt & HP & Hr & Ht & _). exists P'.
  destruct (find_comment_Some _ _ _ HP) as [Hid _]. done.
Qed.

Lemma parent_in_place_target (s : Store) :
  parent_in_place pid r0 t0 s ->
  exists tgt, find_article r0 (collection_of t0 s) = Some tgt.
Proof. intros (P' & tgt & _ & _ & _ & H). by exists tgt. Qed.

(** The turns of a reply, one tactic per kind of turn. *)
Local Ltac turn_lookup Hid Hr Ht :=
  let s := fresh "s" in
  let Hs := fresh "Hs" in
  let P' := fresh "P'" in
  let HP := fresh "HP" in
  intros s Hs; left;
  destruct (parent_in_place_found s Hs) as (P' & HP & Hid & Hr & Ht);
  eexists; split; [by rewrite HP|]; simpl.

Local Ltac turn_populate Hr Ht :=
  let s := fresh "s" in
  let Hs := fresh "Hs" in
  let tgt := fresh "tgt" in
  let Htgt := fresh "Htgt" in
  intros s Hs; left;
  destruct (parent_in_place_target s Hs) as [tgt Htgt];
  eexists; split; [by rewrite Hr, Ht, Htgt|];
  simpl; rewrite reply_model; simpl.

Local Ltac turn_insert :=
  let s := fresh "s" in
  intros s _; right;
  eexists _, _; split; [reflexivity|]; split; [reflexivity|]; simpl.

Local Ltac turn_update Hid :=
  let s := fresh "s" in
  intros s _;
  eexists _, _; split; [unfold parent_updated; rewrite <- Hid; reflexivity|];
  split; [reflexivity|]; split; [reflexivity|]; simpl.

Local Ltac turn_emit :=
  let s := fresh "s" in
  intros s _; eexists _, _; split; [reflexivity|]; simpl.

(** A reply of the comments controller that passes the author check is
    such a body: (author check,) lookup, populate, insert, parent update,
    mail (and broadcast). *)
Lemma replyByCid_replies_in (body : PartialComment) (author : option string)
    (isMaster : bool) (ipLocation : IpRecord) :
  passes_author_check svc isMaster author ->
  replies_in pid r0 t0
    (CommentsController.replyByCid svc pid body author isMaster ipLocation)
    (reply_turns isMaster) Reading.
Proof.
  intros Hauth.
  unfold CommentsController.replyByCid, CommentsService.ValidAuthorName,
    reply_turns.
  destruct isMaster; simpl.
  - turn_lookup Hid Hr Ht. turn_populate Hr Ht. turn_insert.
    turn_update Hid. turn_emit. eauto.
  - destruct Hauth as [?|Hacc]; [discriminate|].
    intros s Hs. left. exists tt. rewrite Hacc. split; [done|]. simpl.
    turn_lookup Hid Hr Ht. turn_populate Hr Ht. turn_insert.
    turn_update Hid. turn_emit. turn_emit. eauto.
Qed.

(** So is a reply of the older controller: (author check,) lookup,
    populate, insert, parent update. *)
Lemma legacy_replyByCid_replies_in (body : PartialComment)
    (author : option string) (isMaster : bool) (ipLocation : IpRecord) :
  passes_author_check svc isMaster author ->
  replies_in pid r0 t0
    (LegacyCommentsController.replyByCid svc pid body author isMaster
       ipLocation)
    (legacy_reply_turns isMaster) Reading.
Proof.
  intros Hauth.
  unfold LegacyCommentsController.replyByCid,
    CommentsService.ValidAuthorName, legacy_reply_turns.
  destruct isMaster; simpl.
  - turn_lookup Hid Hr Ht. turn_populate Hr Ht. turn_insert.
    turn_update Hid. eauto.
  - destruct Hauth as [?|Hacc]; [discriminate|].
    intros s Hs. left. exists tt. rewrite Hacc. split; [done|]. simpl.
    turn_lookup Hid Hr Ht. turn_populate Hr Ht. turn_insert.
    turn_update Hid. eauto.
Qed.

Context (n0 : Z) (ch0 : list ObjectId) (nid0 : ObjectId).

Local Abbreviation Inv := (replies_invariant pid r0 t0 n0 ch0 nid0).

Lemma replies_invariant_sym (s : Store) (ph1 ph2 : Phase) :
  Inv s ph1 ph2 -> Inv s ph2 ph1.
Proof.
  intros (P' & tgt & HP & Hr & Ht & Htgt & Hidx & Hch & Hnid & Hrng & Hnd).
  exists P', tgt.
  split; [done|]. split; [done|]. split; [done|]. split; [done|].
  split; [rewrite Hidx; by rewrite !length_app, Nat.add_comm|].
  split; [rewrite Hch; f_equiv; apply Permutation_app_comm|].
  split; [rewrite Hnid; by rewrite !length_app, Nat.add_comm|].
  split.
  - intros c Hc. apply (Hrng c). set_solver.
  - by rewrite Permutation_app_comm.
Qed.

Lemma replies_invariant_in_place (s : Store) (ph1 ph2 : Phase) :
  Inv s ph1 ph2 -> parent_in_place pid r0 t0 s.
Proof.
  intros (P' & tgt & HP & Hr & Ht & Htgt & _). by exists P', tgt.
Qed.

(** One turn of a reply that is not finished: it moves on by one turn,
    keeps the invariant with its new phase, and keeps the child id it
    has drawn. *)
Lemma reply_turn_advances {A} (p : Async A) (n : nat) (ph other : Phase)
    (s : Store) :
  replies_in pid r0 t0 p (S n) ph ->
  Inv s ph other ->
  exists p' s' ph',
    step p s = (p', s')
    /\ replies_in pid r0 t0 p' n ph'
    /\ Inv s' ph' other
    /\ (forall c, c ∈ made_ids ph -> c ∈ made_ids ph').
Proof.
  intros Hp HI.
  pose proof (replies_invariant_in_place _ _ _ HI) as Hplace.
  destruct HI as (P' & tgt & HP & Hr & Ht & Htgt & Hidx & Hch & Hnid
                  & Hrng & Hnd).
  destruct p as [a|e|X op k]; simpl in Hp; [by destruct Hp | done |].
  specialize (Hp s Hplace).
  destruct ph as [|c|c].
  - destruct Hp as [(x & Hop & Hk) | (x & c & Hop & Hc & Hk)].
    + exists (k x), s, Reading. simpl. rewrite Hop.
      split; [done|]. split; [done|]. split; [|done].
      exists P', tgt. done.
    + exists (k x), (inserted c s), (Stored (nextId s)). simpl. rewrite Hop.
      split; [done|]. split; [done|]. split; [|set_solver].
      exists P', tgt. simpl in *.
      split; [rewrite find_comment_app; by rewrite HP|].
      split; [done|]. split; [done|]. split; [by destruct t0|].
      split; [done|]. split; [done|].
      split; [rewrite Hnid; lia|].
      split.
      * intros c0 Hc0. apply elem_of_cons in Hc0 as [->|Hc0].
        -- split; [lia|]. exists c. split; [set_solver | done].
        -- destruct (Hrng c0 Hc0) as [Hlt (d & Hd & Hdid)].
           split; [lia|]. exists d. split; [set_solver | done].
      * apply NoDup_cons. split; [|done].
        intros Hin. destruct (Hrng _ Hin) as [Hlt _]. lia.
  - destruct Hp as (x & u & Hop & Hpush & Hinc & Hk).
    exists (k x), (parent_updated pid u s), (Linked c). simpl. rewrite Hop.
    split; [done|]. split; [done|]. split; [|set_solver].
    exists (apply_update u P'), tgt. simpl in *.
    split.
    { rewrite find_comment_update_first by apply apply_update_id.
      by rewrite HP. }
    split; [done|]. split; [done|]. split; [by destruct t0|].
    split; [rewrite Hinc, Hidx; lia|].
    split.
    { rewrite Hpush, Hch. rewrite <- app_assoc.
      symmetry. f_equiv. apply Permutation_cons_append. }
    split; [done|]. split; [|done].
    intros c0 Hc0. destruct (Hrng c0 Hc0) as [Hlt (d & Hd & Hdid)].
    split; [done|].
    destruct (elem_of_update_first_id pid (apply_update u) (comments s) d
                (apply_update_id u) Hd) as (d' & Hd' & Hid').
    exists d'. split; [done | congruence].
  - destruct Hp as (x & e & Hop & Hk).
    exists (k x), (emitted e s), (Linked c). simpl. rewrite Hop.
    split; [done|]. split; [done|]. split; [|done].
    exists P', tgt. simpl in *.
    split; [done|]. split; [done|]. split; [done|].
    split; [by destruct t0|]. done.
Qed.

(** A finished reply has linked its child. *)
Lemma replies_in_zero {A} (p : Async A) (ph : Phase) :
  replies_in pid r0 t0 p 0 ph ->
  (exists a, p = Return a) /\ exists c, ph = Linked c.
Proof.
  destruct p as [a|e|X op k]; simpl; [|done|done].
  intros [_ Hc]. split; [by exists a | done].
Qed.

Lemma interleave_cons {A} (i : nat) (schedule : list nat) (w : Pool A) :
  interleave (i :: schedule) w = interleave schedule (turn i w).
Proof. reflexivity. Qed.

Lemma turns_of_cons (i j : nat) (schedule : list nat) :
  turns_of i (j :: schedule)
  = ((if bool_decide (j = i) then 1 else 0) + turns_of i schedule)%nat.
Proof.
  unfold turns_of. simpl.
  destruct (Nat.eq_dec j i) as [->|Hne].
  - by rewrite bool_decide_eq_true_2.
  - by rewrite bool_decide_eq_false_2.
Qed.

(** Any schedule that gives each of two replies its turns ends with both
    finished and both linked. *)
Lemma interleaved_replies_finish {A} (schedule : list nat)
    (p1 p2 : Async A) (n1 n2 : nat) (ph1 ph2 : Phase) (s : Store) :
  replies_in pid r0 t0 p1 n1 ph1 ->
  replies_in pid r0 t0 p2 n2 ph2 ->
  Inv s ph1 ph2 ->
  (n1 <= turns_of 0 schedule)%nat ->
  (n2 <= turns_of 1 schedule)%nat ->
  exists a1 a2 s' c1 c2,
    interleave schedule ([p1; p2], s) = ([Return a1; Return a2], s')
    /\ Inv s' (Linked c1) (Linked c2)
    /\ (forall c, c ∈ made_ids ph1 -> c = c1)
    /\ (forall c, c ∈ made_ids ph2 -> c = c2).
Proof.
  revert p1 p2 n1 n2 ph1 ph2 s.
  induction schedule as [|i schedule IH];
    intros p1 p2 n1 n2 ph1 ph2 s H1 H2 HI Hn1 Hn2.
  - unfold turns_of in *. simpl in *.
    assert (n1 = 0%nat) as -> by lia. assert (n2 = 0%nat) as -> by lia.
    destruct (replies_in_zero _ _ H1) as [[a1 ->] [c1 ->]].
    destruct (replies_in_zero _ _ H2) as [[a2 ->] [c2 ->]].
    exists a1, a2, s, c1, c2. simpl. set_solver.
  - rewrite interleave_cons. rewrite turns_of_cons in Hn1, Hn2.
    destruct i as [|[|i]]; simpl in Hn1, Hn2.
    + (* the first reply takes the turn *)
      destruct n1 as [|n1].
      * destruct (replies_in_zero _ _ H1) as [[a1 ->] [c1 ->]].
        apply (IH (Return a1) p2 0%nat n2 (Linked c1) ph2 s); try done. lia.
      * destruct (reply_turn_advances p1 n1 ph1 ph2 s H1 HI)
          as (p1' & s' & ph1' & Hstep & H1' & HI' & Hkeep).
        unfold turn. simpl. rewrite Hstep.
        destruct (IH p1' p2 n1 n2 ph1' ph2 s' H1' H2 HI')
          as (a1 & a2 & s'' & c1 & c2 & Hrun & HI'' & Hc1 & Hc2);
          [lia | lia |].
        exists a1, a2, s'', c1, c2. eauto 10.
    + (* the second reply takes the turn *)
      destruct n2 as [|n2].
      * destruct (replies_in_zero _ _ H2) as [[a2 ->] [c2 ->]].
        apply (IH p1 (Return a2) n1 0%nat ph1 (Linked c2) s); try done. lia.
      * apply replies_invariant_sym in HI.
        destruct (reply_turn_advances p2 n2 ph2 ph1 s H2 HI)
          as (p2' & s' & ph2' & Hstep & H2' & HI' & Hkeep).
        apply replies_invariant_sym in HI'.
        unfold turn. simpl. rewrite Hstep.
        destruct (IH p1 p2' n1 n2 ph1 ph2' s' H1 H2' HI')
          as (a1 & a2 & s'' & c1 & c2 & Hrun & HI'' & Hc1 & Hc2);
          [lia | lia |].
        exists a1, a2, s'', c1, c2. eauto 10.
    + (* no such request *)
      apply (IH p1 p2 n1 n2 ph1 ph2 s); done.
Qed.

End SameParent.

(** Two bodies that reply to the same parent, run under any schedule
    that lets both finish: nothing is lost. *)
Lemma two_replies_lose_nothing {A} (s : Store) (pid : ObjectId)
    (P : Comment) (tgt : Article) (p1 p2 : Async A) (n1 n2 : nat)
    (schedule : list nat) :
  find_comment pid (comments s) = Some P ->
  find_article (ref P) (collection_of (refType P) s) = Some tgt ->
  replies_in pid (ref P) (refType P) p1 n1 Reading ->
  replies_in pid (ref P) (refType P) p2 n2 Reading ->
  (n1 <= turns_of 0 schedule)%nat ->
  (n2 <= turns_of 1 schedule)%nat ->
  exists r1 r2 s' P' c1 c2,
    interleave schedule ([p1; p2], s) = ([Return r1; Return r2], s')
    /\ find_comment pid (comments s') = Some P'
    /\ commentsIndex P' = commentsIndex P + 2
    /\ children P' ≡ₚ children P ++ [c1; c2]
    /\ c1 ∈ children P' /\ c2 ∈ children P' /\ c1 <> c2
    /\ (exists d1 d2, d1 ∈ comments s' /\ d2 ∈ comments s'
                      /\ _id d1 = c1 /\ _id d2 = c2)
    /\ nextId s' = (nextId s + 2)%N
    /\ (nextId s <= c1 < nextId s')%N /\ (nextId s <= c2 < nextId s')%N.
Proof.
  intros HP Htgt H1 H2 Hn1 Hn2.
  assert (HI : replies_invariant pid (ref P) (refType P) (commentsIndex P)
                 (children P) (nextId s) s Reading Reading).
  { exists P, tgt. simpl. repeat split; try done.
    - lia.
    - by rewrite app_nil_r.
    - lia.
    - set_solver.
    - set_solver.
    - set_solver.
    - apply NoDup_nil. done. }
  destruct (interleaved_replies_finish pid (ref P) (refType P)
              (commentsIndex P) (children P) (nextId s)
              schedule p1 p2 n1 n2 Reading Reading s H1 H2 HI Hn1 Hn2)
    as (r1 & r2 & s' & c1 & c2 & Hrun & HI' & _ & _).
  destruct HI' as (P' & tgt' & HP' & _ & _ & _ & Hidx & Hch & Hnid & Hrng
                   & Hnd).
  simpl in *.
  exists r1, r2, s', P', c1, c2.
  split; [done|]. split; [done|]. split; [lia|]. split; [done|].
  split; [rewrite Hch; set_solver|]. split; [rewrite Hch; set_solver|].
  split.
  { apply NoDup_cons in Hnd as [Hnotin _]. set_solver. }
  destruct (Hrng c1 ltac:(set_solver)) as [Hc1 (d1 & Hd1 & Hid1)].
  destruct (Hrng c2 ltac:(set_solver)) as [Hc2 (d2 & Hd2 & Hid2)].
  split; [by exists d1, d2|]. split; [lia|]. done.
Qed.

(** C4. Two replies to the same parent [P], run concurrently under any
    interleaving of their turns that lets both finish: both complete,
    [P.commentsIndex] has grown by exactly 2, and [P.children] is the old
    list plus the ids of the two new children (distinct, both present):
    no increment and no entry is lost, since each reply sends its push
    and its increment as one update. *)
Theorem concurrent_replies_lose_nothing (svc : Collaborators) (s : Store)
    (pid : ObjectId) (P : Comment) (tgt : Article)
    (body1 body2 : PartialComment) (author1 author2 : option string)
    (isMaster1 isMaster2 : bool) (ip1 ip2 : IpRecord)
    (schedule : list nat) :
  find_comment pid (comments s) = Some P ->
  find_article (ref P) (collection_of (refType P) s) = Some tgt ->
  passes_author_check svc isMaster1 author1 ->
  passes_author_check svc isMaster2 author2 ->
  (reply_turns isMaster1 <= turns_of 0 schedule)%nat ->
  (reply_turns isMaster2 <= turns_of 1 schedule)%nat ->
  exists r1 r2 s' P' c1 c2,
    interleave schedule
      ([CommentsController.replyByCid svc pid body1 author1 isMaster1 ip1;
        CommentsController.replyByCid svc pid body2 author2 isMaster2 ip2],
       s)
    = ([Return r1; Return r2], s')
    /\ find_comment pid (comments s') = Some P'
    /\ commentsIndex P' = commentsIndex P + 2
    /\ children P' ≡ₚ children P ++ [c1; c2]
    /\ c1 ∈ children P' /\ c2 ∈ children P' /\ c1 <> c2
    /\ (exists d1 d2, d1 ∈ comments s' /\ d2 ∈ comments s'
                      /\ _id d1 = c1 /\ _id d2 = c2)
    /\ nextId s' = (nextId s + 2)%N
    /\ (nextId s <= c1 < nextId s')%N /\ (nextId s <= c2 < nextId s')%N.
Proof.
  intros HP Htgt Ha1 Ha2 Hn1 Hn2.
  eapply two_replies_lose_nothing; eauto using replyByCid_replies_in.
Qed.

Lemma concurrent_replies_lose_nothing_witness :
  exists r1 r2 s' P',
    interleave [0; 1; 1; 0; 0; 1; 0; 1; 1; 0; 0; 0; 1]%nat
      ([CommentsController.replyByCid Sample.svc 2%N Sample.body_B
          (Some "B") false Sample.ip;
        CommentsController.replyByCid Sample.svc 2%N Sample.body_B
          None true Sample.ip],
       Sample.store)
    = ([Return r1; Return r2], s')
    /\ find_comment 2%N (comments s') = Some P'
    /\ commentsIndex P' = 2.
Proof.
  destruct (concurrent_replies_lose_nothing Sample.svc Sample.store 2%N
              Sample.root Sample.closed_post Sample.body_B Sample.body_B
              (Some "B") None false true Sample.ip Sample.ip
              [0; 1; 1; 0; 0; 1; 0; 1; 1; 0; 0; 0; 1]%nat
              eq_refl eq_refl (or_intror eq_refl) (or_introl eq_refl)
              ltac:(vm_compute; lia) ltac:(vm_compute; lia))
    as (r1 & r2 & s' & P' & c1 & c2 & Hrun & HP' & Hidx & _).
  exists r1, r2, s', P'. repeat split; assumption.
Defined.

(** The same for two replies through the older controller. *)
Lemma legacy_concurrent_replies_lose_nothing (svc : Collaborators)
    (s : Store) (pid : ObjectId) (P : Comment) (tgt : Article)
    (body1 body2 : PartialComment) (author1 author2 : option string)
    (isMaster1 isMaster2 : bool) (ip1 ip2 : IpRecord)
    (schedule : list nat) :
  find_comment pid (comments s) = Some P ->
  find_article (ref P) (collection_of (refType P) s) = Some tgt ->
  passes_author_check svc isMaster1 author1 ->
  passes_author_check svc isMaster2 author2 ->
  (legacy_reply_turns isMaster1 <= turns_of 0 schedule)%nat ->
  (legacy_reply_turns isMaster2 <= turns_of 1 schedule)%nat ->
  exists r1 r2 s' P' c1 c2,
    interleave schedule
      ([LegacyCommentsController.replyByCid svc pid body1 author1 isMaster1
          ip1;
        LegacyCommentsController.replyByCid svc pid body2 author2 isMaster2
          ip2],
       s)
    = ([Return r1; Return r2], s')
    /\ find_comment pid (comments s') = Some P'
    /\ commentsIndex P' = commentsIndex P + 2
    /\ children P' ≡ₚ children P ++ [c1; c2]
    /\ c1 ∈ children P' /\ c2 ∈ children P' /\ c1 <> c2
    /\ (exists d1 d2, d1 ∈ comments s' /\ d2 ∈ comments s'
                      /\ _id d1 = c1 /\ _id d2 = c2)
    /\ nextId s' = (nextId s + 2)%N
    /\ (nextId s <= c1 < nextId s')%N /\ (nextId s <= c2 < nextId s')%N.
Proof.
  intros HP Htgt Ha1 Ha2 Hn1 Hn2.
  eapply two_replies_lose_nothing; eauto using legacy_replyByCid_replies_in.
Qed.

Lemma legacy_concurrent_replies_lose_nothing_witness :
  exists r1 r2 s' P',
    interleave [1; 0; 0; 1; 1; 0; 1; 0; 1; 0]%nat
      ([LegacyCommentsController.replyByCid Sample.svc 2%N Sample.body_B
          (Some "B") false Sample.ip;
        LegacyCommentsController.replyByCid Sample.svc 2%N Sample.body_B
          (Some "B") false Sample.ip],
       Sample.store)
    = ([Return r1; Return r2], s')
    /\ find_comment 2%N (comments s') = Some P'
    /\ commentsIndex P' = 2.
Proof.
  destruct (legacy_concurrent_replies_lose_nothing Sample.svc Sample.store
              2%N Sample.root Sample.closed_post Sample.body_B Sample.body_B
              (Some "B") (Some "B") false false Sample.ip Sample.ip
              [1; 0; 0; 1; 1; 0; 1; 0; 1; 0]%nat
              eq_refl eq_refl (or_intror eq_refl) (or_intror eq_refl)
              ltac:(vm_compute; lia) ltac:(vm_compute; lia))
    as (r1 & r2 & s' & P' & c1 & c2 & Hrun & HP' & Hidx & _).
  exists r1, r2, s', P'. repeat split; assumption.
Defined.

(** One request run turn by turn, alone, ends as [run] says. *)
Lemma run_step {A} (p : Async A) (s : Store) :
  run p s = run (step p s).1 (step p s).2.
Proof.
  destruct p as [a|e|X op k]; simpl; try done.
  by destruct (op s) as [[e|x] s'].
Qed.

(** The keys of two concurrent replies are not protected in the same
    way: when both look the parent up before either has updated it, both
    children get the same key. *)
Lemma concurrent_replies_may_share_a_key :
  let w := interleave [0; 1; 0; 1; 0; 1; 0; 1; 0; 1; 0; 1; 0]%nat
             ([CommentsController.replyByCid Sample.svc 2%N Sample.body_B
                 (Some "B") false Sample.ip;
               CommentsController.replyByCid Sample.svc 2%N Sample.body_B
                 (Some "B") false Sample.ip],
              Sample.store) in
  (key <$> comments w.2) = ["2"; "2#0"; "2#0"]
  /\ (commentsIndex <$> find_comment 2%N (comments w.2)) = Some 2
  /\ (children <$> find_comment 2%N (comments w.2)) = Some [3%N; 4%N].
Proof. vm_compute. done. Qed.

(** ** Ids and the counter *)

Lemma update_first_elem {A} (p : A -> bool) (f : A -> A) (l : list A) (y : A) :
  y ∈ update_first p f l -> y ∈ l \/ exists x, x ∈ l /\ y = f x.
Proof.
  induction l as [|x l IH]; simpl; [set_solver|].
  destruct (p x).
  - intros Hy. apply elem_of_cons in Hy as [->|Hy].
    + right. exists x. set_solver.
    + left. set_solver.
  - intros Hy. apply elem_of_cons in Hy as [->|Hy]; [set_solver|].
    destruct (IH Hy) as [H|(x' & Hx' & ->)]; [set_solver|].
    right. exists x'. set_solver.
Qed.

(** A reply keeps the children of every comment below the counter, as
    long as the payload does not bring children of its own from above
    it; so in a store built by such replies the generated id is always
    new to the parent's children. *)
Lemma reply_keeps_children_below_counter (svc : Collaborators)
    (s s' : Store) (id : ObjectId) (body : PartialComment)
    (author : option string) (isMaster : bool) (ipLocation : IpRecord)
    (P : Comment) (r : ReplyResponse) :
  children_below_counter s ->
  Forall (fun i => (i < nextId s)%N) (default [] (o_children body)) ->
  find_comment id (comments s) = Some P ->
  run (CommentsController.replyByCid svc id body author isMaster ipLocation) s
    = (inr r, s') ->
  (nextId s ∉ children P) /\ children_below_counter s'.
Proof.
  intros Hinv Hbody HP Hrun.
  destruct (find_comment_Some _ _ _ HP) as [_ HPin].
  split.
  { intros Hin. pose proof (Hinv P HPin) as HF.
    rewrite Forall_forall in HF. specialize (HF _ Hin). lia. }
  destruct (replyByCid_success_inv svc s s' id body author isMaster
              ipLocation P r HP (or_introl Hrun)) as [Hauth [t Ht]].
  rewrite (replyByCid_run svc s id body author isMaster ipLocation P t
             Hauth HP Ht) in Hrun.
  injection Hrun as _ <-.
  intros c Hc. simpl in *.
  assert (Hmono : forall l : list ObjectId,
            Forall (fun i => (i < nextId s)%N) l ->
            Forall (fun i => (i < N.succ (nextId s))%N) l).
  { intros l Hl. eapply Forall_impl; [exact Hl|]. intros i Hi. simpl in *. lia. }
  apply elem_of_app in Hc as [Hc|Hc].
  - apply update_first_elem in Hc as [Hc|(x & Hx & ->)].
    + apply Hmono. by apply Hinv.
    + simpl. apply Forall_app. split; [apply Hmono; by apply Hinv|].
      apply Forall_singleton. lia.
  - apply list_elem_of_singleton in Hc as ->. simpl. by apply Hmono.
Qed.

Lemma reply_keeps_children_below_counter_witness :
  nextId Sample.store ∉ children Sample.root.
Proof.
  refine (proj1 (reply_keeps_children_below_counter Sample.svc Sample.store
                   _ 2%N Sample.body_B (Some "B") false Sample.ip
                   Sample.root _ _ _ eq_refl eq_refl)).
  - intros c Hc. apply list_elem_of_singleton in Hc as ->. simpl.
    apply Forall_nil. done.
  - simpl. apply Forall_nil. done.
Defined.

(** ** The scenario of the specification *)

(** Target T1 allows comments; a comment C1 on it is a thread root with
    [key = C1.id] and index 0; a reply to C1 gets key [C1.id + "#0"], and
    afterwards C1 has index 1 and the reply as its only child. *)
Example thread_scenario :
  let T1 := mkArticle 1%N false None true (mkDate 2020 5 1) in
  let s0 := mkStore [] [T1] [] 2%N [] in
  let body_A := mkPartial None None None None None None None
                          (Some "A") (Some "hi") None None None in
  let out1 := run (CommentsController.comment Sample.svc 1%N body_A
                     (Some "A") false Sample.ip (Some Post)) s0 in
  let out2 := run (CommentsController.replyByCid Sample.svc 2%N Sample.body_B
                     (Some "B") false Sample.ip) out1.2 in
  ((fun c => (_id c, parent c, key c, commentsIndex c)) <$> stored_last out1)
    = Some (2%N, None, "2", 0)
  /\ (key <$> stored_last out2) = Some "2#0"
  /\ ((fun c => (commentsIndex c, children c))
        <$> find_comment 2%N (comments out2.2)) = Some (1, [3%N]).
Proof. vm_compute. done. Qed.

(** ** Comment ids stay unique *)

Section Keeps.

Context (I : Store -> Prop).

Lemma keeps_abind {A B} (p : Async A) (f : A -> Async B) :
  keeps I p -> (forall a, keeps I (f a)) -> keeps I (abind p f).
Proof.
  intros Hp Hf. induction p as [a|e|X op k IH]; simpl; [apply Hf | done |].
  destruct Hp as [Hop Hk]. split; [done|]. intros x. apply IH, Hk.
Qed.

Lemma keeps_atomic {X} (op : Atomic X) :
  (forall s, I s -> I (op s).2) -> keeps I (atomic op).
Proof. intros H. simpl. done. Qed.

Lemma keeps_catch_rethrow {A} (p : Async A) (e : Exception) :
  keeps I p -> keeps I (catch_rethrow p e).
Proof.
  induction p as [a|e'|X op k IH]; simpl; [done | done |].
  intros [Hop Hk]. split.
  - intros s Hs. specialize (Hop s Hs). by destruct (op s) as [[?|?] ?].
  - intros x. apply IH, Hk.
Qed.

(** A request that keeps [I] at every operation keeps it over a whole
    run of its own ... *)
Lemma keeps_run {A} (p : Async A) (s : Store) :
  keeps I p -> I s -> I (run p s).2.
Proof.
  revert s. induction p as [a|e|X op k IH]; simpl; intros s Hp Hs;
    [done | done |].
  destruct Hp as [Hop Hk]. specialize (Hop s Hs).
  destruct (op s) as [[e|x] s']; simpl in *; [done|]. by apply IH.
Qed.

Lemma keeps_step {A} (p : Async A) (s : Store) :
  keeps I p -> I s -> keeps I (step p s).1 /\ I (step p s).2.
Proof.
  destruct p as [a|e|X op k]; simpl; intros Hp Hs; [done | done |].
  destruct Hp as [Hop Hk]. specialize (Hop s Hs).
  destruct (op s) as [[e|x] s']; simpl in *; [done|]. split; [apply Hk | done].
Qed.

(** ... and so do any number of such requests under any schedule. *)
Lemma keeps_interleave {A} (schedule : list nat) (pool : list (Async A))
    (s : Store) :
  Forall (keeps I) pool -> I s ->
  Forall (keeps I) (interleave schedule (pool, s)).1
  /\ I (interleave schedule (pool, s)).2.
Proof.
  revert pool s. induction schedule as [|i schedule IH]; intros pool s Hp Hs;
    [done|].
  rewrite interleave_cons. unfold turn. simpl.
  destruct (pool !! i) as [p|] eqn:Hi; [|by apply IH].
  pose proof (proj1 (Forall_lookup _ _) Hp i p Hi) as Hkp.
  destruct (keeps_step p s Hkp Hs) as [Hp' Hs'].
  destruct (step p s) as [p' s']. simpl in *.
  apply IH; [|done]. by apply Forall_insert.
Qed.

End Keeps.

Lemma fmap_id_update_first (p : Comment -> bool) (f : Comment -> Comment)
    (cs : list Comment) :
  (forall c, _id (f c) = _id c) ->
  _id <$> update_first p f cs = _id <$> cs.
Proof.
  intros Hf. induction cs as [|c cs IH]; csimpl; [done|].
  destruct (p c); csimpl; [by rewrite Hf | by rewrite IH].
Qed.

Lemma ids_unique_same_comments (s s' : Store) :
  comments s' = comments s -> nextId s' = nextId s ->
  ids_unique s -> ids_unique s'.
Proof. unfold ids_unique. by intros -> ->. Qed.

Lemma ids_unique_inserted (c : Comment) (s : Store) :
  _id c = nextId s -> ids_unique s -> ids_unique (inserted c s).
Proof.
  intros Hc [Hnd Hlt]. unfold ids_unique, inserted. simpl. split.
  - rewrite fmap_app. simpl. apply NoDup_app. split; [done|].
    split; [|apply NoDup_singleton].
    intros i Hi Hi'. apply list_elem_of_singleton in Hi' as ->.
    apply list_elem_of_fmap in Hi as (d & Hd & Hin).
    rewrite Forall_forall in Hlt. specialize (Hlt d Hin). lia.
  - apply Forall_app. split.
    + eapply Forall_impl; [exact Hlt|]. intros d Hd. simpl in *. lia.
    + apply Forall_singleton. lia.
Qed.

Lemma ids_unique_update_first (p : Comment -> bool) (u : CommentUpdate)
    (s : Store) :
  ids_unique s ->
  ids_unique (with_comments (update_first p (apply_update u) (comments s)) s).
Proof.
  intros [Hnd Hlt]. unfold ids_unique, with_comments. simpl. split.
  - by rewrite fmap_id_update_first.
  - rewrite Forall_forall in *. intros d Hd.
    apply update_first_elem in Hd as [Hd|(x & Hx & ->)]; [by apply Hlt|].
    simpl. by apply Hlt.
Qed.

Lemma elem_of_List_filter {A} (p : A -> bool) (l : list A) (x : A) :
  x ∈ List.filter p l <-> x ∈ l /\ p x = true.
Proof. rewrite !list_elem_of_In. apply filter_In. Qed.

Lemma ids_unique_filter (p : Comment -> bool) (s : Store) :
  ids_unique s -> ids_unique (with_comments (List.filter p (comments s)) s).
Proof.
  intros [Hnd Hlt]. unfold ids_unique, with_comments. simpl. split.
  - induction (comments s) as [|c cs IH]; [done|].
    csimpl in *. apply NoDup_cons in Hnd as [Hc Hnd].
    apply Forall_cons in Hlt as [_ Hlt].
    destruct (p c); csimpl; [|by apply IH].
    apply NoDup_cons. split; [|by apply IH].
    intros Hin. apply Hc.
    apply list_elem_of_fmap in Hin as (d & -> & Hd).
    apply elem_of_List_filter in Hd as [Hd _].
    by apply list_elem_of_fmap_2.
  - rewrite Forall_forall in *. intros d Hd.
    apply elem_of_List_filter in Hd as [Hd _]. by apply Hlt.
Qed.

Section IdsUnique.

Context (svc : Collaborators).

Local Abbreviation K := (keeps ids_unique).

Lemma keeps_read {X} (f : Store -> X) : K (read f).
Proof. apply keeps_atomic. done. Qed.

Lemma keeps_emit (e : Effect) : K (emit e).
Proof.
  apply keeps_atomic. intros s. by apply ids_unique_same_comments.
Qed.

Lemma keeps_createNew (m : PartialComment) : K (createNew m).
Proof.
  unfold createNew.
  destruct (o_ref m), (o_refType m), (o_key m); try done.
  apply keeps_atomic. intros st. by apply ids_unique_inserted.
Qed.

Lemma keeps_updateOne (doc : Comment) (u : CommentUpdate) :
  K (updateOne doc u).
Proof. apply keeps_atomic. intros s. apply ids_unique_update_first. Qed.

Lemma keeps_updateAsync (q : Query) (u : CommentUpdate) :
  K (updateAsync q u).
Proof. apply keeps_atomic. intros s. apply ids_unique_update_first. Qed.

Lemma keeps_comment_deleteMany (q : Query) : K (comment_deleteMany q).
Proof. apply keeps_atomic. intros s. apply ids_unique_filter. Qed.

Lemma keeps_post_deleteOne (q : Query) : K (post_deleteOne q).
Proof.
  apply keeps_atomic. intros s. by apply ids_unique_same_comments.
Qed.

Lemma keeps_author_check (isMaster : bool) (author : option string) :
  K (if negb isMaster then CommentsService.ValidAuthorName svc author
     else Return tt).
Proof.
  destruct isMaster; simpl; [done|]. split; [|done].
  intros s Hs. by destruct (accepts_author svc author).
Qed.

Lemma keeps_createComment (id : ObjectId) (type : CommentRefTypes)
    (doc : PartialComment) :
  K (CommentsService.createComment id type doc).
Proof.
  unfold CommentsService.createComment.
  apply keeps_abind; [apply keeps_read|]. intros [t|]; [|done].
  apply keeps_atomic. intros s.
  apply (ids_unique_inserted
           {| _id := nextId s; ref := id; refType := type; parent := None;
              children := default [] (o_children doc);
              commentsIndex := default 0 (o_commentsIndex doc);
              key := oid_string (nextId s);
              state := default Unread (o_state doc);
              author := o_author doc; text := o_text doc;
              mail := o_mail doc; url := o_url doc; ip := o_ip doc |}).
  done.
Qed.

Lemma keeps_comment (id : ObjectId) (body : PartialComment)
    (author : option string) (isMaster : bool) (ipLocation : IpRecord)
    (refKind : option CommentRefTypes) :
  K (CommentsController.comment svc id body author isMaster ipLocation
       refKind).
Proof.
  unfold CommentsController.comment.
  apply keeps_abind; [apply keeps_author_check|]. intros _.
  apply keeps_abind; [apply keeps_read|]. intros allowed.
  destruct (negb allowed && negb Master_truthy); [done|].
  apply keeps_abind; [apply keeps_createComment | done].
Qed.

Lemma keeps_comment_detached (isMaster : bool) (c : Comment) :
  K (CommentsController.comment_detached svc isMaster c).
Proof.
  unfold CommentsController.comment_detached.
  destruct (checkSpam svc c).
  - apply keeps_abind; [apply keeps_updateOne | done].
  - destruct isMaster; simpl negb; cbv iota; [done|].
    apply keeps_abind; [apply keeps_emit|]. intros _. apply keeps_emit.
Qed.

Lemma keeps_replyByCid (id : ObjectId) (body : PartialComment)
    (author : option string) (isMaster : bool) (ipLocation : IpRecord) :
  K (CommentsController.replyByCid svc id body author isMaster ipLocation).
Proof.
  unfold CommentsController.replyByCid.
  apply keeps_abind; [apply keeps_author_check|]. intros _.
  apply keeps_abind; [apply keeps_read|]. intros [P|]; [|done].
  apply keeps_abind; [apply keeps_read|]. intros [t|]; [|done].
  apply keeps_abind; [apply keeps_createNew|]. intros c.
  apply keeps_abind; [apply keeps_updateOne|]. intros _.
  apply keeps_abind; [|done].
  destruct isMaster; [apply keeps_emit|].
  apply keeps_abind; [apply keeps_emit|]. intros _. apply keeps_emit.
Qed.

Lemma keeps_legacy_comment (id : ObjectId) (body : PartialComment)
    (author : option string) (isMaster : bool) (ipLocation : IpRecord)
    (refKind : option CommentRefTypes) :
  K (LegacyCommentsController.comment svc id body author isMaster ipLocation
       refKind).
Proof.
  unfold LegacyCommentsController.comment.
  apply keeps_abind; [apply keeps_author_check|]. intros _.
  apply keeps_catch_rethrow.
  apply keeps_abind; [apply keeps_createComment | done].
Qed.

Lemma keeps_legacy_replyByCid (id : ObjectId) (body : PartialComment)
    (author : option string) (isMaster : bool) (ipLocation : IpRecord) :
  K (LegacyCommentsController.replyByCid svc id body author isMaster
       ipLocation).
Proof.
  unfold LegacyCommentsController.replyByCid.
  apply keeps_abind; [apply keeps_author_check|]. intros _.
  apply keeps_abind; [apply keeps_read|]. intros [P|]; [|done].
  apply keeps_abind; [apply keeps_read|]. intros [t|]; [|done].
  apply keeps_abind; [apply keeps_createNew|]. intros c.
  apply keeps_abind; [apply keeps_updateOne | done].
Qed.

Lemma keeps_modifyCommentState (id : ObjectId) (st : CommentState) :
  K (CommentsController.modifyCommentState id st).
Proof. apply keeps_catch_rethrow, keeps_updateAsync. Qed.

Lemma keeps_deletePost (id : ObjectId) : K (PostsController.deletePost id).
Proof.
  unfold PostsController.deletePost, PostsService.deletePost.
  apply keeps_abind.
  - apply keeps_abind; [apply keeps_post_deleteOne|]. intros r.
    apply keeps_abind; [apply keeps_comment_deleteMany | done].
  - intros _. apply keeps_abind; [apply keeps_emit | done].
Qed.

Lemma keeps_serve (r : Request) : K (serve svc r).
Proof.
  destruct r; unfold serve, discard,
    CommentsController.commentByMaster, CommentsController.replyByMaster.
  - apply keeps_abind; [apply keeps_comment|]. intros c.
    apply keeps_comment_detached.
  - apply keeps_abind; [apply keeps_replyByCid | done].
  - apply keeps_abind; [apply keeps_legacy_comment | done].
  - apply keeps_abind; [apply keeps_legacy_replyByCid | done].
  - apply keeps_abind; [apply keeps_comment|]. intros c.
    apply keeps_comment_detached.
  - apply keeps_abind; [apply keeps_replyByCid | done].
  - apply keeps_abind; [apply keeps_modifyCommentState | done].
  - apply keeps_abind; [apply keeps_deletePost | done].
Qed.

End IdsUnique.

(** Whatever comment, reply, moderation and post-deletion requests are
    served, in whatever number and under whatever interleaving of their
    turns, and whether they succeed or fail: the [_id]s of the stored
    comments stay pairwise distinct and below the id counter.  (Even a
    payload that names ids of its own cannot break this: [_id] is always
    generated.) *)
Theorem comment_ids_stay_unique (svc : Collaborators)
    (requests : list Request) (schedule : list nat) (s : Store) :
  ids_unique s ->
  ids_unique (interleave schedule (serve svc <$> requests, s)).2.
Proof.
  intros Hs. apply keeps_interleave; [|done].
  apply Forall_fmap, Forall_forall. intros r _. apply keeps_serve.
Qed.

Lemma comment_ids_stay_unique_witness :
  ids_unique
    (interleave [0; 1; 2; 1; 0; 2; 0; 1; 1; 0; 2; 0; 1; 0; 1; 0; 1]%nat
       (serve Sample.svc
          <$> [ReqReply 2%N Sample.body_B (Some "B") false Sample.ip;
               ReqComment 1%N Sample.body_B (Some "B") false Sample.ip None;
               ReqDeletePost 1%N],
        Sample.store)).2.
Proof.
  apply comment_ids_stay_unique. split.
  - simpl. apply NoDup_singleton.
  - simpl. apply Forall_singleton. simpl. lia.
Defined.

(** ** The index counts the children *)

Section IndexCountsChildren.

Context (svc : Collaborators).

Local Abbreviation K := (keeps index_counts_children).

Lemma index_counts_same_comments (s s' : Store) :
  comments s' = comments s ->
  index_counts_children s -> index_counts_children s'.
Proof. unfold index_counts_children. by intros ->. Qed.

Lemma index_counts_inserted (c : Comment) (s : Store) :
  children c = [] -> commentsIndex c = 0 ->
  index_counts_children s -> index_counts_children (inserted c s).
Proof.
  intros Hch Hidx Hs. unfold index_counts_children, inserted. simpl.
  apply Forall_app. split; [done|]. apply Forall_singleton.
  by rewrite Hch, Hidx.
Qed.

Lemma index_counts_update_first (p : Comment -> bool) (u : CommentUpdate)
    (s : Store) :
  balanced u ->
  index_counts_children s ->
  index_counts_children
    (with_comments (update_first p (apply_update u) (comments s)) s).
Proof.
  intros Hu Hs. unfold index_counts_children, with_comments in *. simpl.
  rewrite Forall_forall in *. intros d Hd.
  apply update_first_elem in Hd as [Hd|(x & Hx & ->)]; [by apply Hs|].
  specialize (Hs x Hx). simpl.
  destruct Hu as [[-> ->] | [[c ->] ->]]; [done|].
  rewrite length_app. simpl. lia.
Qed.

Lemma index_counts_filter (p : Comment -> bool) (s : Store) :
  index_counts_children s ->
  index_counts_children (with_comments (List.filter p (comments s)) s).
Proof.
  unfold index_counts_children, with_comments. simpl.
  rewrite !Forall_forall. intros Hs d Hd.
  apply elem_of_List_filter in Hd as [Hd _]. by apply Hs.
Qed.

Lemma counts_read {X} (f : Store -> X) : K (read f).
Proof. apply keeps_atomic. done. Qed.

Lemma counts_emit (e : Effect) : K (emit e).
Proof.
  apply keeps_atomic. intros s. by apply index_counts_same_comments.
Qed.

Lemma counts_createNew (m : PartialComment) :
  plain_body m -> K (createNew m).
Proof.
  intros [Hch Hidx]. unfold createNew.
  destruct (o_ref m), (o_refType m), (o_key m); try done.
  apply keeps_atomic. intros st. apply index_counts_inserted; simpl.
  - by rewrite Hch.
  - by rewrite Hidx.
Qed.

Lemma counts_updateOne (doc : Comment) (u : CommentUpdate) :
  balanced u -> K (updateOne doc u).
Proof.
  intros Hu. apply keeps_atomic. intros s.
  by apply index_counts_update_first.
Qed.

Lemma counts_author_check (isMaster : bool) (author : option string) :
  K (if negb isMaster then CommentsService.ValidAuthorName svc author
     else Return tt).
Proof.
  destruct isMaster; simpl; [done|]. split; [|done].
  intros s Hs. by destruct (accepts_author svc author).
Qed.

Lemma counts_createComment (id : ObjectId) (type : CommentRefTypes)
    (doc : PartialComment) :
  plain_body doc -> K (CommentsService.createComment id type doc).
Proof.
  intros [Hch Hidx]. unfold CommentsService.createComment.
  apply keeps_abind; [apply counts_read|]. intros [t|]; [|done].
  apply keeps_atomic. intros s. rewrite Hch, Hidx.
  by apply (index_counts_inserted
              {| _id := nextId s; ref := id; refType := type; parent := None;
                 children := []; commentsIndex := 0;
                 key := oid_string (nextId s);
                 state := default Unread (o_state doc);
                 author := o_author doc; text := o_text doc;
                 mail := o_mail doc; url := o_url doc; ip := o_ip doc |}).
Qed.

Lemma plain_body_with_ip (body : PartialComment) (ipLocation : IpRecord) :
  plain_body body -> plain_body (spread body (ipLocation_fields ipLocation)).
Proof. intros [H1 H2]. split; simpl; [by rewrite H1 | by rewrite H2]. Qed.

Lemma plain_master_model (user : User) (body : PartialComment) :
  plain_body body -> plain_body (CommentsController.master_model user body).
Proof. intros [H1 H2]. split; simpl; [by rewrite H1 | by rewrite H2]. Qed.

Lemma counts_comment (id : ObjectId) (body : PartialComment)
    (author : option string) (isMaster : bool) (ipLocation : IpRecord)
    (refKind : option CommentRefTypes) :
  plain_body body ->
  K (CommentsController.comment svc id body author isMaster ipLocation
       refKind).
Proof.
  intros Hb. unfold CommentsController.comment.
  apply keeps_abind; [apply counts_author_check|]. intros _.
  apply keeps_abind; [apply counts_read|]. intros allowed.
  destruct (negb allowed && negb Master_truthy); [done|].
  apply keeps_abind; [|done].
  by apply counts_createComment, plain_body_with_ip.
Qed.

Lemma counts_comment_detached (isMaster : bool) (c : Comment) :
  K (CommentsController.comment_detached svc isMaster c).
Proof.
  unfold CommentsController.comment_detached.
  destruct (checkSpam svc c).
  - apply keeps_abind; [|done]. apply counts_updateOne. by left.
  - destruct isMaster; simpl negb; cbv iota; [done|].
    apply keeps_abind; [apply counts_emit|]. intros _. apply counts_emit.
Qed.

Lemma plain_reply_model (P : Comment) (t : Article) (body : PartialComment)
    (ipLocation : IpRecord) (k : string) :
  plain_body body ->
  plain_body
    (spread
       (spread (spread (reply_head P t) body) (ipLocation_fields ipLocation))
       (key_field k)).
Proof. intros [H1 H2]. rewrite reply_model. by split. Qed.

Lemma counts_replyByCid (id : ObjectId) (body : PartialComment)
    (author : option string) (isMaster : bool) (ipLocation : IpRecord) :
  plain_body body ->
  K (CommentsController.replyByCid svc id body author isMaster ipLocation).
Proof.
  intros Hb. unfold CommentsController.replyByCid.
  apply keeps_abind; [apply counts_author_check|]. intros _.
  apply keeps_abind; [apply counts_read|]. intros [P|]; [|done].
  apply keeps_abind; [apply counts_read|]. intros [t|]; [|done].
  apply keeps_abind; [by apply counts_createNew, plain_reply_model|].
  intros c.
  apply keeps_abind; [apply counts_updateOne; right; by eauto|]. intros _.
  apply keeps_abind; [|done].
  destruct isMaster; [apply counts_emit|].
  apply keeps_abind; [apply counts_emit|]. intros _. apply counts_emit.
Qed.

Lemma counts_legacy_comment (id : ObjectId) (body : PartialComment)
    (author : option string) (isMaster : bool) (ipLocation : IpRecord)
    (refKind : option CommentRefTypes) :
  plain_body body ->
  K (LegacyCommentsController.comment svc id body author isMaster ipLocation
       refKind).
Proof.
  intros Hb. unfold LegacyCommentsController.comment.
  apply keeps_abind; [apply counts_author_check|]. intros _.
  apply keeps_catch_rethrow.
  apply keeps_abind; [|done].
  by apply counts_createComment, plain_body_with_ip.
Qed.

Lemma counts_legacy_replyByCid (id : ObjectId) (body : PartialComment)
    (author : option string) (isMaster : bool) (ipLocation : IpRecord) :
  plain_body body ->
  K (LegacyCommentsController.replyByCid svc id body author isMaster
       ipLocation).
Proof.
  intros Hb. unfold LegacyCommentsController.replyByCid.
  apply keeps_abind; [apply counts_author_check|]. intros _.
  apply keeps_abind; [apply counts_read|]. intros [P|]; [|done].
  apply keeps_abind; [apply counts_read|]. intros [t|]; [|done].
  apply keeps_abind; [by apply counts_createNew, plain_reply_model|].
  intros c.
  apply keeps_abind; [apply counts_updateOne; right; by eauto | done].
Qed.

Lemma counts_modifyCommentState (id : ObjectId) (st : CommentState) :
  K (CommentsController.modifyCommentState id st).
Proof.
  apply keeps_catch_rethrow, keeps_atomic. intros s.
  apply index_counts_update_first. by left.
Qed.

Lemma counts_deletePost (id : ObjectId) : K (PostsController.deletePost id).
Proof.
  unfold PostsController.deletePost, PostsService.deletePost.
  apply keeps_abind.
  - apply keeps_abind.
    + apply keeps_atomic. intros s. by apply index_counts_same_comments.
    + intros r. apply keeps_abind; [|done].
      apply keeps_atomic. intros s. apply index_counts_filter.
  - intros _. apply keeps_abind; [apply counts_emit | done].
Qed.

Lemma counts_serve (r : Request) : plain_request r -> K (serve svc r).
Proof.
  destruct r; unfold plain_request; simpl request_body; intros Hb;
    unfold serve, discard,
      CommentsController.commentByMaster, CommentsController.replyByMaster.
  - apply keeps_abind; [by apply counts_comment|]. intros c.
    apply counts_comment_detached.
  - apply keeps_abind; [by apply counts_replyByCid | done].
  - apply keeps_abind; [by apply counts_legacy_comment | done].
  - apply keeps_abind; [by apply counts_legacy_replyByCid | done].
  - apply keeps_abind;
      [by apply counts_comment, plain_master_model|]. intros c.
    apply counts_comment_detached.
  - apply keeps_abind;
      [by apply counts_replyByCid, plain_master_model | done].
  - apply keeps_abind; [apply counts_modifyCommentState | done].
  - apply keeps_abind; [apply counts_deletePost | done].
Qed.

End IndexCountsChildren.

(** Every comment's [commentsIndex] equals the number of its children,
    and stays so at every point of every interleaving of comment, reply,
    master, moderation and post-deletion requests, successful or not
    (payloads bringing no [children] or [commentsIndex] of their own):
    the push and the increment never come apart. *)
Theorem index_always_counts_children (svc : Collaborators)
    (requests : list Request) (schedule : list nat) (s : Store) :
  Forall plain_request requests ->
  index_counts_children s ->
  index_counts_children (interleave schedule (serve svc <$> requests, s)).2.
Proof.
  intros Hr Hs. apply keeps_interleave; [|done].
  apply Forall_fmap. eapply Forall_impl; [exact Hr|].
  intros r Hplain. by apply counts_serve.
Qed.

Lemma index_always_counts_children_witness :
  index_counts_children
    (interleave [0; 1; 2; 1; 0; 2; 0; 1; 1; 0; 2; 0; 1; 0; 1; 0; 1]%nat
       (serve Sample.svc
          <$> [ReqReply 2%N Sample.body_B (Some "B") false Sample.ip;
               ReqReply 2%N Sample.body_B None true Sample.ip;
               ReqModerate 2%N Junk],
        Sample.store)).2.
Proof.
  apply index_always_counts_children.
  - repeat (apply Forall_cons; split; [by split|]). apply Forall_nil. done.
  - apply Forall_singleton. reflexivity.
Defined.

(** ** Counting comments by state *)

Lemma comment_doc_lookup_state (c : Comment) :
  comment_doc c !! "state" = Some (VNum (CommentState_code (state c))).
Proof.
  destruct c as [? ? ? [?|] ? ? ? ? [?|] [?|] [?|] [?|] [?|]]; reflexivity.
Qed.

Lemma state_query_matches (st : CommentState) (c : Comment) :
  matches {[ "state" := QEq (VNum (CommentState_code st)) ]} (comment_doc c)
  = bool_decide (state c = st).
Proof.
  rewrite matches_singleton. simpl. rewrite comment_doc_lookup_state. simpl.
  apply bool_decide_ext. split.
  - intros [=E]. by destruct st, (state c).
  - by intros ->.
Qed.

Lemma count_if_ext {A} (p q : A -> bool) (l : list A) :
  (forall x, p x = q x) -> count_if p l = count_if q l.
Proof.
  intros E. unfold count_if. f_equal. f_equal.
  induction l as [|x l IH]; simpl; [done|]. by rewrite E, IH.
Qed.

Lemma count_if_cons {A} (p : A -> bool) (x : A) (l : list A) :
  count_if p (x :: l) = (if p x then 1 else 0) + count_if p l.
Proof. unfold count_if. simpl. destruct (p x); simpl length; lia. Qed.

Lemma getCommentsInfo_run (s : Store) :
  run LegacyCommentsController.getCommentsInfo s
  = (inr (LegacyCommentsController.mkInfo
            (in_state Read (comments s)) (in_state Junk (comments s))
            (in_state Unread (comments s))), s).
Proof.
  unfold LegacyCommentsController.getCommentsInfo, countDocument, in_state.
  simpl. do 2 f_equal. f_equal; apply count_if_ext; intros c.
  - apply (state_query_matches Read).
  - apply (state_query_matches Junk).
  - apply (state_query_matches Unread).
Qed.

Lemma in_state_total (cs : list Comment) :
  in_state Read cs + in_state Junk cs + in_state Unread cs
  = Z.of_nat (length cs).
Proof.
  unfold in_state. induction cs as [|c cs IH]; [done|].
  rewrite !count_if_cons. simpl length.
  destruct (state c); simpl; lia.
Qed.

(** The three counters of [getCommentsInfo] split the collection: every
    comment is counted by exactly one of them, so they add up to the
    number of comments; the handler never fails and writes nothing. *)
Lemma getCommentsInfo_counts_every_comment (s : Store) :
  exists info,
    run LegacyCommentsController.getCommentsInfo s = (inr info, s)
    /\ LegacyCommentsController.passed info
       + LegacyCommentsController.gomi info
       + LegacyCommentsController.needChecked info
       = Z.of_nat (length (comments s))
    /\ forall st, state_counter st info = in_state st (comments s).
Proof.
  eexists. split; [apply getCommentsInfo_run|]. simpl.
  split; [apply in_state_total|]. by intros [].
Qed.

Lemma in_state_update_first (id : ObjectId) (st st' : CommentState)
    (cs : list Comment) (c : Comment) :
  find_comment id cs = Some c ->
  in_state st'
    (update_first (fun d => bool_decide (_id d = id))
                  (apply_update (mkUpdate None None (Some st))) cs)
  = in_state st' cs
    + (if bool_decide (st = st') then 1 else 0)
    - (if bool_decide (state c = st') then 1 else 0).
Proof.
  unfold find_comment, in_state.
  induction cs as [|d cs IH]; simpl; [done|].
  destruct (bool_decide (_id d = id)) eqn:E.
  - intros [= ->]. rewrite !count_if_cons. simpl.
    repeat case_bool_decide; lia.
  - intros H. rewrite !count_if_cons, (IH H). lia.
Qed.

(** The three counters of [getCommentsInfo] split the collection, each
    comment being counted by the counter of its state, so they add up to
    the number of comments.  Moderating an existing comment moves exactly
    one unit between them: the counter of the new state gains one, the
    counter of the old state loses one, the third stays, and so does the
    sum. *)
Theorem moderation_moves_one_count (s : Store) (id : ObjectId) (c : Comment)
    (st : CommentState) :
  find_comment id (comments s) = Some c ->
  exists before r s' after,
    run LegacyCommentsController.getCommentsInfo s = (inr before, s)
    /\ run (LegacyCommentsController.modifyCommentState id st) s = (inr r, s')
    /\ run LegacyCommentsController.getCommentsInfo s' = (inr after, s')
    /\ (forall st',
          state_counter st' after
          = state_counter st' before
            + (if bool_decide (st = st') then 1 else 0)
            - (if bool_decide (state c = st') then 1 else 0))
    /\ (forall st', state_counter st' before = in_state st' (comments s))
    /\ LegacyCommentsController.passed before
       + LegacyCommentsController.gomi before
       + LegacyCommentsController.needChecked before
       = Z.of_nat (length (comments s))
    /\ LegacyCommentsController.passed after
       + LegacyCommentsController.gomi after
       + LegacyCommentsController.needChecked after
       = Z.of_nat (length (comments s)).
Proof.
  intros Hc. destruct (modifyCommentState_run s id st) as [r Hr].
  eexists _, r, _, _. split; [apply getCommentsInfo_run|].
  split; [exact Hr|]. split; [apply getCommentsInfo_run|].
  assert (E : forall st',
    in_state st' (update_first (fun d => bool_decide (_id d = id))
                    (apply_update (mkUpdate None None (Some st)))
                    (comments s))
    = in_state st' (comments s)
      + (if bool_decide (st = st') then 1 else 0)
      - (if bool_decide (state c = st') then 1 else 0)).
  { intros st'. by apply in_state_update_first. }
  split; [|split; [|split]].
  - intros st'. destruct st'; simpl; apply E.
  - by intros [].
  - apply in_state_total.
  - simpl. rewrite (E Read), (E Junk), (E Unread), <- in_state_total.
    destruct st, (state c); simpl; lia.
Qed.

Lemma moderation_moves_one_count_witness :
  exists before r s' after,
    run LegacyCommentsController.getCommentsInfo Sample.store
      = (inr before, Sample.store)
    /\ run (LegacyCommentsController.modifyCommentState 2%N Junk) Sample.store
       = (inr r, s')
    /\ run LegacyCommentsController.getCommentsInfo s' = (inr after, s')
    /\ state_counter Junk after = state_counter Junk before + 1
    /\ state_counter Unread after = state_counter Unread before - 1
    /\ state_counter Read after = state_counter Read before.
Proof.
  destruct (moderation_moves_one_count Sample.store 2%N Sample.root Junk
              eq_refl) as (b & r & s' & a & H1 & H2 & H3 & H4 & _).
  exists b, r, s', a. split; [exact H1|]. split; [exact H2|].
  split; [exact H3|].
  split; [|split]; rewrite H4; simpl; lia.
Defined.

(** ** The parent's state after a reply *)

(** After a successful reply the parent is Read if the stored child is
    Read, and keeps its state otherwise, whatever that state was (a Junk
    parent answered by a Read child becomes Read); the older controller
    never changes the parent's state. *)
Theorem reply_parent_state (svc : Collaborators) (s : Store)
    (id : ObjectId) (body : PartialComment) (author : option string)
    (isMaster : bool) (ipLocation : IpRecord) (P : Comment) (t : Article) :
  passes_author_check svc isMaster author ->
  find_comment id (comments s) = Some P ->
  find_article (ref P) (collection_of (refType P) s) = Some t ->
  (exists r s' P',
     run (CommentsController.replyByCid svc id body author isMaster
            ipLocation) s = (inr r, s')
     /\ find_comment id (comments s') = Some P'
     /\ state P' = if bool_decide (default Unread (o_state body) = Read)
                   then Read else state P)
  /\ (exists r s' P',
        run (LegacyCommentsController.replyByCid svc id body author isMaster
               ipLocation) s = (inr r, s')
        /\ find_comment id (comments s') = Some P'
        /\ state P' = state P).
Proof.
  intros Hauth HP Ht. split.
  - eexists _, _, _. split; [by apply (replyByCid_run svc s id)|]. simpl.
    split.
    { rewrite find_comment_app.
      rewrite find_comment_update_first by apply apply_update_id.
      rewrite HP. reflexivity. }
    simpl. repeat case_bool_decide; simpl; congruence.
  - eexists _, _, _.
    split; [by apply (legacy_replyByCid_run svc s id)|]. simpl.
    split.
    { rewrite find_comment_app.
      rewrite find_comment_update_first by apply apply_update_id.
      rewrite HP. reflexivity. }
    reflexivity.
Qed.

Lemma reply_parent_state_witness :
  exists r s' P',
    run (CommentsController.replyByCid Sample.svc 2%N Sample.body_B
           (Some "B") false Sample.ip) Sample.store = (inr r, s')
    /\ find_comment 2%N (comments s') = Some P'
    /\ state P' = Unread.
Proof.
  exact (proj1 (reply_parent_state Sample.svc Sample.store 2%N Sample.body_B
                  (Some "B") false Sample.ip Sample.root Sample.closed_post
                  (or_intror eq_refl) eq_refl eq_refl)).
Defined.

(** The master's reply route never asks the author check, whatever name
    the user or the body carries; the stored child is Read and carries the
    user's mail and url, which the body cannot replace, and the user's name
    unless the body brings an author; the parent ends Read whatever its
    state was; only the guest mail goes out, and nothing is broadcast. *)
Theorem master_reply_marks_parent_read (svc : Collaborators) (s : Store)
    (user : User) (id : ObjectId) (body : PartialComment)
    (ipLocation : IpRecord) (P : Comment) (t : Article) :
  find_comment id (comments s) = Some P ->
  find_article (ref P) (collection_of (refType P) s) = Some t ->
  exists r s' child P',
    run (CommentsController.replyByMaster svc user id body ipLocation) s
      = (inr r, s')
    /\ last (comments s') = Some child
    /\ state child = Read
    /\ mail child = Some (user_mail user)
    /\ url child = Some (user_url user)
    /\ author child = Some (default (name user) (o_author body))
    /\ text child = o_text body
    /\ find_comment id (comments s') = Some P'
    /\ state P' = Read
    /\ outbox s' = outbox s ++ [SendEmail (_id child) Guest].
Proof.
  intros HP Ht. unfold CommentsController.replyByMaster.
  eexists _, _, _, _.
  split; [apply (replyByCid_run svc s id _ None true ipLocation P t);
          [by left | done | done]|].
  simpl. split; [apply last_snoc_Some|]. simpl.
  split; [done|]. split; [by destruct (o_mail body)|].
  split; [by destruct (o_url body)|].
  split; [by destruct (o_author body)|].
  split; [by destruct (o_text body)|].
  split.
  { rewrite find_comment_app.
    rewrite find_comment_update_first by apply apply_update_id.
    rewrite HP. reflexivity. }
  split; [|done]. simpl. by repeat case_bool_decide.
Qed.

Lemma master_reply_marks_parent_read_witness :
  exists r s' child P',
    run (CommentsController.replyByMaster Sample.svc
           (mkUser "Innei" "i@example.org" "https://example.org") 2%N
           Sample.body_owner_name Sample.ip) Sample.store = (inr r, s')
    /\ last (comments s') = Some child
    /\ state child = Read
    /\ find_comment 2%N (comments s') = Some P'
    /\ state P' = Read.
Proof.
  destruct (master_reply_marks_parent_read Sample.svc Sample.store
              (mkUser "Innei" "i@example.org" "https://example.org") 2%N
              Sample.body_owner_name Sample.ip Sample.root Sample.closed_post
              eq_refl eq_refl)
    as (r & s' & child & P' & H1 & H2 & H3 & _ & _ & _ & _ & H8 & H9 & _).
  exists r, s', child, P'. repeat split; assumption.
Defined.

(** ** Replies to the comments of a deleted post *)

(** Once [deletePost] has removed a post, its comments are still there
    and can no longer be answered: a reply to one of them gets past the
    parent lookup, fails on the missing target with a [TypeError] (not
    with NotFound) and stores nothing.  Both controllers. *)
Theorem reply_after_deletePost (svc : Collaborators) (s : Store)
    (id : ObjectId) (body : PartialComment) (author : option string)
    (isMaster : bool) (ipLocation : IpRecord) (P : Comment) :
  passes_author_check svc isMaster author ->
  find_comment id (comments s) = Some P ->
  refType P = Post ->
  NoDup (a_id <$> posts s) ->
  exists s1,
    run (PostsController.deletePost (ref P)) s = (inr "OK", s1)
    /\ comments s1 = comments s
    /\ run (CommentsController.replyByCid svc id body author isMaster
              ipLocation) s1 = (inl TypeError, s1)
    /\ run (LegacyCommentsController.replyByCid svc id body author isMaster
              ipLocation) s1 = (inl TypeError, s1)
    /\ error_kind TypeError = Fatal.
Proof.
  intros Hauth HP Hpost Hnd.
  assert (E : delete_first
                (fun a => matches {[ "_id" := QEq (VId (ref P)) ]}
                                  (article_doc a)) (posts s)
              = delete_first (fun a => bool_decide (a_id a = ref P))
                             (posts s)).
  { apply delete_first_ext. intros a. apply id_query_matches_article. }
  assert (F : List.filter
                (fun c => negb (matches {[ "pid" := QEq (VId (ref P)) ]}
                                        (comment_doc c))) (comments s)
              = comments s).
  { apply (filter_none (fun c => matches _ (comment_doc c))).
    apply pid_query_matches_no_comment. }
  eexists. split; [reflexivity|]. simpl. rewrite E, F.
  split; [done|].
  apply and_assoc. split; [|done].
  apply (replyByCid_missing_target svc _ id body author isMaster ipLocation P
           Hauth); simpl; [done|].
  rewrite Hpost. simpl. by apply find_article_delete_first.
Qed.

Lemma reply_after_deletePost_witness :
  exists s1,
    run (PostsController.deletePost 1%N) Sample.store = (inr "OK", s1)
    /\ comments s1 = [Sample.root]
    /\ run (CommentsController.replyByCid Sample.svc 2%N Sample.body_B
              (Some "B") false Sample.ip) s1 = (inl TypeError, s1).
Proof.
  destruct (reply_after_deletePost Sample.svc Sample.store 2%N Sample.body_B
              (Some "B") false Sample.ip Sample.root
              (or_intror eq_refl) eq_refl eq_refl)
    as (s1 & H1 & H2 & H3 & _).
  { simpl. apply NoDup_singleton. }
  exists s1. repeat split; assumption.
Defined.

(** ** Reading a reply back *)

Lemma run_abind {A B} (p : Async A) (f : A -> Async B) (s : Store) :
  run (abind p f) s
  = match run p s with
    | (inl e, s') => (inl e, s')
    | (inr a, s') => run (f a) s'
    end.
Proof.
  revert s. induction p as [a|e|X op k IH]; intros s; simpl; [done | done |].
  destruct (op s) as [[e|x] s']; [done | apply IH].
Qed.

Lemma find_comment_fresh (id : ObjectId) (cs : list Comment) :
  Forall (fun c => (_id c < id)%N) cs -> find_comment id cs = None.
Proof.
  unfold find_comment. induction 1 as [|c cs Hc _ IH]; simpl; [done|].
  rewrite bool_decide_eq_false_2 by lia. exact IH.
Qed.

Lemma find_by_id_query (id : ObjectId) (cs : list Comment) :
  List.find (fun c => matches {[ "_id" := QEq (VId id) ]} (comment_doc c)) cs
  = find_comment id cs.
Proof.
  unfold find_comment. induction cs as [|c cs IH]; simpl; [done|].
  by rewrite id_query_matches_comment, IH.
Qed.

Lemma Forall_id_update_first (Q : ObjectId -> Prop) (p : Comment -> bool)
    (f : Comment -> Comment) (cs : list Comment) :
  (forall c, _id (f c) = _id c) ->
  Forall (fun c => Q (_id c)) cs ->
  Forall (fun c => Q (_id c)) (update_first p f cs).
Proof.
  intros Hf. induction 1 as [|c cs Hc Hcs IH]; simpl; [done|].
  destruct (p c).
  - apply Forall_cons. split; [by rewrite Hf | exact Hcs].
  - apply Forall_cons. split; [exact Hc | exact IH].
Qed.

Lemma getComments_run (s : Store) (id : ObjectId) :
  run (CommentsController.getComments id) s
  = match find_comment id (comments s) with
    | None => (inl CannotFindException, s)
    | Some data =>
        (inr (CommentsController.mkWithParent data
                (pid ← parent data; find_comment pid (comments s))), s)
    end.
Proof.
  unfold CommentsController.getComments, findOne, populate_parent. simpl.
  rewrite find_by_id_query.
  destruct (find_comment id (comments s)) as [data|]; [|done].
  simpl. by destruct (parent data).
Qed.

(** A reply can be read back: before it, the id the child is about to
    get names no comment and [getComments] answers NotFound; after it,
    [getComments] on that id returns the child with its [parent] populated
    by the parent document as the reply left it (index raised, child
    listed last). *)
Theorem reply_then_getComments (svc : Collaborators) (s s' : Store)
    (id : ObjectId) (body : PartialComment) (author : option string)
    (isMaster : bool) (ipLocation : IpRecord) (P : Comment)
    (r : ReplyResponse) :
  ids_below_counter s ->
  find_comment id (comments s) = Some P ->
  o_parent body = None ->
  run (CommentsController.replyByCid svc id body author isMaster ipLocation) s
    = (inr r, s') ->
  run (CommentsController.getComments (nextId s)) s
    = (inl CannotFindException, s)
  /\ exists child P',
       run (CommentsController.getComments (nextId s)) s'
         = (inr (CommentsController.mkWithParent child (Some P')), s')
       /\ _id child = nextId s
       /\ parent child = Some id
       /\ key child = key P +:+ "#" +:+ pretty (commentsIndex P)
       /\ _id P' = id
       /\ commentsIndex P' = commentsIndex P + 1
       /\ children P' = children P ++ [_id child].
Proof.
  intros Hids HP Hpar Hrun.
  destruct (replyByCid_success_inv svc s s' id body author isMaster
              ipLocation P r HP (or_introl Hrun)) as [Hauth [t Ht]].
  rewrite (replyByCid_run svc s id body author isMaster ipLocation P t
             Hauth HP Ht) in Hrun.
  injection Hrun as _ <-.
  destruct (find_comment_Some _ _ _ HP) as [Hid _].
  destruct body as [bp ? ? ? ? ? ? ? ? ? ? ?]. simpl in Hpar. subst bp.
  split.
  { rewrite getComments_run. by rewrite (find_comment_fresh _ _ Hids). }
  eexists _, _. rewrite getComments_run. simpl.
  rewrite find_comment_app.
  rewrite (find_comment_fresh (nextId s)).
  2:{ apply (Forall_id_update_first (fun i => (i < nextId s)%N));
        [apply apply_update_id | exact Hids]. }
  simpl. rewrite bool_decide_eq_true_2 by done. simpl.
  rewrite Hid, find_comment_app.
  rewrite find_comment_update_first by apply apply_update_id.
  rewrite HP. simpl. split; [reflexivity|]. simpl.
  rewrite Hid. done.
Qed.

Lemma reply_then_getComments_witness :
  let s' := (run (CommentsController.replyByCid Sample.svc 2%N Sample.body_B
                    (Some "B") false Sample.ip) Sample.store).2 in
  run (CommentsController.getComments 3%N) Sample.store
    = (inl CannotFindException, Sample.store)
  /\ exists child P',
       run (CommentsController.getComments 3%N) s'
         = (inr (CommentsController.mkWithParent child (Some P')), s')
       /\ parent child = Some 2%N
       /\ key child = "2#0"
       /\ children P' = [3%N].
Proof.
  destruct (reply_then_getComments Sample.svc Sample.store _ 2%N
              Sample.body_B (Some "B") false Sample.ip Sample.root _
              ltac:(apply Forall_singleton; reflexivity)
              eq_refl eq_refl eq_refl)
    as (H0 & child & P' & H1 & H2 & H3 & H4 & _ & _ & H7).
  split; [exact H0|]. exists child, P'.
  split; [exact H1|]. split; [exact H3|]. split; [exact H4|].
  rewrite H7, H2. reflexivity.
Defined.

(** ** A row of replies to the same parent *)

Lemma fmap_key_update_first (p : Comment -> bool) (u : CommentUpdate)
    (cs : list Comment) :
  key <$> update_first p (apply_update u) cs = key <$> cs.
Proof.
  induction cs as [|c cs IH]; csimpl; [done|].
  destruct (p c); csimpl; [done | by rewrite IH].
Qed.

#[local] Instance sibling_key_inj (P : Comment) : Inj (=) (=) (sibling_key P).
Proof.
  intros i j E. unfold sibling_key in E.
  apply (inj (String.app _)) in E. apply (inj (String.app _)) in E.
  apply (inj pretty) in E. lia.
Qed.

Lemma sibling_key_shift (P : Comment) (u : CommentUpdate) (i : nat) :
  inc_commentsIndex u = Some 1 ->
  sibling_key (apply_update u P) i = sibling_key P (S i).
Proof.
  intros E. unfold sibling_key. simpl. rewrite E. do 3 f_equal. lia.
Qed.

Lemma sequential_replies_keys (svc : Collaborators) (id : ObjectId)
    (t : Article) (args : list ReplyArgs) :
  Forall (fun a => passes_author_check svc (ra_isMaster a) (ra_author a))
         args ->
  forall (s : Store) (P : Comment),
    find_comment id (comments s) = Some P ->
    find_article (ref P) (collection_of (refType P) s) = Some t ->
    key <$> comments (run_each (reply_with svc id <$> args) s)
    = (key <$> comments s) ++ (sibling_key P <$> seq 0 (length args)).
Proof.
  induction 1 as [|a args Ha _ IH]; intros s P HP Ht.
  - simpl. by rewrite app_nil_r.
  - simpl. unfold reply_with at 2.
    rewrite (replyByCid_run svc s id _ _ _ _ P t Ha HP Ht). simpl.
    erewrite (IH _ (apply_update (reply_update P _) P)).
    + simpl. rewrite fmap_app, fmap_key_update_first. simpl.
      rewrite <- app_assoc. simpl. f_equal. f_equal.
      * unfold sibling_key. simpl. by rewrite Z.add_0_r.
      * change (seq 1 (length args)) with (seq (1 + 0) (length args)).
        rewrite <- fmap_S_seq, <- list_fmap_compose.
        apply list_fmap_ext. intros _ i _. simpl.
        by apply sibling_key_shift.
    + simpl. rewrite find_comment_app.
      rewrite find_comment_update_first by apply apply_update_id.
      rewrite HP. reflexivity.
    + simpl. destruct (refType P); exact Ht.
Qed.

(** Replies to the same parent that run one after the other are numbered
    in order: the keys of the collection afterwards are the old keys
    followed by [P.key#n], [P.key#(n+1)], ..., one per reply, where [n] is
    the parent's index at the start; these new keys are pairwise distinct
    (unlike those of replies that overlap). *)
Theorem sequential_replies_number_their_keys (svc : Collaborators)
    (s : Store) (id : ObjectId) (P : Comment) (t : Article)
    (args : list ReplyArgs) :
  Forall (fun a => passes_author_check svc (ra_isMaster a) (ra_author a))
         args ->
  find_comment id (comments s) = Some P ->
  find_article (ref P) (collection_of (refType P) s) = Some t ->
  key <$> comments (run_each (reply_with svc id <$> args) s)
  = (key <$> comments s) ++ (sibling_key P <$> seq 0 (length args))
  /\ NoDup (sibling_key P <$> seq 0 (length args)).
Proof.
  intros Hargs HP Ht. split; [by eapply sequential_replies_keys|].
  apply NoDup_fmap_2; [apply _ | apply NoDup_seq].
Qed.

Lemma sequential_replies_number_their_keys_witness :
  key <$> comments
            (run_each
               (reply_with Sample.svc 2%N
                  <$> [mkReplyArgs Sample.body_B (Some "B") false Sample.ip;
                       mkReplyArgs Sample.body_B None true Sample.ip;
                       mkReplyArgs Sample.body_B (Some "C") false Sample.ip])
               Sample.store)
  = ["2"; "2#0"; "2#1"; "2#2"].
Proof.
  refine (proj1 (sequential_replies_number_their_keys Sample.svc Sample.store
                   2%N Sample.root Sample.closed_post
                   [mkReplyArgs Sample.body_B (Some "B") false Sample.ip;
                    mkReplyArgs Sample.body_B None true Sample.ip;
                    mkReplyArgs Sample.body_B (Some "C") false Sample.ip]
                   _ eq_refl eq_refl)).
  apply Forall_cons. split; [right; reflexivity|].
  apply Forall_cons. split; [left; reflexivity|].
  apply Forall_cons. split; [right; reflexivity|].
  apply Forall_nil. exact I.
Defined.

(** ** A comment and the promise it leaves behind *)

Lemma update_first_fresh {A} (p : A -> bool) (f : A -> A) (l : list A)
    (x : A) :
  Forall (fun y => p y = false) l -> p x = true ->
  update_first p f (l ++ [x]) = l ++ [f x].
Proof.
  intros Hl Hx. induction Hl as [|y l Hy _ IH]; simpl.
  - by rewrite Hx.
  - by rewrite Hy, IH.
Qed.

Lemma comment_run (svc : Collaborators) (s : Store) (id : ObjectId)
    (body : PartialComment) (author : option string) (isMaster : bool)
    (ipLocation : IpRecord) (refKind : option CommentRefTypes) (a : Article) :
  passes_author_check svc isMaster author ->
  find_article id (collection_of (default Post refKind) s) = Some a ->
  let c := root_comment (nextId s) id (default Post refKind)
             (spread body (ipLocation_fields ipLocation)) in
  run (CommentsController.comment svc id body author isMaster ipLocation
         refKind) s
  = (inr c, inserted c s).
Proof.
  intros Hauth Ha c.
  unfold CommentsController.comment, CommentsService.ValidAuthorName,
    CommentsService.allowComment, CommentsService.createComment.
  destruct isMaster; simpl.
  - rewrite Ha. simpl. rewrite andb_false_r. simpl. rewrite Ha. reflexivity.
  - destruct Hauth as [?|Hacc]; [discriminate|]. rewrite Hacc. simpl.
    rewrite Ha. simpl. rewrite andb_false_r. simpl. rewrite Ha. reflexivity.
Qed.

(** What is stored and sent once [comment] and the promise it starts
    have run: a comment the spam check flags is stored as Junk and nobody
    is notified; an unflagged comment of a guest is stored as it was
    created, mailed to the owner and broadcast, in that order; an
    unflagged comment of the master causes no notification. *)
Theorem flagged_comment_ends_junk (svc : Collaborators) (s : Store)
    (id : ObjectId) (body : PartialComment) (author : option string)
    (isMaster : bool) (ipLocation : IpRecord)
    (refKind : option CommentRefTypes) (a : Article) :
  ids_below_counter s ->
  passes_author_check svc isMaster author ->
  find_article id (collection_of (default Post refKind) s) = Some a ->
  let c := root_comment (nextId s) id (default Post refKind)
             (spread body (ipLocation_fields ipLocation)) in
  exists s',
    run (serve svc (ReqComment id body author isMaster ipLocation refKind))
        s = (inr tt, s')
    /\ nextId s' = N.succ (nextId s)
    /\ if checkSpam svc c
       then comments s' = comments s ++ [junked c]
            /\ state (junked c) = Junk
            /\ outbox s' = outbox s
       else comments s' = comments s ++ [c]
            /\ outbox s'
               = outbox s
                 ++ (if isMaster then []
                     else [SendEmail (_id c) Owner;
                           Broadcast_COMMENT_CREATE (_id c)]).
Proof.
  intros Hids Hauth Ha c.
  pose proof (comment_run svc s id body author isMaster ipLocation refKind a
                Hauth Ha) as Hrun.
  fold c in Hrun.
  unfold serve. setoid_rewrite run_abind. rewrite Hrun.
  unfold CommentsController.comment_detached.
  destruct (checkSpam svc c).
  - eexists. split; [reflexivity|]. simpl. split; [done|].
    split; [|done].
    apply update_first_fresh; [|by apply bool_decide_eq_true_2].
    eapply Forall_impl; [exact Hids|]. intros d Hd. simpl in *.
    apply bool_decide_eq_false_2. lia.
  - destruct isMaster; simpl; eexists; (split; [reflexivity|]); simpl.
    + by rewrite app_nil_r.
    + by rewrite <- app_assoc.
Qed.

Lemma flagged_comment_ends_junk_witness :
  let svc := mkCollaborators (fun _ => true)
               (fun c => bool_decide (text c = Some "yo")) in
  exists c s',
    run (serve svc (ReqComment 1%N Sample.body_B (Some "B") false
                      Sample.ip None)) Sample.store = (inr tt, s')
    /\ comments s' = comments Sample.store ++ [c]
    /\ state c = Junk
    /\ outbox s' = [].
Proof.
  intros svc.
  destruct (flagged_comment_ends_junk svc Sample.store 1%N Sample.body_B
              (Some "B") false Sample.ip None Sample.closed_post
              ltac:(apply Forall_singleton; reflexivity)
              (or_intror eq_refl) eq_refl)
    as (s' & H2 & _ & H3 & H5 & H4).
  eexists _, s'. split; [exact H2|]. split; [exact H3|].
  split; [exact H5 | exact H4].
Defined.

(** ** A reply overtaken by another *)

Lemma find_comment_update_first_app (id : ObjectId) (u : CommentUpdate)
    (cs : list Comment) (P c : Comment) :
  find_comment id cs = Some P ->
  update_first (fun d => bool_decide (_id d = id)) (apply_update u)
               (cs ++ [c])
  = update_first (fun d => bool_decide (_id d = id)) (apply_update u) cs
    ++ [c].
Proof. intros HP. eapply update_first_app. exact HP. Qed.

Opaque interleave.

Lemma overtaking_run (svc : Collaborators) (s : Store)
    (id : ObjectId) (P : Comment) (t : Article)
    (body1 body2 : PartialComment) (author1 author2 : option string)
    (m1 m2 : bool) (ip1 ip2 : IpRecord) :
  passes_author_check svc m1 author1 ->
  passes_author_check svc m2 author2 ->
  find_comment id (comments s) = Some P ->
  find_article (ref P) (collection_of (refType P) s) = Some t ->
  let k := key P +:+ "#" +:+ pretty (commentsIndex P) in
  let c2 := reply_child P t body2 ip2 (nextId s) k in
  let c1 := reply_child P t body1 ip1 (N.succ (nextId s)) k in
  let p := fun d => bool_decide (_id d = id) in
  interleave (overtaking_schedule m1 m2)
    ([CommentsController.replyByCid svc id body1 author1 m1 ip1;
      CommentsController.replyByCid svc id body2 author2 m2 ip2], s)
  = ([Return (mkReply "回复成功!"); Return (mkReply "回复成功!")],
     {| comments :=
          update_first p (apply_update (reply_update P c1))
            (update_first p (apply_update (reply_update P c2)) (comments s))
          ++ [c2; c1];
        posts := posts s; notes := notes s;
        nextId := N.succ (N.succ (nextId s));
        outbox := outbox s ++ reply_mails m2 (nextId s)
                  ++ reply_mails m1 (N.succ (nextId s)) |}).
Proof.
  intros H1 H2 HP Ht k c2 c1 p.
  destruct (find_comment_Some _ _ _ HP) as [Hid _].
  assert (A1 : m1 = false -> accepts_author svc author1 = true).
  { intros ->. by destruct H1. }
  assert (A2 : m2 = false -> accepts_author svc author2 = true).
  { intros ->. by destruct H2. }
  assert (U2 : forall u,
    update_first (fun d => bool_decide (_id d = _id P)) (apply_update u)
                 (comments s ++ [c2])
    = update_first p (apply_update u) (comments s) ++ [c2]).
  { intros u. rewrite Hid. by apply find_comment_update_first_app with P. }
  assert (U1 : forall u u',
    update_first (fun d => bool_decide (_id d = _id P)) (apply_update u)
                 ((update_first p (apply_update u') (comments s) ++ [c2])
                  ++ [c1])
    = update_first p (apply_update u)
        (update_first p (apply_update u') (comments s)) ++ [c2; c1]).
  { intros u u'. rewrite Hid, <- app_assoc. simpl.
    eapply update_first_app.
    unfold p. fold (find_comment id (update_first
      (fun d => bool_decide (_id d = id)) (apply_update u') (comments s))).
    rewrite find_comment_update_first by apply apply_update_id.
    by rewrite HP. }
  unfold CommentsController.replyByCid, CommentsService.ValidAuthorName.
  destruct m1, m2;
    match goal with
    | |- context [overtaking_schedule ?a ?b] =>
        let x := eval vm_compute in (overtaking_schedule a b) in
        change (overtaking_schedule a b) with x
    end;
    repeat (rewrite interleave_cons; unfold turn; simpl;
            rewrite ?A1, ?A2, ?HP, ?Ht, ?reply_model by done; simpl);
    unfold with_comments; simpl;
    rewrite (U2 _), (U1 _ _), <- ?app_assoc; reflexivity.
Qed.

Transparent interleave.

(** When a reply has looked its parent up and another reply to the same
    parent then runs from start to end before the first goes on, both
    children are stored under the same key [P.key#n]: the first reply
    numbers its child from the index it read.  The parent's index still
    ends at [n + 2] with both children listed.  Whoever the callers are,
    as long as both pass the author check. *)
Theorem overtaken_reply_repeats_the_key (svc : Collaborators) (s : Store)
    (id : ObjectId) (P : Comment) (t : Article)
    (body1 body2 : PartialComment) (author1 author2 : option string)
    (m1 m2 : bool) (ip1 ip2 : IpRecord) :
  passes_author_check svc m1 author1 ->
  passes_author_check svc m2 author2 ->
  find_comment id (comments s) = Some P ->
  find_article (ref P) (collection_of (refType P) s) = Some t ->
  let w :=
    interleave (overtaking_schedule m1 m2)
      ([CommentsController.replyByCid svc id body1 author1 m1 ip1;
        CommentsController.replyByCid svc id body2 author2 m2 ip2], s) in
  w.1 = [Return (mkReply "回复成功!"); Return (mkReply "回复成功!")]
  /\ key <$> comments w.2
     = (key <$> comments s)
       ++ [key P +:+ "#" +:+ pretty (commentsIndex P);
           key P +:+ "#" +:+ pretty (commentsIndex P)]
  /\ _id <$> comments w.2
     = (_id <$> comments s) ++ [nextId s; N.succ (nextId s)]
  /\ exists P',
       find_comment id (comments w.2) = Some P'
       /\ commentsIndex P' = commentsIndex P + 2
       /\ children P' = children P ++ [nextId s; N.succ (nextId s)].
Proof.
  intros H1 H2 HP Ht w.
  pose proof (overtaking_run svc s id P t body1 body2 author1 author2 m1 m2
                ip1 ip2 H1 H2 HP Ht) as E.
  cbv zeta in E. fold w in E. rewrite E. clear E w. simpl.
  split; [reflexivity|].
  rewrite !fmap_app, !fmap_key_update_first,
    !fmap_id_update_first by apply apply_update_id.
  split; [reflexivity|]. split; [reflexivity|].
  rewrite find_comment_app.
  rewrite !find_comment_update_first by apply apply_update_id.
  rewrite HP. simpl. eexists. split; [reflexivity|]. simpl.
  rewrite <- app_assoc. split; [lia | reflexivity].
Qed.

Lemma overtaken_reply_repeats_the_key_witness :
  let w :=
    interleave (overtaking_schedule false true)
      ([CommentsController.replyByCid Sample.svc 2%N Sample.body_B (Some "B")
          false Sample.ip;
        CommentsController.replyByCid Sample.svc 2%N Sample.body_B None true
          Sample.ip], Sample.store) in
  key <$> comments w.2 = ["2"; "2#0"; "2#0"]
  /\ _id <$> comments w.2 = [2%N; 3%N; 4%N].
Proof.
  destruct (overtaken_reply_repeats_the_key Sample.svc Sample.store 2%N
              Sample.root Sample.closed_post Sample.body_B Sample.body_B
              (Some "B") None false true Sample.ip Sample.ip
              (or_intror eq_refl) (or_introl eq_refl) eq_refl eq_refl)
    as (_ & Hk & Hi & _).
  split; [exact Hk | exact Hi].
Defined.

(** ** [range] *)



(** ** [getIp] *)

Lemma split_cons (c : ascii) (s : string) :
  exists pieces, Utils.split c s = before c s :: pieces.
Proof.
  induction s as [|a s [pieces IH]]; simpl; [by eexists|].
  case_bool_decide; [by eexists|]. rewrite IH. by eexists.
Qed.

Lemma before_no_occurrence (c : ascii) (s : string) :
  occurs c (before c s) = false.
Proof.
  induction s as [|a s IH]; simpl; [done|].
  case_bool_decide as E; simpl; [done|].
  by rewrite bool_decide_eq_false_2.
Qed.

Lemma before_prefix (c : ascii) (s : string) :
  s = before c s \/ exists rest, s = before c s +:+ String c rest.
Proof.
  induction s as [|a s IH]; simpl; [by left|].
  case_bool_decide as E.
  - subst a. right. by exists s.
  - destruct IH as [IH|[rest IH]].
    + left. by f_equal.
    + right. exists rest. change (String a s = String a (before c s +:+ String c rest)).
      by f_equal.
Qed.

Lemma js_or_None_r (a : option string) :
  Utils.js_or a None = if Utils.truthy a then a else None.
Proof. reflexivity. Qed.

Lemma chain_first_truthy (h i c k : option string) :
  Utils.js_or (Utils.js_or (Utils.js_or (Utils.js_or h i) c) k) None
  = first_truthy [h; i; c; k].
Proof.
  unfold Utils.js_or, first_truthy. simpl.
  destruct (Utils.truthy h) eqn:Hh, (Utils.truthy i) eqn:Hi,
           (Utils.truthy c) eqn:Hc, (Utils.truthy k) eqn:Hk;
    repeat (simpl; rewrite ?Hh, ?Hi, ?Hc, ?Hk); reflexivity.
Qed.

Lemma first_truthy_truthy (l : list (option string)) (s : string) :
  first_truthy l = Some s -> Utils.truthy (Some s) = true.
Proof.
  unfold first_truthy. destruct (List.find Utils.truthy l) as [v|] eqn:E;
    [|done].
  apply find_some in E as [_ Hv]. simpl. by intros ->.
Qed.

Lemma first_truthy_None (l : list (option string)) :
  first_truthy l = None <-> Forall (fun v => Utils.truthy v = false) l.
Proof.
  unfold first_truthy. induction l as [|v l IH]; simpl.
  - split; [constructor | done].
  - rewrite Forall_cons. destruct (Utils.truthy v) eqn:Hv.
    + simpl. split; [by destruct v | intros [? _]; done].
    + rewrite IH. tauto.
Qed.

Lemma getIp_first_truthy (request : Utils.FastifyRequest) :
  Utils.getIp request
  = before ","%char
      <$> first_truthy [Utils.x_forwarded_for request;
                        Utils.request_ip request;
                        Utils.connection_remoteAddress request;
                        Utils.socket_remoteAddress request].
Proof.
  unfold Utils.getIp. cbv zeta. rewrite chain_first_truthy.
  destruct (first_truthy _) as [s|] eqn:E; [|done].
  rewrite (first_truthy_truthy _ _ E).
  destruct (split_cons ","%char s) as [pieces ->].
  rewrite bool_decide_eq_true_2 by (simpl; lia). done.
Qed.

(** [getIp] answers with the text before the first comma of the first
    non-empty source, in the order forwarded header, [request.ip],
    connection, socket: the header wins over the address of the peer
    whenever it is present.  The answer holds no comma; it is [undefined]
    exactly when all four sources are empty or absent, and it is the empty
    string when the winning source starts with a comma. *)
Theorem getIp_takes_first_forwarded (request : Utils.FastifyRequest) :
  let sources := [Utils.x_forwarded_for request; Utils.request_ip request;
                  Utils.connection_remoteAddress request;
                  Utils.socket_remoteAddress request] in
  Utils.getIp request = before ","%char <$> first_truthy sources
  /\ (forall ip, Utils.getIp request = Some ip -> occurs ","%char ip = false)
  /\ (Utils.getIp request = None
      <-> Forall (fun v => Utils.truthy v = false) sources)
  /\ (forall h, Utils.x_forwarded_for request = Some h -> h <> "" ->
        Utils.getIp request = Some (before ","%char h))
  /\ (forall rest,
        Utils.x_forwarded_for request = Some (String ","%char rest) ->
        Utils.getIp request = Some "").
Proof.
  intros sources. pose proof (getIp_first_truthy request) as E.
  fold sources in E. split; [exact E|].
  split; [|split; [|split]].
  - intros ip. rewrite E. intros H.
    apply fmap_Some in H as (s & _ & ->). apply before_no_occurrence.
  - rewrite E, fmap_None. apply first_truthy_None.
  - intros h Hh Hne. rewrite E. unfold first_truthy, sources. simpl.
    rewrite Hh. simpl. by rewrite bool_decide_eq_false_2.
  - intros rest Hh. rewrite E. unfold first_truthy, sources. simpl.
    rewrite Hh. reflexivity.
Qed.

(** ** The session salt *)

Lemma length_string_app (s t : string) :
  String.length (s +:+ t) = (String.length s + String.length t)%nat.
Proof. induction s as [|a s IH]; simpl; [done | by rewrite IH]. Qed.

Lemma length_repeat_string (s : string) (n : nat) :
  String.length (Utils.repeat_string s n) = (n * String.length s)%nat.
Proof.
  induction n as [|n IH]; simpl; [done|].
  rewrite length_string_app, IH. lia.
Qed.

Lemma length_substring_0 (n : nat) (s : string) :
  (n <= String.length s)%nat -> String.length (String.substring 0 n s) = n.
Proof.
  revert s. induction n as [|n IH]; intros [|a s]; simpl; try done; try lia.
  intros H. rewrite IH; [done | lia].
Qed.

Lemma substring_0_app (n : nat) (s t : string) :
  (n <= String.length s)%nat -> String.substring 0 n (s +:+ t) = String.substring 0 n s.
Proof.
  revert s. induction n as [|n IH]; intros [|a s]; simpl; try done; try lia.
  - by destruct t.
  - intros H. rewrite IH; [done | lia].
Qed.

Lemma SECRET_nonempty (env : option string) : Utils.SECRET env <> "".
Proof.
  unfold Utils.SECRET, Utils.js_or. destruct env as [s|]; simpl; [|done].
  case_bool_decide; simpl; [done | done].
Qed.

(** The salt is always 16 characters long, whatever [process.env.SECRET]
    is: an empty or absent variable is replaced by the built-in secret
    first, so the repeated secret never runs short and the fallback literal
    ['mq9hDxBVDbspDR6n'] is never used.  A secret of 16 characters or more
    contributes only its first 16: secrets that agree on them give the
    same salt. *)
Theorem session_salt_has_16_characters (env : option string) :
  String.length (Utils.session_salt env) = 16%nat
  /\ Utils.session_salt env
     = String.substring 0 16 (Utils.repeat_string (Utils.SECRET env) 16)
  /\ ((16 <= String.length (Utils.SECRET env))%nat ->
      Utils.session_salt env = String.substring 0 16 (Utils.SECRET env)).
Proof.
  assert (L : (16 <= String.length
                       (Utils.repeat_string (Utils.SECRET env) 16))%nat).
  { rewrite length_repeat_string.
    pose proof (SECRET_nonempty env) as H.
    destruct (Utils.SECRET env); [done | simpl; lia]. }
  assert (E : Utils.session_salt env
              = String.substring 0 16 (Utils.repeat_string (Utils.SECRET env) 16)).
  { unfold Utils.session_salt, Utils.js_or. simpl Utils.truthy.
    case_bool_decide as Hnil; simpl; [|done].
    apply (f_equal String.length) in Hnil.
    rewrite length_substring_0 in Hnil by done. done. }
  split; [|split; [exact E|]].
  - rewrite E. by apply length_substring_0.
  - intros H. rewrite E.
    change (Utils.repeat_string (Utils.SECRET env) 16)
      with (Utils.SECRET env +:+ Utils.repeat_string (Utils.SECRET env) 15).
    by apply substring_0_app.
Qed.

(** ** Reading one note *)

Lemma matches_union (q1 q2 : Query) (d : Doc) :
  q1 ##ₘ q2 -> matches (q1 ∪ q2) d = matches q1 d && matches q2 d.
Proof.
  intros Hdisj. unfold matches.
  destruct (bool_decide (map_Forall _ q1)) eqn:E1;
    destruct (bool_decide (map_Forall _ q2)) eqn:E2; simpl;
    try apply bool_decide_eq_true in E1; try apply bool_decide_eq_true in E2;
    try apply bool_decide_eq_false in E1;
    try apply bool_decide_eq_false in E2.
  - apply bool_decide_eq_true. by apply map_Forall_union.
  - apply bool_decide_eq_false. rewrite map_Forall_union by done. tauto.
  - apply bool_decide_eq_false. rewrite map_Forall_union by done. tauto.
  - apply bool_decide_eq_false. rewrite map_Forall_union by done. tauto.
Qed.

Lemma master_condition_matches (a : Article) :
  matches (addConditionToSeeHideContent true) (article_doc a) = true.
Proof.
  unfold addConditionToSeeHideContent. rewrite matches_singleton. simpl.
  unfold alt_matches.
  rewrite orb_true_iff. destruct (hide a) eqn:E; [right | left].
  - rewrite orb_false_r. apply bool_decide_eq_true.
    apply map_Forall_singleton. rewrite article_doc_lookup_hide, E. done.
  - apply bool_decide_eq_true.
    apply map_Forall_singleton. rewrite article_doc_lookup_hide, E. done.
Qed.

Lemma guest_condition_matches (a : Article) :
  matches (addConditionToSeeHideContent false) (article_doc a)
  = negb (hide a) && bool_decide (password a = None).
Proof.
  unfold addConditionToSeeHideContent.
  change ({[ "hide" := QEq (VBool false); "password" := QEq VUndefined ]}
            : Query)
    with (({[ "hide" := QEq (VBool false) ]} : Query)
            ∪ {[ "password" := QEq VUndefined ]}).
  rewrite matches_union
    by (by apply map_disjoint_singleton_l_2, lookup_singleton_ne).
  rewrite !matches_singleton. simpl.
  rewrite article_doc_lookup_hide, article_doc_lookup_password. simpl.
  destruct (hide a), (password a); reflexivity.
Qed.

Lemma note_by_id_condition (isMaster : bool) (id : ObjectId) (a : Article) :
  matches (spread_query {[ "_id" := QEq (VId id) ]}
                        (addConditionToSeeHideContent isMaster))
          (article_doc a)
  = bool_decide (a_id a = id)
    && (isMaster || negb (hide a) && bool_decide (password a = None)).
Proof.
  unfold spread_query. rewrite matches_union.
  - rewrite id_query_matches_article, andb_comm. f_equal.
    destruct isMaster; simpl.
    + apply master_condition_matches.
    + apply guest_condition_matches.
  - apply map_disjoint_singleton_r_2.
    destruct isMaster; unfold addConditionToSeeHideContent.
    + by apply lookup_singleton_ne.
    + rewrite lookup_insert_ne by done. by apply lookup_singleton_ne.
Qed.

Lemma condition_without_created (isMaster : bool) :
  delete "created" (addConditionToSeeHideContent isMaster)
  = addConditionToSeeHideContent isMaster.
Proof.
  apply delete_id. destruct isMaster; unfold addConditionToSeeHideContent.
  - by apply lookup_singleton_ne.
  - rewrite lookup_insert_ne by done. by apply lookup_singleton_ne.
Qed.

(** What a caller may see of a note. *)
Lemma visible_to_spec (isMaster : bool) (a : Article) :
  matches (addConditionToSeeHideContent isMaster) (article_doc a)
  = visible_to isMaster a.
Proof.
  destruct isMaster; [apply master_condition_matches|].
  apply guest_condition_matches.
Qed.

Lemma date_ltb_spec (a b : Date) :
  NotesController.date_ltb a b = true
  <-> d_year a < d_year b
      \/ (d_year a = d_year b
          /\ (d_month a < d_month b
              \/ (d_month a = d_month b /\ d_day a < d_day b))).
Proof.
  unfold NotesController.date_ltb, date_leb.
  rewrite negb_true_iff.
  destruct (Z.ltb_spec (d_year b) (d_year a)),
    (Z.eqb_spec (d_year b) (d_year a)),
    (Z.ltb_spec (d_month b) (d_month a)),
    (Z.eqb_spec (d_month b) (d_month a)),
    (Z.leb_spec (d_day b) (d_day a)); simpl;
    split; intros Hlt; try done; lia.
Qed.

Lemma date_ltb_irrefl (a : Date) : NotesController.date_ltb a a = false.
Proof.
  destruct (NotesController.date_ltb a a) eqn:E; [|done].
  apply date_ltb_spec in E. lia.
Qed.

Lemma date_ltb_trans (a b c : Date) :
  NotesController.date_ltb a b = true ->
  NotesController.date_ltb b c = true ->
  NotesController.date_ltb a c = true.
Proof. rewrite !date_ltb_spec. lia. Qed.

Lemma date_ltb_not_trans (a b c : Date) :
  NotesController.date_ltb a b = false ->
  NotesController.date_ltb b c = false ->
  NotesController.date_ltb a c = false.
Proof.
  intros H1 H2. destruct (NotesController.date_ltb a c) eqn:E; [|done].
  apply date_ltb_spec in E.
  assert (N1 : ~ NotesController.date_ltb a b = true) by congruence.
  assert (N2 : ~ NotesController.date_ltb b c = true) by congruence.
  rewrite date_ltb_spec in N1, N2. lia.
Qed.

(** The document [first_by_created] picks is one of the list, and no
    document of the list comes before it in the order asked for. *)
Lemma first_by_created_best (ascending : bool) (l : list Article) :
  match NotesController.first_by_created ascending l with
  | None => l = []
  | Some b =>
      b ∈ l
      /\ forall a, a ∈ l ->
           (if ascending then NotesController.date_ltb (created a) (created b)
            else NotesController.date_ltb (created b) (created a)) = false
  end.
Proof.
  unfold NotesController.first_by_created.
  induction l as [|x l IH] using rev_ind; [done|].
  rewrite foldl_app. simpl.
  destruct (foldl _ None l) as [b|].
  - destruct IH as [Hb Hbest].
    destruct (if ascending
              then NotesController.date_ltb (created x) (created b)
              else NotesController.date_ltb (created b) (created x)) eqn:E.
    + split; [set_solver|]. intros a Ha.
      apply elem_of_app in Ha as [Ha|Ha].
      * specialize (Hbest a Ha). destruct ascending.
        -- destruct (NotesController.date_ltb (created a) (created x)) eqn:F;
             [|done].
           by rewrite (date_ltb_trans _ _ _ F E) in Hbest.
        -- destruct (NotesController.date_ltb (created x) (created a)) eqn:F;
             [|done].
           by rewrite (date_ltb_trans _ _ _ E F) in Hbest.
      * apply list_elem_of_singleton in Ha as ->.
        destruct ascending; apply date_ltb_irrefl.
    + split; [set_solver|]. intros a Ha.
      apply elem_of_app in Ha as [Ha|Ha]; [by apply Hbest|].
      by apply list_elem_of_singleton in Ha as ->.
  - subst l. split; [set_solver|]. intros a Ha.
    apply list_elem_of_singleton in Ha as ->.
    destruct ascending; apply date_ltb_irrefl.
Qed.

Section OneNote.

Context (chk : Article -> option string -> bool).

Lemma getOneNote_run (s : Store) (id : ObjectId) (isMaster : bool)
    (pw : option string) :
  run (NotesController.getOneNote chk id isMaster pw) s
  = match List.find (fun a => bool_decide (a_id a = id)
                              && visible_to isMaster a) (notes s) with
    | None => (inl CannotFindException, s)
    | Some current =>
        if negb (chk current pw) && negb isMaster
        then (inl (ForbiddenException "不要偷看人家的小心思啦~"), s)
        else
          (inr {| NotesController.data := current;
                  NotesController.next :=
                    NotesController.without_password
                      <$> NotesController.first_by_created false
                            (List.filter (later_visible isMaster false current)
                                         (notes s));
                  NotesController.prev :=
                    NotesController.without_password
                      <$> NotesController.first_by_created true
                            (List.filter (later_visible isMaster true current)
                                         (notes s)) |}, s)
    end.
Proof.
  unfold NotesController.getOneNote, NotesController.findOne,
    NotesController.findOne_sorted. simpl.
  assert (E : List.find
    (fun a => matches (spread_query {[ "_id" := QEq (VId id) ]}
                         (addConditionToSeeHideContent isMaster))
                      (article_doc a)) (notes s)
    = List.find (fun a => bool_decide (a_id a = id) && visible_to isMaster a)
                (notes s)).
  { induction (notes s) as [|a l IH]; simpl; [done|].
    rewrite note_by_id_condition. fold (visible_to isMaster a).
    by rewrite IH. }
  rewrite E. clear E.
  destruct (List.find _ (notes s)) as [current|]; [|done].
  simpl. destruct (negb (chk current pw) && negb isMaster); [done|].
  simpl. do 3 f_equal; do 2 f_equal; apply filter_ext; intros a;
    unfold NotesController.bounded_matches, later_visible;
    by rewrite condition_without_created, visible_to_spec.
Qed.

Lemma find_visible_to_master (id : ObjectId) (l : list Article) :
  List.find (fun a => bool_decide (a_id a = id) && visible_to true a) l
  = find_article id l.
Proof.
  unfold find_article. induction l as [|x l IH]; simpl; [done|].
  rewrite andb_true_r. destruct (bool_decide (a_id x = id)); [done|].
  apply IH.
Qed.

(** Who opens which note through [getOneNote].  The master opens every
    existing note, whatever the password check says and whatever password
    the request brings.  A guest can never open a note that is hidden or
    carries a password, the right password included: the lookup itself
    leaves such notes out, so the answer is NotFound, and what a guest does
    get is neither hidden nor protected.  The password check only ever
    sees notes it has nothing to check on: Forbidden is answered only to a
    guest and only if [checkPasswordToAccess] refuses a note without a
    password. *)
Theorem note_access_by_role (s : Store) (id : ObjectId)
    (pw : option string) :
  (forall a, find_article id (notes s) = Some a ->
     exists v,
       run (NotesController.getOneNote chk id true pw) s = (inr v, s)
       /\ NotesController.data v = a)
  /\
  ((forall a, a ∈ notes s -> a_id a = id ->
      hide a = true \/ is_Some (password a)) ->
   run (NotesController.getOneNote chk id false pw) s
     = (inl CannotFindException, s))
  /\ (forall v s',
        run (NotesController.getOneNote chk id false pw) s = (inr v, s') ->
        s' = s /\ NotesController.data v ∈ notes s
        /\ a_id (NotesController.data v) = id
        /\ hide (NotesController.data v) = false
        /\ password (NotesController.data v) = None)
  /\ (forall isMaster m s',
        run (NotesController.getOneNote chk id isMaster pw) s
          = (inl (ForbiddenException m), s') ->
        isMaster = false
        /\ exists a, a ∈ notes s /\ a_id a = id /\ hide a = false
                     /\ password a = None /\ chk a pw = false).
Proof.
  split; [|split; [|split]].
  - intros a Ha.
    rewrite getOneNote_run, find_visible_to_master, Ha, andb_false_r.
    by eexists.
  - intros Hall. rewrite getOneNote_run.
    destruct (List.find _ (notes s)) as [a|] eqn:E; [|done].
    apply find_some in E as [Hin Ha]. apply list_elem_of_In in Hin.
    apply andb_true_iff in Ha as [Hid Hvis].
    apply bool_decide_eq_true in Hid. unfold visible_to in Hvis. simpl in Hvis.
    apply andb_true_iff in Hvis as [Hh Hp].
    apply negb_true_iff in Hh. apply bool_decide_eq_true in Hp.
    destruct (Hall a Hin Hid) as [H|[p H]]; congruence.
  - intros v s'. rewrite getOneNote_run.
    destruct (List.find _ (notes s)) as [a|] eqn:E; [|done].
    apply find_some in E as [Hin Ha]. apply list_elem_of_In in Hin.
    apply andb_true_iff in Ha as [Hid Hvis].
    apply bool_decide_eq_true in Hid. unfold visible_to in Hvis. simpl in Hvis.
    apply andb_true_iff in Hvis as [Hh Hp].
    apply negb_true_iff in Hh. apply bool_decide_eq_true in Hp.
    destruct (negb (chk a pw) && negb false); [done|].
    intros [= <- <-]. done.
  - intros isMaster m s'. rewrite getOneNote_run.
    destruct (List.find _ (notes s)) as [a|] eqn:E; [|done].
    apply find_some in E as [Hin Ha]. apply list_elem_of_In in Hin.
    apply andb_true_iff in Ha as [Hid Hvis].
    apply bool_decide_eq_true in Hid.
    destruct (negb (chk a pw) && negb isMaster) eqn:F; [|done].
    apply andb_true_iff in F as [Hc Hm].
    apply negb_true_iff in Hc, Hm. subst isMaster. intros _.
    split; [done|]. exists a.
    unfold visible_to in Hvis. simpl in Hvis.
    apply andb_true_iff in Hvis as [Hh Hp].
    apply negb_true_iff in Hh. apply bool_decide_eq_true in Hp. done.
Qed.

(** The neighbours [getOneNote] answers with: [prev] is the visible note
    closest after the current one in time and [next] the closest before it
    (so [prev] is the newer one), both without their password path; a
    neighbour is missing only when no visible note lies on that side. *)
Theorem getOneNote_neighbours (s s' : Store) (id : ObjectId)
    (isMaster : bool) (pw : option string) (v : NotesController.OneNote) :
  run (NotesController.getOneNote chk id isMaster pw) s = (inr v, s') ->
  let now := created (NotesController.data v) in
  let side newer a :=
    a ∈ notes s /\ visible_to isMaster a = true
    /\ (if newer : bool then NotesController.date_ltb now (created a)
        else NotesController.date_ltb (created a) now) = true in
  match NotesController.prev v with
  | Some p =>
      (exists p0, side true p0 /\ p = NotesController.without_password p0)
      /\ forall a, side true a ->
           NotesController.date_ltb (created a) (created p) = false
  | None => forall a, ~ side true a
  end
  /\ match NotesController.next v with
     | Some n =>
         (exists n0, side false n0 /\ n = NotesController.without_password n0)
         /\ forall a, side false a ->
              NotesController.date_ltb (created n) (created a) = false
     | None => forall a, ~ side false a
     end.
Proof.
  rewrite getOneNote_run.
  destruct (List.find _ (notes s)) as [cur|] eqn:E; [|done].
  destruct (negb (chk cur pw) && negb isMaster); [done|].
  intros [= <- <-]. simpl.
  assert (F : forall newer a,
    a ∈ List.filter (later_visible isMaster newer cur) (notes s)
    <-> a ∈ notes s /\ visible_to isMaster a = true
        /\ (if newer then NotesController.date_ltb (created cur) (created a)
            else NotesController.date_ltb (created a) (created cur)) = true).
  { intros newer a. rewrite elem_of_List_filter. unfold later_visible.
    rewrite andb_true_iff. by destruct newer. }
  split.
  - pose proof (first_by_created_best true
                  (List.filter (later_visible isMaster true cur) (notes s)))
      as H.
    destruct (NotesController.first_by_created true _) as [p0|]; simpl.
    + destruct H as [Hin Hbest]. split.
      * exists p0. split; [by apply (F true)|done].
      * intros a Ha. apply (Hbest a). by apply (F true).
    + intros a Ha. apply (F true) in Ha. rewrite H in Ha. set_solver.
  - pose proof (first_by_created_best false
                  (List.filter (later_visible isMaster false cur) (notes s)))
      as H.
    destruct (NotesController.first_by_created false _) as [n0|]; simpl.
    + destruct H as [Hin Hbest]. split.
      * exists n0. split; [by apply (F false)|done].
      * intros a Ha. apply (Hbest a). by apply (F false).
    + intros a Ha. apply (F false) in Ha. rewrite H in Ha. set_solver.
Qed.

End OneNote.

Lemma getOneNote_neighbours_witness :
  exists v,
    run (NotesController.getOneNote (fun _ _ => true) 12%N false None)
        Sample.diary = (inr v, Sample.diary)
    /\ (a_id <$> NotesController.prev v) = Some 14%N
    /\ (a_id <$> NotesController.next v) = Some 10%N
    /\ forall a, a ∈ notes Sample.diary -> visible_to false a = true ->
          NotesController.date_ltb (mkDate 2020 4 1) (created a) = true ->
          NotesController.date_ltb (created a) (mkDate 2020 6 1) = false.
Proof.
  eexists. split; [reflexivity|].
  split; [reflexivity|]. split; [reflexivity|].
  pose proof (getOneNote_neighbours (fun _ _ => true) Sample.diary _ 12%N
                false None _ eq_refl) as H.
  cbv zeta in H. destruct H as [H _].
  change (NotesController.prev _)
    with (Some (mkArticle 14%N false None true (mkDate 2020 6 1))) in H.
  destruct H as [_ Hbest]. intros a H1 H2 H3. apply Hbest. done.
Defined.

(** ** Liking a note *)

(** [likeNote] answers OK exactly when the note service recorded the
    like and the caller's session does not list the note yet; it then
    appends the note to the session's list, and otherwise answers 422 and
    leaves the session alone.  It never reads [includes] of an absent
    list, the list never gets a duplicate, and once a note is listed every
    further like of it from that session is answered 422 whatever the
    service says. *)
Theorem like_once_per_session (accepted : bool)
    (liked : option (list ObjectId)) (id : ObjectId) :
  exists answer liked',
    NotesController.likeNote accepted liked id = inr (answer, liked')
    /\ (answer = NotesController.Like_OK
        <-> accepted = true /\ id ∉ default [] liked)
    /\ (answer = NotesController.Like_OK ->
        liked' = Some (default [] liked ++ [id])
        /\ forall accepted',
             NotesController.likeNote accepted' liked' id
             = inr (NotesController.Like_422, liked'))
    /\ (answer = NotesController.Like_422 -> liked' = liked)
    /\ (NoDup (default [] liked) -> NoDup (default [] liked')).
Proof.
  unfold NotesController.likeNote.
  destruct accepted, liked as [l|]; simpl.
  - destruct (decide (id ∈ l)) as [Hin|Hnin].
    + rewrite bool_decide_eq_true_2 by done.
      eexists _, _. split; [reflexivity|]. simpl.
      split; [split; [done | tauto]|]. done.
    + rewrite bool_decide_eq_false_2 by done.
      eexists _, _. split; [reflexivity|]. simpl.
      split; [done|]. split; [|split; [done|]].
      * intros _. split; [done|]. intros accepted'.
        destruct accepted'; simpl; [|done].
        rewrite bool_decide_eq_true_2 by set_solver. done.
      * intros Hnd. apply NoDup_app. split; [done|].
        split; [set_solver | apply NoDup_singleton].
  - eexists _, _. split; [reflexivity|]. simpl.
    split; [split; [intros _; split; [done | set_solver] | done]|].
    split; [|split; [done|]].
    + intros _. split; [done|]. intros accepted'.
      destruct accepted'; simpl; [|done].
      rewrite bool_decide_eq_true_2 by set_solver. done.
    + intros _. apply NoDup_singleton.
  - eexists _, _. split; [reflexivity|].
    split; [split; [done | intros [? _]; done]|]. done.
  - eexists _, _. split; [reflexivity|].
    split; [split; [done | intros [? _]; done]|]. done.
Qed.

(** ** The year of a listing *)

Lemma article_doc_lookup_created (a : Article) :
  article_doc a !! "created" = Some (VDate (created a)).
Proof. destruct a as [? ? [?|] ? ?]; reflexivity. Qed.

Lemma year_condition_disjoint (isMaster : bool) (year : option Z) :
  yearCondition year ##ₘ addConditionToSeeHideContent isMaster.
Proof.
  unfold yearCondition. destruct year as [y|]; [destruct (y =? 0)|];
    try apply map_disjoint_empty_l.
  apply map_disjoint_singleton_l_2.
  destruct isMaster; unfold addConditionToSeeHideContent.
  - by apply lookup_singleton_ne.
  - rewrite lookup_insert_ne by done. by apply lookup_singleton_ne.
Qed.

Lemma matches_empty (d : Doc) : matches ∅ d = true.
Proof. apply bool_decide_eq_true. apply map_Forall_empty. Qed.

Lemma listing_condition_matches (isMaster : bool) (year : option Z)
    (a : Article) :
  matches (spread_query (addConditionToSeeHideContent isMaster)
                        (yearCondition year)) (article_doc a)
  = visible_to isMaster a
    && match year with
       | Some y =>
           (y =? 0)
           || date_leb (mkDate (Date_year y) 1 1) (created a)
              && date_leb (created a) (mkDate (Date_year (y + 1)) 1 1)
       | None => true
       end.
Proof.
  unfold spread_query.
  rewrite matches_union by apply year_condition_disjoint.
  rewrite visible_to_spec, andb_comm. f_equal.
  unfold yearCondition. destruct year as [y|]; [|apply matches_empty].
  destruct (y =? 0); [apply matches_empty|].
  rewrite matches_singleton. simpl.
  by rewrite article_doc_lookup_created.
Qed.

(** The listing of a year [y] runs from February to January: of the
    items a caller may see, [getAll] and [getNotes] select those created
    from February of [y] on and those created in January of [y + 1], and
    they leave out January of [y] and everything from the second of
    February of [y + 1] on.  (Years of three digits and more, which
    [new Date(year, 1, 1)] takes as they are.) *)
Theorem year_listing_runs_from_february (isMaster : bool) (q : ListQuery)
    (y : Z) (a : Article) :
  lq_year q = Some y -> 100 <= y ->
  visible_to isMaster a = true ->
  let listed :=
    matches (condition (PostsController.getAll isMaster q)) (article_doc a) in
  matches (condition (NotesController.getNotes isMaster q)) (article_doc a)
    = listed
  /\ (d_year (created a) = y -> d_month (created a) = 0 -> listed = false)
  /\ (d_year (created a) = y -> 1 <= d_month (created a) -> 1 <= d_day (created a) ->
      listed = true)
  /\ (d_year (created a) = y + 1 -> d_month (created a) = 0 -> listed = true)
  /\ (d_year (created a) = y + 1 ->
      2 <= d_month (created a)
      \/ (d_month (created a) = 1 /\ 2 <= d_day (created a)) ->
      listed = false).
Proof.
  intros Hy Hbig Hvis listed. split; [reflexivity|].
  assert (E : listed
              = date_leb (mkDate y 1 1) (created a)
                && date_leb (created a) (mkDate (y + 1) 1 1)).
  { unfold listed, PostsController.getAll. simpl.
    rewrite Hy, listing_condition_matches, Hvis. simpl.
    destruct (Z.eqb_spec y 0); [lia|]. unfold Date_year.
    destruct (Z.leb_spec y 99); [lia|].
    destruct (Z.leb_spec (y + 1) 99); [lia|].
    by rewrite !andb_false_r. }
  rewrite E. destruct (created a) as [cy cm cd].
  unfold date_leb. cbn [d_year d_month d_day].
  split; [|split; [|split]]; intros H1 H2; try intros H3; subst;
    repeat match goal with
           | |- context [?x <? ?y] => destruct (Z.ltb_spec x y)
           | |- context [?x =? ?y] => destruct (Z.eqb_spec x y)
           | |- context [?x <=? ?y] => destruct (Z.leb_spec x y)
           end; cbn [andb orb]; try done; lia.
Qed.

Lemma year_listing_runs_from_february_witness :
  let q := mkListQuery (Some 10) (Some 1) None (Some 2020) None None in
  let listed a :=
    matches (condition (PostsController.getAll true q)) (article_doc a) in
  listed (mkArticle 1%N false None true (mkDate 2020 0 15)) = false
  /\ listed (mkArticle 2%N false None true (mkDate 2021 0 15)) = true.
Proof.
  intros q listed. split.
  - destruct (year_listing_runs_from_february true q 2020
                (mkArticle 1%N false None true (mkDate 2020 0 15))
                eq_refl ltac:(lia) eq_refl) as (_ & H & _).
    exact (H eq_refl eq_refl).
  - destruct (year_listing_runs_from_february true q 2020
                (mkArticle 2%N false None true (mkDate 2021 0 15))
                eq_refl ltac:(lia) eq_refl) as (_ & _ & _ & H & _).
    exact (H eq_refl eq_refl).
Defined.

(** ** The comments of a target *)

Lemma matches_insert (q : Query) (k : string) (c : QCond) (d : Doc) :
  q !! k = None ->
  matches (<[k := c]> q) d = cond_matches d k c && matches q d.
Proof.
  intros Hk. rewrite insert_union_singleton_l.
  rewrite matches_union by (by apply map_disjoint_singleton_l_2).
  by rewrite matches_singleton.
Qed.

Lemma comment_doc_lookup_parent (c : Comment) :
  comment_doc c !! "parent" = VId <$> parent c.
Proof.
  destruct c as [? ? ? [?|] ? ? ? ? [?|] [?|] [?|] [?|] [?|]]; reflexivity.
Qed.

Lemma comment_doc_lookup_ref (c : Comment) :
  comment_doc c !! "ref" = Some (VId (ref c)).
Proof.
  destruct c as [? ? ? [?|] ? ? ? ? [?|] [?|] [?|] [?|] [?|]]; reflexivity.
Qed.

Lemma state_alternative (c : Comment) (st : CommentState) :
  alt_matches (comment_doc c) {[ "state" := VNum (CommentState_code st) ]}
  = bool_decide (state c = st).
Proof.
  unfold alt_matches. apply bool_decide_ext.
  rewrite map_Forall_singleton, comment_doc_lookup_state. simpl.
  rewrite bool_decide_eq_true. split.
  - intros [=E]. by destruct st, (state c).
  - by intros ->.
Qed.

(** What [getCommentsByRefId] lists for a target: the thread roots filed
    under it that are not Junk; a reply is never listed, whatever its
    state, and a root disappears from the listing when it is moderated to
    Junk and comes back when it is moderated to another state.  The older
    controller lists Junk roots as well. *)
Theorem listing_shows_roots_that_are_not_junk (id : ObjectId)
    (query : PagerDto) (c : Comment) :
  (matches (condition (CommentsController.getCommentsByRefId id query))
           (comment_doc c) = true
   <-> parent c = None /\ ref c = id /\ state c <> Junk)
  /\ (matches (condition (LegacyCommentsController.getCommentsByRefId id
                            query)) (comment_doc c) = true
      <-> parent c = None /\ ref c = id)
  /\ (forall st,
        matches (condition (CommentsController.getCommentsByRefId id query))
                (comment_doc (apply_update (mkUpdate None None (Some st)) c))
        = true
        <-> parent c = None /\ ref c = id /\ st <> Junk).
Proof.
  assert (P : forall d : Comment,
    cond_matches (comment_doc d) "parent" (QEq VUndefined) = true
    <-> parent d = None).
  { intros d. simpl. rewrite comment_doc_lookup_parent.
    destruct (parent d); simpl; split; done. }
  assert (R : forall d : Comment,
    cond_matches (comment_doc d) "ref" (QEq (VId id)) = true <-> ref d = id).
  { intros d. simpl. rewrite comment_doc_lookup_ref. simpl.
    rewrite bool_decide_eq_true. split; [by intros [=] | by intros ->]. }
  assert (S : forall d : Comment,
    cond_matches (comment_doc d) "$or"
      (QOr [ {[ "state" := VNum 0 ]}; {[ "state" := VNum 1 ]} ]) = true
    <-> state d <> Junk).
  { intros d.
    change (cond_matches (comment_doc d) "$or"
              (QOr [ {[ "state" := VNum 0 ]}; {[ "state" := VNum 1 ]} ]))
      with (alt_matches (comment_doc d)
              {[ "state" := VNum (CommentState_code Unread) ]}
            || (alt_matches (comment_doc d)
                  {[ "state" := VNum (CommentState_code Read) ]}
                || false)).
    rewrite (state_alternative d Unread), (state_alternative d Read).
    rewrite orb_false_r, orb_true_iff, !bool_decide_eq_true.
    destruct (state d); split; intros H; try done; auto.
    by destruct H. }
  assert (C : forall d : Comment,
    matches (condition (CommentsController.getCommentsByRefId id query))
            (comment_doc d) = true
    <-> parent d = None /\ ref d = id /\ state d <> Junk).
  { intros d. unfold CommentsController.getCommentsByRefId. simpl.
    rewrite matches_insert
      by (rewrite lookup_insert_ne by done; by apply lookup_singleton_ne).
    rewrite matches_insert by (by apply lookup_singleton_ne).
    rewrite matches_singleton, !andb_true_iff, P, R, S. done. }
  split; [apply C|]. split.
  - unfold LegacyCommentsController.getCommentsByRefId. simpl.
    rewrite matches_insert by (by apply lookup_singleton_ne).
    rewrite matches_singleton, andb_true_iff, P, R. done.
  - intros st. rewrite C. done.
Qed.

(** ** Uploads *)

Section Uploads.

Context (md5 : string -> string).
Context (fromBuffer : UploadsService.Buffer -> option (string * string)).
Context (imageSize : UploadsService.Buffer
                     -> option UploadsService.Dimensions).
Context (type_dir : UploadsService.FileType -> string).
Context (IMAGE : UploadsService.FileType).

Local Abbreviation saveImage :=
  (UploadsService.saveImage md5 fromBuffer imageSize type_dir IMAGE).
Local Abbreviation checkFileExist := (UploadsService.checkFileExist type_dir).
Local Abbreviation deleteFile := (UploadsService.deleteFile type_dir).
Local Abbreviation uploadImage :=
  (UploadsService.uploadImage md5 fromBuffer imageSize type_dir IMAGE).

Lemma find_named_after_upsert (hash fname : string)
    (dims : UploadsService.Dimensions) (mime : string)
    (type : UploadsService.FileType) (w : UploadsService.World) :
  exists id,
    List.find (fun f => bool_decide (UploadsService.name f = hash)
                        && bool_decide (UploadsService.type f = type))
              (UploadsService.files
                 (UploadsService.upsert_by_name hash fname dims mime type w))
    = Some (UploadsService.mkFile id hash fname dims mime type).
Proof.
  unfold UploadsService.upsert_by_name.
  destruct (List.find _ (UploadsService.files w)) as [f0|] eqn:E; simpl.
  - induction (UploadsService.files w) as [|f l IH]; simpl in *; [done|].
    destruct (bool_decide (UploadsService.name f = hash)) eqn:F; simpl.
    + exists (UploadsService.file_id f).
      by rewrite !bool_decide_eq_true_2.
    + rewrite F. simpl. by apply IH.
  - exists (UploadsService.nextFileId w).
    induction (UploadsService.files w) as [|f l IH]; simpl in *.
    + by rewrite !bool_decide_eq_true_2.
    + destruct (bool_decide (UploadsService.name f = hash)) eqn:F;
        [done|]. simpl. by apply IH.
Qed.

Lemma saveImage_run (fi : UploadsService.FileInfo)
    (type : UploadsService.FileType) (ext mime : string)
    (dims : UploadsService.Dimensions) (w : UploadsService.World) :
  image_of fromBuffer imageSize fi ext mime dims ->
  let hash := md5 (UploadsService.filename fi) in
  let path := UploadsService.path_of type_dir type hash in
  let w1 := UploadsService.upsert_by_name hash (UploadsService.filename fi)
              dims mime type w in
  saveImage fi (Some type) w
  = (inr (UploadsService.mkSaved ext mime hash (UploadsService.filename fi)),
     {| UploadsService.files := UploadsService.files w1;
        UploadsService.disk :=
          <[path := default (UploadsService.data fi)
                            (UploadsService.disk w !! path)]>
            (UploadsService.disk w);
        UploadsService.nextFileId := UploadsService.nextFileId w1 |}).
Proof.
  intros (Hf & Hm & Hd) hash path w1.
  unfold UploadsService.saveImage. rewrite Hf, Hm, Hd. simpl.
  fold hash. fold w1. fold path.
  assert (Hdisk : UploadsService.disk w1 = UploadsService.disk w).
  { unfold w1, UploadsService.upsert_by_name.
    by destruct (List.find _ (UploadsService.files w)). }
  rewrite Hdisk.
  destruct (UploadsService.disk w !! path) as [old|] eqn:E; simpl.
  - rewrite insert_id by done. destruct w1; simpl in *. by subst.
  - done.
Qed.

(** An uploaded image can be fetched under the digest of its file name,
    with the mime type just detected; but the bytes served are those
    already on disk under that name, if any: the new data is only written
    when no file is there.  The collection keeps one document per name:
    the upload adds a document only when none carried the name. *)
Theorem upload_then_fetch (req : UploadsService.UploadRequest)
    (fi : UploadsService.FileInfo) (type : UploadsService.FileType)
    (ext mime : string) (dims : UploadsService.Dimensions)
    (w : UploadsService.World) :
  UploadsService.ValidImage req = inr fi ->
  image_of fromBuffer imageSize fi ext mime dims ->
  let hash := md5 (UploadsService.filename fi) in
  let path := UploadsService.path_of type_dir type hash in
  exists w',
    uploadImage req (Some type) w
      = (inr (UploadsService.mkSaved ext mime hash
                (UploadsService.filename fi)), w')
    /\ checkFileExist hash type w'
       = (inr (default (UploadsService.data fi)
                       (UploadsService.disk w !! path), mime), w')
    /\ length (UploadsService.files w')
       = if bool_decide
              (Exists (fun f => UploadsService.name f = hash)
                      (UploadsService.files w))
         then length (UploadsService.files w)
         else S (length (UploadsService.files w)).
Proof.
  intros Hv Himg hash path.
  unfold UploadsService.uploadImage. rewrite Hv. simpl.
  rewrite (saveImage_run fi type ext mime dims w Himg).
  eexists. split; [reflexivity|]. split.
  - unfold UploadsService.checkFileExist. subst hash path.
    cbn [UploadsService.files UploadsService.disk].
    destruct (find_named_after_upsert (md5 (UploadsService.filename fi))
                (UploadsService.filename fi) dims mime type w) as [id ->].
    cbn [UploadsService.name UploadsService.mime].
    by rewrite lookup_insert_eq.
  - subst hash path. simpl. unfold UploadsService.upsert_by_name.
    destruct (List.find _ (UploadsService.files w)) as [f0|] eqn:E; simpl.
    + rewrite bool_decide_eq_true_2.
      * clear E. induction (UploadsService.files w) as [|f l IH]; simpl;
          [done|]. destruct (bool_decide _); simpl; [done | by rewrite IH].
      * apply find_some in E as [Hin Hf]. apply bool_decide_eq_true in Hf.
        apply Exists_exists. exists f0. split; [|done].
        by apply list_elem_of_In.
    + rewrite bool_decide_eq_false_2.
      * rewrite length_app. simpl. lia.
      * intros Hex. apply Exists_exists in Hex as (f & Hin & Hf).
        apply list_elem_of_In in Hin.
        pose proof (find_none _ _ E f Hin) as Hn. simpl in Hn.
        by rewrite bool_decide_eq_true_2 in Hn.
Qed.

(** Two uploads under the same file name and type, on a disk that had
    no such file: the second leaves the bytes of the first on disk and
    replaces the document's mime type, so what is fetched afterwards is
    the first image's data labelled with the second image's type. *)
Theorem second_upload_keeps_first_bytes
    (fi1 fi2 : UploadsService.FileInfo) (type : UploadsService.FileType)
    (ext1 mime1 ext2 mime2 : string) (dims1 dims2 : UploadsService.Dimensions)
    (w : UploadsService.World) :
  UploadsService.filename fi1 = UploadsService.filename fi2 ->
  image_of fromBuffer imageSize fi1 ext1 mime1 dims1 ->
  image_of fromBuffer imageSize fi2 ext2 mime2 dims2 ->
  let hash := md5 (UploadsService.filename fi1) in
  UploadsService.disk w !! UploadsService.path_of type_dir type hash = None ->
  exists w1 w2 s1 s2,
    saveImage fi1 (Some type) w = (inr s1, w1)
    /\ saveImage fi2 (Some type) w1 = (inr s2, w2)
    /\ UploadsService.hashFilename s1 = hash
    /\ UploadsService.hashFilename s2 = hash
    /\ checkFileExist hash type w2
       = (inr (UploadsService.data fi1, mime2), w2).
Proof.
  intros Hname H1 H2 hash Hfree. subst hash.
  rewrite (saveImage_run fi1 type ext1 mime1 dims1 w H1).
  rewrite Hfree. cbn [default].
  eexists _, _, _, _. split; [reflexivity|].
  rewrite (saveImage_run fi2 type ext2 mime2 dims2 _ H2).
  rewrite <- Hname. cbn [UploadsService.files UploadsService.disk].
  rewrite lookup_insert_eq. cbn [default].
  split; [reflexivity|]. split; [done|]. split; [done|].
  unfold UploadsService.checkFileExist.
  cbn [UploadsService.files UploadsService.disk].
  match goal with
  | |- context [UploadsService.upsert_by_name ?h ?fn ?d ?m type ?w0] =>
      destruct (find_named_after_upsert h fn d m type w0) as [id ->]
  end.
  cbn [UploadsService.name UploadsService.mime].
  by rewrite insert_insert_eq, lookup_insert_eq.
Qed.

Lemma find_none_intro {A} (p : A -> bool) (l : list A) :
  (forall x, In x l -> p x = false) -> List.find p l = None.
Proof.
  induction l as [|x l IH]; simpl; [done|]. intros H.
  rewrite (H x) by auto. apply IH. auto.
Qed.

Lemma no_name_after_removal (l : list UploadsService.File)
    (doc : UploadsService.File) (type : UploadsService.FileType) :
  NoDup (UploadsService.name <$> l) ->
  NoDup (UploadsService.file_id <$> l) ->
  doc ∈ l ->
  List.find (fun f => bool_decide (UploadsService.name f
                                   = UploadsService.name doc)
                      && bool_decide (UploadsService.type f = type))
            (delete_first
               (fun f => bool_decide (UploadsService.file_id f
                                      = UploadsService.file_id doc)) l)
  = None.
Proof.
  induction l as [|f l IH]; csimpl; [done|].
  intros Hnames Hids Hin.
  apply NoDup_cons in Hnames as [Hname Hnames].
  apply NoDup_cons in Hids as [Hid Hids].
  apply elem_of_cons in Hin as [->|Hin].
  - rewrite bool_decide_eq_true_2 by done.
    apply find_none_intro. intros g Hg. apply list_elem_of_In in Hg.
    apply andb_false_iff. left. apply bool_decide_eq_false_2.
    intros Hgn. apply Hname. rewrite <- Hgn. by apply list_elem_of_fmap_2.
  - rewrite bool_decide_eq_false_2.
    2:{ intros Heq. apply Hid. rewrite Heq. by apply list_elem_of_fmap_2. }
    simpl. rewrite (bool_decide_eq_false_2 (UploadsService.name f = _)).
    2:{ intros Heq. apply Hname. rewrite Heq. by apply list_elem_of_fmap_2. }
    simpl. by apply IH.
Qed.

Lemma length_delete_first_found {A} (p : A -> bool) (l : list A) (x : A) :
  List.find p l = Some x -> S (length (delete_first p l)) = length l.
Proof.
  induction l as [|y l IH]; simpl; [done|].
  destruct (p y); [done|]. intros H. simpl. by rewrite IH.
Qed.

(** A document whose file is gone from the disk is forgotten by the
    fetch that finds out: the fetch answers NotFound, removes one document
    (the one with the fetched document's id) and leaves the disk alone; so
    with one document per name and per id the next fetch of that name
    answers CannotFindException instead. *)
Theorem lost_file_forgets_document (_name : string)
    (type : UploadsService.FileType) (w : UploadsService.World)
    (doc : UploadsService.File) :
  List.find (fun f => bool_decide (UploadsService.name f = _name)
                      && bool_decide (UploadsService.type f = type))
            (UploadsService.files w) = Some doc ->
  UploadsService.disk w !! UploadsService.path_of type_dir type _name = None ->
  exists w',
    checkFileExist _name type w
      = (inl (UploadsService.NotFoundException "文件已丢失"), w')
    /\ UploadsService.files w'
       = delete_first
           (fun f => bool_decide (UploadsService.file_id f
                                  = UploadsService.file_id doc))
           (UploadsService.files w)
    /\ S (length (UploadsService.files w'))
       = length (UploadsService.files w)
    /\ UploadsService.disk w' = UploadsService.disk w
    /\ (NoDup (UploadsService.name <$> UploadsService.files w) ->
        NoDup (UploadsService.file_id <$> UploadsService.files w) ->
        checkFileExist _name type w'
        = (inl UploadsService.CannotFindException, w')).
Proof.
  intros Hdoc Hlost.
  pose proof (find_some _ _ Hdoc) as [Hin Hm].
  apply list_elem_of_In in Hin.
  apply andb_true_iff in Hm as [Hn Ht].
  apply bool_decide_eq_true in Hn, Ht.
  unfold UploadsService.checkFileExist. rewrite Hdoc, Hn, Hlost.
  eexists. split; [reflexivity|]. simpl. split; [done|].
  split; [|split; [done|]].
  - apply find_some in Hdoc as [Hin' _].
    assert (exists x, List.find
              (fun f => bool_decide (UploadsService.file_id f
                                     = UploadsService.file_id doc))
              (UploadsService.files w) = Some x) as [x Hx].
    { destruct (List.find _ (UploadsService.files w)) as [x|] eqn:E;
        [by eexists|].
      pose proof (find_none _ _ E doc Hin') as Hno. simpl in Hno.
      by rewrite bool_decide_eq_true_2 in Hno. }
    by eapply length_delete_first_found.
  - intros Hnames Hids. subst _name.
    by rewrite (no_name_after_removal _ doc type Hnames Hids Hin).
Qed.

Lemma find_id_after_removal (l : list UploadsService.File) (id : ObjectId) :
  NoDup (UploadsService.file_id <$> l) ->
  List.find (fun f => bool_decide (UploadsService.file_id f = id))
            (delete_first
               (fun f => bool_decide (UploadsService.file_id f = id)) l)
  = None.
Proof.
  induction l as [|f l IH]; csimpl; [done|].
  intros Hids. apply NoDup_cons in Hids as [Hid Hids].
  destruct (bool_decide (UploadsService.file_id f = id)) eqn:E.
  - apply bool_decide_eq_true in E. subst id.
    apply find_none_intro. intros g Hg. apply list_elem_of_In in Hg.
    apply bool_decide_eq_false_2. intros Heq. apply Hid. rewrite <- Heq.
    by apply list_elem_of_fmap_2.
  - simpl. rewrite E. by apply IH.
Qed.

(** Deleting a file by id removes its document and the file at the
    path of the document's type and name, and answers OK whether or not
    that file was on disk; other paths are untouched.  With one document
    per id a second delete of the same id answers CannotFindException and
    changes nothing. *)
Theorem deleteFile_removes_document_and_file (id : ObjectId)
    (w : UploadsService.World) (doc : UploadsService.File) :
  List.find (fun f => bool_decide (UploadsService.file_id f = id))
            (UploadsService.files w) = Some doc ->
  let path := UploadsService.path_of type_dir (UploadsService.type doc)
                (UploadsService.name doc) in
  exists w',
    deleteFile id w = (inr "OK", w')
    /\ S (length (UploadsService.files w'))
       = length (UploadsService.files w)
    /\ UploadsService.disk w' !! path = None
    /\ (forall p, p <> path ->
          UploadsService.disk w' !! p = UploadsService.disk w !! p)
    /\ (NoDup (UploadsService.file_id <$> UploadsService.files w) ->
        deleteFile id w' = (inl UploadsService.CannotFindException, w')).
Proof.
  intros Hdoc path. unfold UploadsService.deleteFile. rewrite Hdoc.
  eexists. split; [reflexivity|]. simpl.
  split; [by eapply length_delete_first_found|].
  split; [apply lookup_delete_eq|].
  split; [intros p Hp; by apply lookup_delete_ne|].
  intros Hids. by rewrite find_id_after_removal.
Qed.

End Uploads.

Lemma upload_then_fetch_witness :
  let fi := UploadsService.mkFileInfo [] "cat.png" false in
  let md5 := fun _ : string => "d0be2dc4" in
  let w := UploadsService.mkWorld [] ∅ 1%N in
  exists w',
    UploadsService.uploadImage md5
      (fun _ => Some ("png", "image/png"))
      (fun _ => Some (UploadsService.mkDimensions 1 1))
      (fun _ => "images") 0
      (UploadsService.mkUpload true (Some [fi])) None w
    = (inr (UploadsService.mkSaved "png" "image/png" "d0be2dc4" "cat.png"), w')
    /\ UploadsService.checkFileExist (fun _ => "images") "d0be2dc4" 0 w'
       = (inr ([], "image/png"), w').
Proof.
  intros fi md5 w.
  destruct (upload_then_fetch md5 (fun _ => Some ("png", "image/png"))
              (fun _ => Some (UploadsService.mkDimensions 1 1))
              (fun _ => "images") 0
              (UploadsService.mkUpload true (Some [fi])) fi 0
              "png" "image/png" (UploadsService.mkDimensions 1 1) w
              eq_refl (conj eq_refl (conj eq_refl eq_refl)))
    as (w' & H1 & H2 & _).
  exists w'. split; [exact H1 | exact H2].
Defined.

Lemma second_upload_keeps_first_bytes_witness :
  let fi1 := UploadsService.mkFileInfo [Byte.x01] "cat.png" false in
  let fi2 := UploadsService.mkFileInfo [Byte.x02] "cat.png" false in
  let md5 := fun _ : string => "d0be2dc4" in
  let sniff := fun b : UploadsService.Buffer =>
    Some (match b with
          | [Byte.x01] => ("png", "image/png")
          | _ => ("gif", "image/gif")
          end) in
  let size := fun _ : UploadsService.Buffer =>
    Some (UploadsService.mkDimensions 1 1) in
  let w := UploadsService.mkWorld [] ∅ 1%N in
  exists w1 w2 s1 s2,
    UploadsService.saveImage md5 sniff size (fun _ => "images") 0 fi1
      (Some 0) w = (inr s1, w1)
    /\ UploadsService.saveImage md5 sniff size (fun _ => "images") 0 fi2
         (Some 0) w1 = (inr s2, w2)
    /\ UploadsService.checkFileExist (fun _ => "images") "d0be2dc4" 0 w2
       = (inr ([Byte.x01], "image/gif"), w2).
Proof.
  intros fi1 fi2 md5 sniff size w.
  destruct (second_upload_keeps_first_bytes md5 sniff size
              (fun _ => "images") 0 fi1 fi2 0
              "png" "image/png" "gif" "image/gif"
              (UploadsService.mkDimensions 1 1)
              (UploadsService.mkDimensions 1 1) w eq_refl
              (conj eq_refl (conj eq_refl eq_refl))
              (conj eq_refl (conj eq_refl eq_refl)) eq_refl)
    as (w1 & w2 & s1 & s2 & H1 & H2 & _ & _ & H5).
  exists w1, w2, s1, s2. split; [exact H1|]. split; [exact H2 | exact H5].
Defined.

Lemma lost_file_forgets_document_witness :
  let doc := UploadsService.mkFile 1%N "d0be2dc4" "cat.png"
               (UploadsService.mkDimensions 1 1) "image/png" 0 in
  let w := UploadsService.mkWorld [doc] ∅ 2%N in
  exists w',
    UploadsService.checkFileExist (fun _ => "images") "d0be2dc4" 0 w
      = (inl (UploadsService.NotFoundException "文件已丢失"), w')
    /\ UploadsService.files w' = []
    /\ UploadsService.checkFileExist (fun _ => "images") "d0be2dc4" 0 w'
       = (inl UploadsService.CannotFindException, w').
Proof.
  intros doc w.
  destruct (lost_file_forgets_document (fun _ => "images") "d0be2dc4" 0 w doc
              eq_refl eq_refl) as (w' & H1 & H2 & _ & _ & H5).
  exists w'. split; [exact H1|]. split; [exact H2|].
  apply H5; apply NoDup_singleton.
Defined.

Lemma deleteFile_removes_document_and_file_witness :
  let doc := UploadsService.mkFile 1%N "d0be2dc4" "cat.png"
               (UploadsService.mkDimensions 1 1) "image/png" 0 in
  let w := UploadsService.mkWorld [doc]
             {[ ("images", "d0be2dc4") := [Byte.x01] ]} 2%N in
  exists w',
    UploadsService.deleteFile (fun _ => "images") 1%N w = (inr "OK", w')
    /\ UploadsService.disk w' !! ("images", "d0be2dc4") = None
    /\ UploadsService.deleteFile (fun _ => "images") 1%N w'
       = (inl UploadsService.CannotFindException, w').
Proof.
  intros doc w.
  destruct (deleteFile_removes_document_and_file (fun _ => "images") 1%N w
              doc eq_refl) as (w' & H1 & _ & H3 & _ & H5).
  exists w'. split; [exact H1|]. split; [exact H3|].
  apply H5. apply NoDup_singleton.
Defined.

(** ** The notes around a note *)

Lemma date_leb_spec (a b : Date) :
  date_leb a b = true
  <-> d_year a < d_year b
      \/ (d_year a = d_year b
          /\ (d_month a < d_month b
              \/ (d_month a = d_month b /\ d_day a <= d_day b))).
Proof.
  unfold date_leb.
  destruct (Z.ltb_spec (d_year a) (d_year b)),
    (Z.eqb_spec (d_year a) (d_year b)),
    (Z.ltb_spec (d_month a) (d_month b)),
    (Z.eqb_spec (d_month a) (d_month b)),
    (Z.leb_spec (d_day a) (d_day b)); cbn [andb orb];
    split; intros Hle; try done; lia.
Qed.

#[local] Instance not_older_total : Total NotesController.not_older.
Proof.
  intros a b. unfold NotesController.not_older.
  rewrite !date_leb_spec. lia.
Qed.

#[local] Instance not_older_trans : Transitive NotesController.not_older.
Proof.
  intros a b c. unfold NotesController.not_older.
  rewrite !date_leb_spec. lia.
Qed.





Section NoteList.

Opaque merge_sort.



Transparent merge_sort.

End NoteList.


(** ** The chart data *)

Lemma split_no_separator (c : ascii) (s : string) :
  occurs c s = false -> Utils.split c s = [s].
Proof.
  induction s as [|a s IH]; simpl; [done|].
  intros H. apply orb_false_iff in H as [Ha Hs].
  rewrite Ha, (IH Hs). done.
Qed.

Lemma split_at_separator (c : ascii) (s rest : string) :
  occurs c s = false ->
  Utils.split c (s +:+ String c rest) = s :: Utils.split c rest.
Proof.
  induction s as [|a s IH]; simpl.
  - intros _. by rewrite bool_decide_eq_true_2.
  - intros H. apply orb_false_iff in H as [Ha Hs].
    rewrite Ha. by rewrite (IH Hs).
Qed.

Lemma lookup_concat_pairs {A} (f : nat -> list A) (x y : nat -> A) (n i : nat) :
  (forall k, f k = [x k; y k]) ->
  (i < n)%nat ->
  concat (f <$> seq 0 n) !! (2 * i)%nat = Some (x i)
  /\ concat (f <$> seq 0 n) !! (2 * i + 1)%nat = Some (y i).
Proof.
  intros Hf. revert i. induction n as [|n IH]; intros i Hi; [lia|].
  assert (Hlen : length (concat (f <$> seq 0 n)) = (2 * n)%nat).
  { clear -Hf. induction n as [|n IH]; [done|].
    rewrite seq_S, fmap_app, concat_app, length_app, IH.
    change (concat (f <$> [(0 + n)%nat])) with (f n ++ []).
    rewrite Hf. simpl length. lia. }
  rewrite seq_S, fmap_app, concat_app.
  change (concat (f <$> [(0 + n)%nat])) with (f n ++ []).
  rewrite Hf, app_nil_r.
  destruct (decide (i < n)%nat) as [Hlt|Hge].
  - destruct (IH i Hlt) as [H1 H2].
    rewrite !lookup_app_l by lia. done.
  - assert (i = n) by lia. subst i.
    rewrite !lookup_app_r by lia. rewrite Hlen.
    replace (2 * n - 2 * n)%nat with 0%nat by lia.
    replace (2 * n + 1 - 2 * n)%nat with 1%nat by lia. done.
Qed.

Lemma length_concat_pairs {A B} (f : B -> list A) (l : list B) :
  (forall b, length (f b) = 2%nat) ->
  length (concat (f <$> l)) = (2 * length l)%nat.
Proof.
  intros Hf. induction l as [|b l IH]; [done|].
  csimpl. rewrite length_app, Hf, IH. lia.
Qed.

Lemma lookup_concat_pairs_list {A B} (f : B -> list A) (x y : B -> A)
    (l : list B) (i : nat) (b : B) :
  (forall b, f b = [x b; y b]) ->
  l !! i = Some b ->
  concat (f <$> l) !! (2 * i)%nat = Some (x b)
  /\ concat (f <$> l) !! (2 * i + 1)%nat = Some (y b).
Proof.
  intros Hf. revert i. induction l as [|a l IH]; intros i Hi; [done|].
  rewrite fmap_cons. cbn [concat]. rewrite Hf.
  destruct i as [|i].
  - injection Hi as ->. done.
  - replace (2 * S i)%nat with (S (S (2 * i))) by lia.
    replace (S (S (2 * i)) + 1)%nat with (S (S (2 * i + 1))) by lia.
    exact (IH i Hi).
Qed.

(** The pairs of a list laid out in the reverse of its order. *)
Lemma lookup_concat_pairs_reverse {A B} (f : B -> list A) (x y : B -> A)
    (l : list B) (k : nat) (b : B) :
  (forall b, f b = [x b; y b]) ->
  l !! k = Some b ->
  concat (reverse (f <$> l)) !! (2 * (length l - 1 - k))%nat = Some (x b)
  /\ concat (reverse (f <$> l)) !! (2 * (length l - 1 - k) + 1)%nat
     = Some (y b).
Proof.
  intros Hf Hk. rewrite <- fmap_reverse.
  apply lookup_concat_pairs_list; [done|].
  pose proof (lookup_lt_Some _ _ _ Hk) as Hlt.
  rewrite reverse_lookup by lia.
  by replace (length l - S (length l - 1 - k))%nat with k by lia.
Qed.

Lemma lookup_slice_0 {A} (n k : nat) (l : list A) (b : A) :
  (k < n)%nat -> l !! k = Some b ->
  Analyze.slice 0 n l !! k = Some b
  /\ length (Analyze.slice 0 n l) = Nat.min n (length l).
Proof.
  intros Hk Hb. unfold Analyze.slice.
  rewrite drop_0, Nat.sub_0_r, lookup_take_lt, length_take by done. done.
Qed.

(** The shape of [getFragment]'s answer.  [today] always has 48 points,
    the ip and the pv point of each hour from 0 to 23 in turn, an hour
    without counts giving 0; the points of the current hour, and only
    they, are labelled "现在".  [weeks] and [months] hold the ip and the
    pv point of each of the first 7 and 30 entries of the daily counts and
    nothing else, in the reverse of their order: of [n] entries taken,
    the entry at position [k] fills the places [2 (n - 1 - k)] and the
    next.  A week point is labelled by the name of its day of the week, a
    month point by what follows the year in a date like 2020-05-17. *)
Theorem fragment_shape (day_of_week : string -> Z)
    (day : gmap string Analyze.HourStat) (all : list Analyze.DayStat)
    (nowHour : Z) :
  let f := Analyze.getFragment day_of_week day all nowHour in
  length (Analyze.today f) = 48%nat
  /\ (forall i, (i < 24)%nat ->
        let stat := day !! Analyze.padStart 2 "0" (pretty i) in
        exists hour,
          Analyze.today f !! (2 * i)%nat
            = Some (Analyze.mkPoint "hour" hour "ip"
                      (default 0 (Analyze.hour_ip <$> stat)))
          /\ Analyze.today f !! (2 * i + 1)%nat
             = Some (Analyze.mkPoint "hour" hour "pv"
                       (default 0 (Analyze.hour_pv <$> stat)))
          /\ (hour = "现在" <-> Z.of_nat i = nowHour))
  /\ length (Analyze.weeks f) = (2 * Nat.min 7 (length all))%nat
  /\ length (Analyze.months f) = (2 * Nat.min 30 (length all))%nat
  /\ (forall k item, (k < 7)%nat -> all !! k = Some item ->
        let j := (Nat.min 7 (length all) - 1 - k)%nat in
        exists name,
          Analyze.weeks f !! (2 * j)%nat
            = Some (Analyze.mkPoint "day" name "ip" (Analyze.day_ip item))
          /\ Analyze.weeks f !! (2 * j + 1)%nat
             = Some (Analyze.mkPoint "day" name "pv" (Analyze.day_pv item))
          /\ (forall d, 0 <= day_of_week (Analyze.date item) ->
                Analyze.day_names
                  !! Z.to_nat (day_of_week (Analyze.date item)) = Some d ->
                name = "周" +:+ d))
  /\ (forall k item, (k < 30)%nat -> all !! k = Some item ->
        let j := (Nat.min 30 (length all) - 1 - k)%nat in
        exists label,
          Analyze.months f !! (2 * j)%nat
            = Some (Analyze.mkPoint "date" label "ip" (Analyze.day_ip item))
          /\ Analyze.months f !! (2 * j + 1)%nat
             = Some (Analyze.mkPoint "date" label "pv"
                       (Analyze.day_pv item))
          /\ (forall y m d,
                Analyze.date item = y +:+ "-" +:+ m +:+ "-" +:+ d ->
                occurs "-" y = false -> occurs "-" m = false ->
                occurs "-" d = false ->
                label = m +:+ "-" +:+ d)).
Proof.
  intros f. unfold f, Analyze.getFragment.
  cbn [Analyze.today Analyze.weeks Analyze.months].
  split; [|split; [|split; [|split; [|split]]]].
  - by rewrite length_concat_pairs.
  - intros i Hi.
    destruct (lookup_concat_pairs (Analyze.hour_points day nowHour)
                (fun i => hd (Analyze.mkPoint "" "" "" 0)
                             (Analyze.hour_points day nowHour i))
                (fun i => hd (Analyze.mkPoint "" "" "" 0)
                             (tl (Analyze.hour_points day nowHour i)))
                24 i ltac:(done) Hi) as [H1 H2].
    rewrite H1, H2. unfold Analyze.hour_points. cbn [hd tl].
    eexists. split; [reflexivity|]. split; [reflexivity|].
    case_bool_decide as E; [done|]. split; [|done].
    do 24 (destruct i as [|i]; [vm_compute; discriminate|]). lia.
  - rewrite <- fmap_reverse, length_concat_pairs by done.
    rewrite length_reverse. unfold Analyze.slice.
    rewrite length_take, drop_0. lia.
  - rewrite <- fmap_reverse, length_concat_pairs by done.
    rewrite length_reverse. unfold Analyze.slice.
    rewrite length_take, drop_0. lia.
  - intros k item Hk Hitem.
    destruct (lookup_slice_0 7 k all item Hk Hitem) as [Hs Hlen].
    destruct (lookup_concat_pairs_reverse (Analyze.week_points day_of_week)
                (fun b => hd (Analyze.mkPoint "" "" "" 0)
                             (Analyze.week_points day_of_week b))
                (fun b => hd (Analyze.mkPoint "" "" "" 0)
                             (tl (Analyze.week_points day_of_week b)))
                (Analyze.slice 0 7 all) k item ltac:(done) Hs) as [H1 H2].
    rewrite Hlen in H1, H2. rewrite H1, H2.
    unfold Analyze.week_points. cbn [hd tl].
    eexists. split; [reflexivity|]. split; [reflexivity|].
    intros d Hd Hname. rewrite bool_decide_eq_true_2 by done.
    by rewrite Hname.
  - intros k item Hk Hitem.
    destruct (lookup_slice_0 30 k all item Hk Hitem) as [Hs Hlen].
    destruct (lookup_concat_pairs_reverse Analyze.month_points
                (fun b => hd (Analyze.mkPoint "" "" "" 0)
                             (Analyze.month_points b))
                (fun b => hd (Analyze.mkPoint "" "" "" 0)
                             (tl (Analyze.month_points b)))
                (Analyze.slice 0 30 all) k item ltac:(done) Hs) as [H1 H2].
    rewrite Hlen in H1, H2. rewrite H1, H2.
    unfold Analyze.month_points. cbn [hd tl].
    eexists. split; [reflexivity|]. split; [reflexivity|].
    intros y m d Hdate Hy Hm Hd. rewrite Hdate.
    change (y +:+ "-" +:+ m +:+ "-" +:+ d)
      with (y +:+ String "-" (m +:+ String "-" d)).
    rewrite split_at_separator by done.
    rewrite split_at_separator by done.
    rewrite split_no_separator by done. done.
Qed.

(** ** The timeline *)

Section Timeline.

Context (encodeURI : string -> string).

Lemma map_throwing_inr {A B} (f : A -> Exception + B) (l : list A)
    (ys : list B) :
  AggregateController.map_throwing f l = inr ys ->
  Forall2 (fun x y => f x = inr y) l ys.
Proof.
  revert ys. induction l as [|x l IH]; simpl; intros ys.
  - intros [= <-]. constructor.
  - destruct (f x) as [e|y] eqn:E; [done|].
    destruct (AggregateController.map_throwing f l) as [e|ys']; [done|].
    intros [= <-]. constructor; [done | by apply IH].
Qed.

Lemma map_throwing_total {A B} (f : A -> Exception + B) (l : list A) :
  Forall (fun x => exists y, f x = inr y) l ->
  exists ys, AggregateController.map_throwing f l = inr ys.
Proof.
  induction 1 as [|x l [y Hy] _ [ys IH]]; simpl; [by eexists|].
  rewrite Hy, IH. by eexists.
Qed.

Lemma map_throwing_inl {A B} (f : A -> Exception + B) (l : list A) (x : A)
    (e : Exception) :
  x ∈ l -> f x = inl e ->
  (forall x' e', f x' = inl e' -> e' = e) ->
  AggregateController.map_throwing f l = inl e.
Proof.
  intros Hin Hx Hall. induction l as [|z l IH]; [set_solver|]. simpl.
  destruct (f z) as [e'|y] eqn:E; [by rewrite (Hall _ _ E)|].
  apply elem_of_cons in Hin as [->|Hin]; [congruence|].
  by rewrite IH.
Qed.

Lemma post_condition_split (year : option Z) (a : Article) :
  matches (spread_query {[ "hide" := QEq (VBool false) ]}
                        (yearCondition year)) (article_doc a)
  = matches (yearCondition year) (article_doc a) && negb (hide a).
Proof.
  unfold spread_query. rewrite matches_union.
  - f_equal. rewrite matches_singleton. simpl.
    rewrite article_doc_lookup_hide. simpl.
    by destruct (hide a).
  - unfold yearCondition.
    destruct year as [y|]; [destruct (y =? 0)|];
      try apply map_disjoint_empty_l.
    by apply map_disjoint_singleton_l_2, lookup_singleton_ne.
Qed.

Lemma post_condition_not_hidden (year : option Z) (a : Article) :
  matches (spread_query {[ "hide" := QEq (VBool false) ]}
                        (yearCondition year)) (article_doc a) = true ->
  hide a = false.
Proof.
  rewrite post_condition_split, andb_true_iff, negb_true_iff. tauto.
Qed.

Lemma year_condition_well_within (year : option Z) (a : Article) :
  well_within_year year (created a) ->
  matches (yearCondition year) (article_doc a) = true.
Proof.
  unfold well_within_year, yearCondition.
  destruct year as [y|]; [|intros _; apply matches_empty].
  destruct (Z.eqb_spec y 0) as [|Hy]; [intros _; apply matches_empty|].
  intros [?|[Hbig Hin]]; [done|].
  rewrite matches_singleton. simpl. rewrite article_doc_lookup_created.
  unfold Date_year.
  destruct (Z.leb_spec y 99); [lia|].
  destruct (Z.leb_spec (y + 1) 99); [lia|].
  rewrite !andb_false_r.
  apply andb_true_iff. rewrite !date_leb_spec. simpl. lia.
Qed.

Lemma find_sorted_elem {A} (doc : A -> Article) (q : Query)
    (sort : AggregateController.Sort) (l : list A) (x : A) :
  x ∈ AggregateController.find_sorted doc q sort l
  <-> x ∈ l /\ matches q (article_doc (doc x)) = true.
Proof.
  unfold AggregateController.find_sorted.
  by rewrite merge_sort_Permutation, elem_of_List_filter.
Qed.

Lemma summary_is_short (item : AggregateController.PostItem) :
  AggregateController.post_summary item = None ->
  (String.length (AggregateController.summary_of item) <= 153)%nat.
Proof.
  unfold AggregateController.summary_of. intros ->.
  destruct (Nat.ltb_spec 150
              (String.length (AggregateController.post_text item))).
  - rewrite length_string_app, length_substring_0 by lia. simpl. lia.
  - lia.
Qed.

(** A timeline request that names a type is answered with nothing: the
    query of that type runs, but the handler leaves through a bare
    [return]; for the type Note that is all, for the type Post the
    request can also fail with a [TypeError].  It does fail so, as does a
    request without a type, when a post that is not hidden and lies well
    within the year asked for has lost its category.  Without a type, and
    with a category on every post that is not hidden, the answer holds
    both lists: posts that are not hidden, each with its stored summary or
    else its text cut to 150 characters plus an ellipsis, and notes that
    are neither hidden nor protected by a password. *)
Theorem timeline_answers_only_without_type
    (sort : option AggregateController.Sort)
    (type : option AggregateController.TimelineType) (year : option Z)
    (w : AggregateController.World) :
  let answer := AggregateController.getTimeline encodeURI sort type year w in
  (type = Some AggregateController.TimelineNote -> answer = inr None)
  /\ (type = Some AggregateController.TimelinePost ->
      answer = inr None \/ answer = inl TypeError)
  /\ (type = None ->
      Forall (fun p => hide (AggregateController.post p) = false ->
                       is_Some (AggregateController.post_category p))
             (AggregateController.postModel w) ->
      exists d,
        answer = inr (Some d)
        /\ (forall e, e ∈ AggregateController.data_posts d ->
              exists item,
                item ∈ AggregateController.postModel w
                /\ hide (AggregateController.post item) = false
                /\ AggregateController.entry_id e
                   = a_id (AggregateController.post item)
                /\ AggregateController.entry_summary e
                   = AggregateController.summary_of item
                /\ (AggregateController.post_summary item = None ->
                    (String.length (AggregateController.entry_summary e)
                     <= 153)%nat))
        /\ (forall n, n ∈ AggregateController.data_notes d ->
              exists item,
                item ∈ AggregateController.noteModel w
                /\ hide (AggregateController.note item) = false
                /\ password (AggregateController.note item) = None
                /\ AggregateController.note_entry_id n
                   = a_id (AggregateController.note item)))
  /\ (type <> Some AggregateController.TimelineNote ->
      (exists p, p ∈ AggregateController.postModel w
                 /\ hide (AggregateController.post p) = false
                 /\ well_within_year year
                      (created (AggregateController.post p))
                 /\ AggregateController.post_category p = None) ->
      answer = inl TypeError).
Proof.
  intros answer. unfold answer, AggregateController.getTimeline.
  split; [|split; [|split]].
  - by intros ->.
  - intros ->. cbv zeta.
    destruct (AggregateController.getPosts _ _ _ _) as [e|posts] eqn:E;
      [|by left].
    right. f_equal. unfold AggregateController.getPosts in E.
    clear -E. revert E.
    induction (AggregateController.find_sorted _ _ _ _) as [|x l IH];
      simpl; [done|].
    unfold AggregateController.post_entry at 1.
    destruct (AggregateController.post_category x); [|by intros [= <-]].
    destruct (AggregateController.map_throwing _ l); [|done].
    intros [= <-]. by apply IH.
  - intros -> Hcat. cbv zeta.
    destruct (map_throwing_total (AggregateController.post_entry encodeURI)
                (AggregateController.find_sorted AggregateController.post
                   (spread_query {[ "hide" := QEq (VBool false) ]}
                                 (yearCondition year))
                   (default AggregateController.Ascending sort)
                   (AggregateController.postModel w))) as [posts Hposts].
    { apply Forall_forall. intros p Hp.
      apply find_sorted_elem in Hp as [Hp Hm].
      apply post_condition_not_hidden in Hm.
      rewrite Forall_forall in Hcat. destruct (Hcat p Hp Hm) as [c Hc].
      unfold AggregateController.post_entry. rewrite Hc. by eexists. }
    unfold AggregateController.getPosts. rewrite Hposts.
    eexists. split; [reflexivity|]. simpl. split.
    + intros e He. apply map_throwing_inr in Hposts.
      apply list_elem_of_lookup in He as [i He].
      destruct (Forall2_lookup_r _ _ _ _ _ Hposts He) as (item & Hi & Hf).
      apply list_elem_of_lookup_2 in Hi.
      apply find_sorted_elem in Hi as [Hi Hm].
      apply post_condition_not_hidden in Hm.
      exists item. split; [done|]. split; [done|].
      unfold AggregateController.post_entry in Hf.
      destruct (AggregateController.post_category item); [|done].
      injection Hf as <-. simpl. split; [done|]. split; [done|].
      apply summary_is_short.
    + intros n Hn. unfold AggregateController.getNotes in Hn.
      apply list_elem_of_fmap in Hn as (item & -> & Hi).
      apply find_sorted_elem in Hi as [Hi Hm].
      change ({[ "hide" := QEq (VBool false);
                 "password" := QEq VUndefined ]} : Query)
        with (addConditionToSeeHideContent false) in Hm.
      rewrite listing_condition_matches in Hm.
      apply andb_true_iff in Hm as [Hv _]. unfold visible_to in Hv.
      simpl in Hv. apply andb_true_iff in Hv as [Hh Hp].
      apply negb_true_iff in Hh. apply bool_decide_eq_true in Hp.
      exists item. done.
  - intros Htype (p & Hp & Hh & Hy & Hc).
    assert (E : AggregateController.getPosts encodeURI year
                  (default AggregateController.Ascending sort) w
                = inl TypeError).
    { unfold AggregateController.getPosts.
      apply (map_throwing_inl _ _ p).
      - apply find_sorted_elem. split; [done|].
        by rewrite post_condition_split, year_condition_well_within, Hh.
      - unfold AggregateController.post_entry. by rewrite Hc.
      - intros x e. unfold AggregateController.post_entry.
        destruct (AggregateController.post_category x); [done|].
        by intros [= <-]. }
    cbv zeta. rewrite E. destruct type as [[|]|]; done.
Qed.

End Timeline.

Lemma timeline_answers_only_without_type_witness :
  let w :=
    AggregateController.mkWorld
      [AggregateController.mkPostItem
         (mkArticle 1%N false None true (mkDate 2020 5 1)) "Hello" "hello"
         (Some (AggregateController.mkCategory "misc")) None "text"]
      [AggregateController.mkNoteItem Sample.secret_note 1 "Secret" None
         None] in
  AggregateController.getTimeline (fun s => s) None
    (Some AggregateController.TimelinePost) None w = inr None
  /\ exists d,
       AggregateController.getTimeline (fun s => s) None None None w
         = inr (Some d)
       /\ AggregateController.data_notes d = []
       /\ (AggregateController.entry_url
             <$> AggregateController.data_posts d) = ["/posts/misc/hello"].
Proof.
  intros w.
  pose proof (timeline_answers_only_without_type (fun s => s) None
                (Some AggregateController.TimelinePost) None w)
    as (_ & H1 & _).
  pose proof (timeline_answers_only_without_type (fun s => s) None None None
                w) as (_ & _ & H2 & _).
  split.
  - destruct (H1 eq_refl) as [H|H]; [exact H|].
    vm_compute in H. discriminate.
  - destruct (H2 eq_refl) as (d & Hd & _).
    { apply Forall_singleton. intros _. by eexists. }
    exists d. split; [exact Hd|].
    vm_compute in Hd. injection Hd as <-. split; reflexivity.
Defined.
